(** * FRuit-game: the authoritative merge engine, the replay codec and the
    session host, embedded from the TypeScript sources.

    Part I holds the embedding, one module per source file:
    - [JS]      the fragment of the JavaScript number semantics the code uses
    - [Engine]  backend/src/game/engine.ts
    - [Replay]  backend/src/services/replay.ts
    - [Host]    backend/src/routes/game.ts (endGameSession, as one call and
                await by await, and the handlers of POST /input,
                GET /state/:sessionId and POST /end)

    Part II holds the properties: [JSFacts], [EngineFacts], [ReplayFacts],
    [HostFacts].

    Conventions.  A JavaScript [number] that takes part in the physics or
    comes from the client (coordinates, velocities, radii, client timestamps)
    is a binary64 [float].  A [number] that only ever holds an integer far
    below 2^53 (values of [Date.now()], scores, point values, the multiplier,
    counters) is a [Z]; on that range binary64 arithmetic is exact
    ([EngineFacts.Awarded_score_bound] bounds the growth of the score).  The
    calls the code makes to the outside ([Date.now()], [Math.random()],
    [uuidv4()]) are read from an explicit environment. *)

From Stdlib Require Import ZArith Floats List Lia.
From stdpp Require Import base strings gmap pretty.

Local Open Scope Z_scope.

(** * Part I: the embedding *)

(** ** JavaScript numbers *)
Module JS.

(** The binary64 value of an integer literal. *)
Definition of_Z (z : Z) : float :=
  SF2Prim (binary_normalize prec emax z 0 false).

(** [Math.floor]. *)
Definition Math_floor (x : float) : float :=
  match Prim2SF x with
  | S754_finite s m e =>
      if 0 <=? e then x
      else
        let d := Z.pow 2 (- e) in
        let n := if s then - ((Z.pos m + d - 1) / d) else Z.pos m / d in
        if n =? 0 then 0%float else of_Z n
  | _ => x
  end.

(** [Math.round]: the nearest integer, ties towards +infinity; an argument
    in [-0.5, 0) gives -0. *)
Definition Math_round (x : float) : float :=
  match Prim2SF x with
  | S754_finite s m e =>
      if 0 <=? e then x
      else
        let d := Z.pow 2 (- e) in
        let n := if s then (d - 2 * Z.pos m) / (2 * d)
                 else (2 * Z.pos m + d) / (2 * d) in
        if n =? 0 then (if s then (-0)%float else 0%float) else of_Z n
  | _ => x
  end.

Definition Math_abs (x : float) : float := PrimFloat.abs x.

Definition Math_sqrt (x : float) : float := PrimFloat.sqrt x.

(** [Math.max] and [Math.min] on two arguments: NaN is contagious and +0 is
    larger than -0. *)
Definition Math_max (a b : float) : float :=
  if is_nan a || is_nan b then nan
  else if (a <? b)%float then b
  else if (b <? a)%float then a
  else if get_sign a then b else a.

Definition Math_min (a b : float) : float :=
  if is_nan a || is_nan b then nan
  else if (a <? b)%float then a
  else if (b <? a)%float then b
  else if get_sign a then a else b.

(** [Math.pow(d, 2)], the correctly rounded square. *)
Definition Math_pow2 (d : float) : float := (d * d)%float.

(** [v || w] on numbers: 0, -0 and NaN are falsy. *)
Definition or_else (v w : float) : float :=
  if is_zero v || is_nan v then w else v.

(** SameValueZero, the equality of [Set] membership. *)
Definition SameValueZero (a b : float) : bool :=
  (a =? b)%float || (is_nan a && is_nan b).

(** The array index a number denotes, if it denotes one. *)
Definition to_index (x : float) : option nat :=
  match Prim2SF x with
  | S754_zero _ => Some 0%nat
  | S754_finite false m e =>
      if 0 <=? e then Some (Z.to_nat (Z.pos m * Z.pow 2 e))
      else if Z.pos m mod Z.pow 2 (- e) =? 0
           then Some (Z.to_nat (Z.pos m / Z.pow 2 (- e))) else None
  | _ => None
  end.

(** [s || null] / [s || undefined] on an optional string: the empty string
    is falsy. *)
Definition str_or_none (o : option string) : option string :=
  match o with
  | Some s => if bool_decide (s = ""%string) then None else Some s
  | None => None
  end.

End JS.

(** ** backend/src/game/engine.ts *)
Module Engine.
Import JS.

Inductive FruitType :=
| cherry | strawberry | grape | persimmon | apple
| pear | peach | pineapple | melon | watermelon.

#[export] Instance FruitType_eq_dec : EqDecision FruitType.
Proof. solve_decision. Defined.

Definition FRUIT_SEQUENCE : list FruitType :=
  [cherry; strawberry; grape; persimmon; apple;
   pear; peach; pineapple; melon; watermelon].

Record FruitConfig := {
  cfg_type : FruitType;
  cfg_radius : float;
  cfg_points : Z;
}.

Definition FRUIT_CONFIGS (t : FruitType) : FruitConfig :=
  match t with
  | cherry     => {| cfg_type := cherry;     cfg_radius := 13; cfg_points := 2 |}
  | strawberry => {| cfg_type := strawberry; cfg_radius := 18; cfg_points := 3 |}
  | grape      => {| cfg_type := grape;      cfg_radius := 23; cfg_points := 6 |}
  | persimmon  => {| cfg_type := persimmon;  cfg_radius := 30; cfg_points := 10 |}
  | apple      => {| cfg_type := apple;      cfg_radius := 38; cfg_points := 15 |}
  | pear       => {| cfg_type := pear;       cfg_radius := 46; cfg_points := 21 |}
  | peach      => {| cfg_type := peach;      cfg_radius := 55; cfg_points := 28 |}
  | pineapple  => {| cfg_type := pineapple;  cfg_radius := 62; cfg_points := 37 |}
  | melon      => {| cfg_type := melon;      cfg_radius := 69; cfg_points := 47 |}
  | watermelon => {| cfg_type := watermelon; cfg_radius := 75; cfg_points := 58 |}
  end.

(** [FRUIT_SEQUENCE.indexOf(t)]; every type occurs, so -1 never arises. *)
Fixpoint indexOf_from (t : FruitType) (l : list FruitType) (i : nat) : option nat :=
  match l with
  | [] => None
  | u :: l' => if bool_decide (u = t) then Some i else indexOf_from t l' (S i)
  end.

Definition indexOf (t : FruitType) : option nat := indexOf_from t FRUIT_SEQUENCE 0.

(** [FRUIT_SEQUENCE[FRUIT_SEQUENCE.indexOf(t) + 1]]; [None] is [undefined]. *)
Definition nextType (t : FruitType) : option FruitType :=
  match indexOf t with
  | Some i => FRUIT_SEQUENCE !! (i + 1)%nat
  | None => None
  end.

(** The string a [FruitType] is. *)
Definition fruitName (t : FruitType) : string :=
  match t with
  | cherry => "cherry" | strawberry => "strawberry" | grape => "grape"
  | persimmon => "persimmon" | apple => "apple" | pear => "pear"
  | peach => "peach" | pineapple => "pineapple" | melon => "melon"
  | watermelon => "watermelon"
  end.

Definition DROPPABLE_FRUITS : list FruitType := take 5 FRUIT_SEQUENCE.

Definition INITIAL_SEQUENCE : list FruitType := [cherry; cherry; strawberry; grape].

Definition CONTAINER_WIDTH : float := 400.

Definition CONTAINER_HEIGHT : float := 650.

Definition DROP_ZONE_HEIGHT : float := 80.

Definition GAME_DURATION_MS : Z := 7 * 60 * 1000.

Definition MIN_DROP_INTERVAL_MS : Z := 500.

Definition GRAVITY : float := 0.5.

Definition FRICTION : float := 0x1.999999999999ap-4.   (* 0.1 *)

Definition RESTITUTION : float := 0x1.999999999999ap-4. (* 0.1 *)

Definition MULTIPLIER_MAX : Z := 8.

Definition MULTIPLIER_DECAY_MS : Z := 2000.

Definition OVERFLOW_ALARM_DURATION_MS : Z := 3400.

Definition DANGER_ZONE_Y : float := (DROP_ZONE_HEIGHT + 20)%float.

Record Fruit := {
  f_id : string;
  f_type : FruitType;
  f_x : float;
  f_y : float;
  f_vx : float;
  f_vy : float;
  f_radius : float;
  f_skinId : option string;
  f_dropTime : Z;
}.

(** A [GameInput]; its [type] is always ['drop']. *)
Record GameInput := {
  gi_x : float;
  gi_timestamp : float;
  gi_fruitType : option FruitType;
}.

Record MergeEvent := {
  fruit1Id : string;
  fruit2Id : string;
  resultFruitId : string;
  resultType : FruitType;
  points : Z;
  ev_multiplier : Z;
  position : float * float;
}.

Record FruitState := {
  fs_id : string;
  fs_type : FruitType;
  fs_x : float;
  fs_y : float;
  fs_angle : float;
  fs_skinId : option string;
}.

Record GameState := {
  gs_fruits : list FruitState;
  gs_score : Z;
  gs_nextFruit : FruitType;
  gs_queuedFruit : FruitType;
  gs_isGameOver : bool;
  gs_timeRemaining : Z;
  gs_multiplier : Z;
}.

(** The private fields of the class [GameEngine]. *)
Record GameEngine := {
  sessionId : string;
  fruits : list Fruit;
  score : Z;
  nextFruit : FruitType;
  queuedFruit : FruitType;
  isGameOver : bool;
  startTime : Z;
  lastDropTime : Z;
  dropCount : nat;
  inputHistory : list GameInput;
  multiplier : Z;
  lastMergeTime : Z;
  overflowStartTime : option Z;
  skinLoadout : FruitType -> option string;
}.

Definition with_fruits (fs : list Fruit) (e : GameEngine) : GameEngine :=
  {| sessionId := sessionId e; fruits := fs; score := score e;
     nextFruit := nextFruit e; queuedFruit := queuedFruit e;
     isGameOver := isGameOver e; startTime := startTime e;
     lastDropTime := lastDropTime e; dropCount := dropCount e;
     inputHistory := inputHistory e; multiplier := multiplier e;
     lastMergeTime := lastMergeTime e;
     overflowStartTime := overflowStartTime e; skinLoadout := skinLoadout e |}.

Definition with_isGameOver (b : bool) (e : GameEngine) : GameEngine :=
  {| sessionId := sessionId e; fruits := fruits e; score := score e;
     nextFruit := nextFruit e; queuedFruit := queuedFruit e;
     isGameOver := b; startTime := startTime e;
     lastDropTime := lastDropTime e; dropCount := dropCount e;
     inputHistory := inputHistory e; multiplier := multiplier e;
     lastMergeTime := lastMergeTime e;
     overflowStartTime := overflowStartTime e; skinLoadout := skinLoadout e |}.

Definition with_multiplier (m : Z) (e : GameEngine) : GameEngine :=
  {| sessionId := sessionId e; fruits := fruits e; score := score e;
     nextFruit := nextFruit e; queuedFruit := queuedFruit e;
     isGameOver := isGameOver e; startTime := startTime e;
     lastDropTime := lastDropTime e; dropCount := dropCount e;
     inputHistory := inputHistory e; multiplier := m;
     lastMergeTime := lastMergeTime e;
     overflowStartTime := overflowStartTime e; skinLoadout := skinLoadout e |}.

Definition with_overflowStartTime (o : option Z) (e : GameEngine) : GameEngine :=
  {| sessionId := sessionId e; fruits := fruits e; score := score e;
     nextFruit := nextFruit e; queuedFruit := queuedFruit e;
     isGameOver := isGameOver e; startTime := startTime e;
     lastDropTime := lastDropTime e; dropCount := dropCount e;
     inputHistory := inputHistory e; multiplier := multiplier e;
     lastMergeTime := lastMergeTime e;
     overflowStartTime := o; skinLoadout := skinLoadout e |}.

(** The three assignments of a merge: multiplier, merge clock and score. *)
Definition with_merge (m t s : Z) (e : GameEngine) : GameEngine :=
  {| sessionId := sessionId e; fruits := fruits e; score := s;
     nextFruit := nextFruit e; queuedFruit := queuedFruit e;
     isGameOver := isGameOver e; startTime := startTime e;
     lastDropTime := lastDropTime e; dropCount := dropCount e;
     inputHistory := inputHistory e; multiplier := m;
     lastMergeTime := t;
     overflowStartTime := overflowStartTime e; skinLoadout := skinLoadout e |}.

(** What one call reads from outside the engine: the successive values of
    [Date.now()], the value of [Math.random()], and the k-th identifier
    [uuidv4()] returns during the call. *)
Record Env := {
  date_now_1 : Z;
  date_now_2 : Z;
  math_random : float;
  uuidv4 : nat -> string;
}.

Definition getRandomDroppableFruit (r : float) : FruitType :=
  let k := Math_floor (r * of_Z (Z.of_nat (length DROPPABLE_FRUITS)))%float in
  (* Math.random() lies in [0, 1), so the index is one of 0..4 and the
     default is never taken. *)
  default cherry (to_index k ≫= λ i, DROPPABLE_FRUITS !! i).

(** [getNextFromSequence], reading [this.dropCount] as [dropCount]. *)
Definition getNextFromSequence (r : float) (dropCount : nat) : FruitType :=
  let idx := (dropCount + 1)%nat in
  match INITIAL_SEQUENCE !! idx with
  | Some t => t
  | None => getRandomDroppableFruit r
  end.

(** [new GameEngine(sessionId, skinLoadout)]; [loadout t] is the
    [<t>SkinId] property of the loadout row, if a row was passed. *)
Definition new_GameEngine (env : Env) (sid : string)
    (loadout : option (FruitType -> option string)) : GameEngine :=
  {| sessionId := sid; fruits := []; score := 0;
     nextFruit := default cherry (INITIAL_SEQUENCE !! 0%nat);
     queuedFruit := match INITIAL_SEQUENCE !! 1%nat with
                    | Some t => t
                    | None => getRandomDroppableFruit (math_random env)
                    end;
     isGameOver := false; startTime := date_now_1 env; lastDropTime := 0;
     dropCount := 0; inputHistory := []; multiplier := 1;
     lastMergeTime := 0; overflowStartTime := None;
     skinLoadout := match loadout with
                    | Some l => λ t, str_or_none (l t)
                    | None => λ _, None
                    end |}.

(** The body of the first inner loop: gravity, damping, integration and
    the three wall tests, on one fruit. *)
Definition integrate (f : Fruit) : Fruit :=
  let vy := (f_vy f + GRAVITY)%float in
  let vx := (f_vx f * (1 - FRICTION))%float in
  let vy := (vy * (1 - FRICTION))%float in
  let x := (f_x f + vx)%float in
  let y := (f_y f + vy)%float in
  let r := f_radius f in
  let '(x, vx) := if (x - r <? 0)%float
                  then (r, (- vx * RESTITUTION)%float) else (x, vx) in
  let '(x, vx) := if (CONTAINER_WIDTH <? x + r)%float
                  then ((CONTAINER_WIDTH - r)%float, (- vx * RESTITUTION)%float)
                  else (x, vx) in
  let '(y, vy) := if (CONTAINER_HEIGHT <? y + r)%float
                  then ((CONTAINER_HEIGHT - r)%float, (- vy * RESTITUTION)%float)
                  else (y, vy) in
  {| f_id := f_id f; f_type := f_type f; f_x := x; f_y := y;
     f_vx := vx; f_vy := vy; f_radius := r; f_skinId := f_skinId f;
     f_dropTime := f_dropTime f |}.

Definition with_motion (x y vx vy : float) (f : Fruit) : Fruit :=
  {| f_id := f_id f; f_type := f_type f; f_x := x; f_y := y;
     f_vx := vx; f_vy := vy; f_radius := f_radius f;
     f_skinId := f_skinId f; f_dropTime := f_dropTime f |}.

(** [resolveCollision]: the two fruits after the positional correction and
    the impulse. *)
Definition resolveCollision (fruitA fruitB : Fruit)
    (dx dy distance minDist : float) : Fruit * Fruit :=
  let overlap := (minDist - distance)%float in
  let nx := (dx / or_else distance 1)%float in
  let ny := (dy / or_else distance 1)%float in
  let ax := (f_x fruitA - (overlap / 2) * nx)%float in
  let ay := (f_y fruitA - (overlap / 2) * ny)%float in
  let bx := (f_x fruitB + (overlap / 2) * nx)%float in
  let by_ := (f_y fruitB + (overlap / 2) * ny)%float in
  let relVelX := (f_vx fruitB - f_vx fruitA)%float in
  let relVelY := (f_vy fruitB - f_vy fruitA)%float in
  let relVelDotNormal := (relVelX * nx + relVelY * ny)%float in
  if (relVelDotNormal <? 0)%float then
    let impulse := (relVelDotNormal * RESTITUTION)%float in
    (with_motion ax ay (f_vx fruitA + impulse * nx)%float
                       (f_vy fruitA + impulse * ny)%float fruitA,
     with_motion bx by_ (f_vx fruitB - impulse * nx)%float
                        (f_vy fruitB - impulse * ny)%float fruitB)
  else
    (with_motion ax ay (f_vx fruitA) (f_vy fruitA) fruitA,
     with_motion bx by_ (f_vx fruitB) (f_vy fruitB) fruitB).

Definition INVINCIBILITY_MS : Z := 1500.

(** The state of one pairwise scan: the engine (whose fruits are updated in
    place), the locals [toRemove] and [toAdd], the events pushed so far and
    the number of identifiers drawn so far. *)
Record Scan := {
  eng : GameEngine;
  toRemove : gset string;
  toAdd : list Fruit;
  mergeEvents : list MergeEvent;
  uuids : nat;
}.

Definition overlapping (fruitA fruitB : Fruit) : bool :=
  let dx := (f_x fruitB - f_x fruitA)%float in
  let dy := (f_y fruitB - f_y fruitA)%float in
  let distance := Math_sqrt (dx * dx + dy * dy)%float in
  let minDist := (f_radius fruitA + f_radius fruitB)%float in
  (distance <? minDist)%float.

(** The [resolveCollision] call of the scan, written back at indices a, b. *)
Definition collide (s : Scan) (a b : nat) (fruitA fruitB : Fruit) : Scan :=
  let dx := (f_x fruitB - f_x fruitA)%float in
  let dy := (f_y fruitB - f_y fruitA)%float in
  let distance := Math_sqrt (dx * dx + dy * dy)%float in
  let minDist := (f_radius fruitA + f_radius fruitB)%float in
  let '(fa, fb) := resolveCollision fruitA fruitB dx dy distance minDist in
  {| eng := with_fruits (<[b := fb]> (<[a := fa]> (fruits (eng s)))) (eng s);
     toRemove := toRemove s; toAdd := toAdd s;
     mergeEvents := mergeEvents s; uuids := uuids s |}.

(** The merge branch, for the successor type [nt]. *)
Definition merge (env : Env) (now : Z) (s : Scan) (fruitA fruitB : Fruit)
    (nt : FruitType) : Scan :=
  let e := eng s in
  let nextConfig := FRUIT_CONFIGS nt in
  let mergeX := ((f_x fruitA + f_x fruitB) / 2)%float in
  let mergeY := ((f_y fruitA + f_y fruitB) / 2)%float in
  let m := Z.min (multiplier e + 1) MULTIPLIER_MAX in
  let pts := (2 * cfg_points nextConfig) * m in
  let newFruit :=
    {| f_id := uuidv4 env (uuids s); f_type := nt;
       f_x := mergeX; f_y := mergeY;
       f_vx := ((f_vx fruitA + f_vx fruitB) / 2)%float;
       f_vy := ((f_vy fruitA + f_vy fruitB) / 2)%float;
       f_radius := cfg_radius nextConfig;
       f_skinId := str_or_none (skinLoadout e nt);
       f_dropTime := now |} in
  let ev :=
    {| fruit1Id := f_id fruitA; fruit2Id := f_id fruitB;
       resultFruitId := f_id newFruit; resultType := nt;
       points := pts; ev_multiplier := m;
       position := (mergeX, mergeY) |} in
  {| eng := with_merge m now (score e + pts) e;
     toRemove := {[ f_id fruitA ]} ∪ ({[ f_id fruitB ]} ∪ toRemove s);
     toAdd := toAdd s ++ [newFruit];
     mergeEvents := mergeEvents s ++ [ev];
     uuids := S (uuids s) |}.

(** The body of the pairwise scan at indices (a, b). *)
Definition pairStep (env : Env) (now : Z) (s : Scan) (ab : nat * nat) : Scan :=
  let '(a, b) := ab in
  match fruits (eng s) !! a, fruits (eng s) !! b with
  | Some fruitA, Some fruitB =>
      if bool_decide (f_id fruitA ∈ toRemove s)
         || bool_decide (f_id fruitB ∈ toRemove s) then s
      else if overlapping fruitA fruitB then
        if bool_decide (f_type fruitA = f_type fruitB)
           && negb (bool_decide (f_type fruitA = watermelon)) then
          let aAge := now - f_dropTime fruitA in
          let bAge := now - f_dropTime fruitB in
          if (aAge <? INVINCIBILITY_MS) || (bAge <? INVINCIBILITY_MS) then
            collide s a b fruitA fruitB
          else
            match nextType (f_type fruitA) with
            | Some nt => merge env now s fruitA fruitB nt
            | None => s (* not reached: only watermelon has no successor *)
            end
        else collide s a b fruitA fruitB
      else s
  | _, _ => s (* not reached: a < b < fruits.length *)
  end.

(** The index pairs (a, b), a < b < n, in the order the loops visit them. *)
Definition pairs (n : nat) : list (nat * nat) :=
  a ← seq 0 n; b ← seq (a + 1) (n - (a + 1)); [(a, b)].

(** One of the ten iterations. *)
Definition iteration (env : Env) (now : Z)
    (st : GameEngine * list MergeEvent * nat) : GameEngine * list MergeEvent * nat :=
  let '(e, evs, k) := st in
  let e1 := with_fruits (map integrate (fruits e)) e in
  let s := fold_left (pairStep env now) (pairs (length (fruits e1)))
             {| eng := e1; toRemove := ∅; toAdd := [];
                mergeEvents := evs; uuids := k |} in
  (with_fruits
     (filter (λ f, f_id f ∉ toRemove s) (fruits (eng s)) ++ toAdd s) (eng s),
   mergeEvents s, uuids s).

Definition iterations : nat := 10.

(** [simulatePhysics(now)], started with [k] identifiers already drawn. *)
Definition simulatePhysics (env : Env) (now : Z) (e : GameEngine) (k : nat)
    : GameEngine * list MergeEvent * nat :=
  Nat.iter iterations (iteration env now) (e, [], k).

(** *** checkOverflow *)
Definition inDanger (f : Fruit) : bool :=
  (f_y f - f_radius f <? DANGER_ZONE_Y)%float && (Math_abs (f_vy f) <? 1)%float.

Definition hasOverflow (e : GameEngine) : bool := existsb inDanger (fruits e).

Definition checkOverflow (now : Z) (e : GameEngine) : GameEngine :=
  if hasOverflow e then
    match overflowStartTime e with
    | None => with_overflowStartTime (Some now) e
    | Some t0 =>
        if OVERFLOW_ALARM_DURATION_MS <=? now - t0 then with_isGameOver true e
        else e
    end
  else with_overflowStartTime None e.

(** *** processInput *)
Inductive InputResult :=
| Failure (error : string)
| Success (events : list MergeEvent).

Definition decay (now : Z) (e : GameEngine) : GameEngine :=
  if (1 <? multiplier e) && (MULTIPLIER_DECAY_MS <? now - lastMergeTime e)
  then with_multiplier 1 e else e.

(** The accepted drop of [processInput], up to the physics: the clamped
    spawn position, the push on the input history, the new fruit, the drop
    clock and counter, and the advance of the queue. *)
Definition spawn (env : Env) (input : GameInput) (now : Z) (e : GameEngine)
    : GameEngine :=
  let config := FRUIT_CONFIGS (nextFruit e) in
  let minX := cfg_radius config in
  let maxX := (CONTAINER_WIDTH - cfg_radius config)%float in
  let dropX := Math_max minX (Math_min maxX (gi_x input * CONTAINER_WIDTH)%float) in
  let newFruit :=
    {| f_id := uuidv4 env 0; f_type := nextFruit e;
       f_x := dropX; f_y := DROP_ZONE_HEIGHT; f_vx := 0; f_vy := 0;
       f_radius := cfg_radius config;
       f_skinId := str_or_none (skinLoadout e (nextFruit e));
       f_dropTime := now |} in
  {| sessionId := sessionId e;
     fruits := fruits e ++ [newFruit];
     score := score e;
     nextFruit := queuedFruit e;
     queuedFruit := getNextFromSequence (math_random env) (S (dropCount e));
     isGameOver := isGameOver e;
     startTime := startTime e;
     lastDropTime := now;
     dropCount := S (dropCount e);
     inputHistory :=
       inputHistory e ++
         [{| gi_x := gi_x input; gi_timestamp := gi_timestamp input;
             gi_fruitType := Some (nextFruit e) |}];
     multiplier := multiplier e;
     lastMergeTime := lastMergeTime e;
     overflowStartTime := overflowStartTime e;
     skinLoadout := skinLoadout e |}.

Definition processInput (env : Env) (input : GameInput) (e : GameEngine)
    : GameEngine * InputResult :=
  if isGameOver e then (e, Failure "Game is already over")
  else
    let elapsed := date_now_1 env - startTime e in
    if GAME_DURATION_MS <=? elapsed then
      (with_isGameOver true e, Failure "Game time expired")
    else
      let now := date_now_2 env in
      if now - lastDropTime e <? MIN_DROP_INTERVAL_MS then
        (e, Failure "Dropping too fast")
      else
        let e := decay now e in
        let e := spawn env input now e in
        let st := simulatePhysics env now e 1 in
        (checkOverflow now st.1.1, Success st.1.2).

(** *** getState *)
Definition getState (env : Env) (e : GameEngine) : GameEngine * GameState :=
  let elapsed := date_now_1 env - startTime e in
  let timeRemaining := Z.max 0 (GAME_DURATION_MS - elapsed) in
  let now := date_now_2 env in
  let e := decay now e in
  (e,
   {| gs_fruits :=
        map (λ f, {| fs_id := f_id f; fs_type := f_type f; fs_x := f_x f;
                     fs_y := f_y f; fs_angle := 0; fs_skinId := f_skinId f |})
            (fruits e);
      gs_score := score e;
      gs_nextFruit := nextFruit e;
      gs_queuedFruit := queuedFruit e;
      gs_isGameOver := isGameOver e || (timeRemaining <=? 0);
      gs_timeRemaining := timeRemaining;
      gs_multiplier := multiplier e |}).

Definition getInputHistory (e : GameEngine) : list GameInput := inputHistory e.

Definition getSessionId (e : GameEngine) : string := sessionId e.

Definition getIsGameOver (e : GameEngine) : bool := isGameOver e.

#[global] Arguments simulatePhysics : simpl never.

#[global] Arguments processInput : simpl never.

#[global] Arguments checkOverflow : simpl never.

#[global] Arguments spawn : simpl never.

#[global] Arguments decay : simpl never.

#[global] Arguments pairStep : simpl never.

(** *** Predicates the properties are stated with *)

(** *** The score ledger of a list of merge events

    [Awarded m s evs m' s']: starting from multiplier [m] and score [s],
    the events [evs], in order, each raise the multiplier by one up to the
    cap, each award twice the point value of the resulting tier times the
    raised multiplier, and leave the multiplier at [m'] and the score at
    [s']. *)
Inductive Awarded : Z -> Z -> list MergeEvent -> Z -> Z -> Prop :=
| Awarded_nil m s : Awarded m s [] m s
| Awarded_cons m s ev evs m' s' :
    ev_multiplier ev = Z.min (m + 1) MULTIPLIER_MAX ->
    points ev = 2 * cfg_points (FRUIT_CONFIGS (resultType ev)) * ev_multiplier ev ->
    Awarded (ev_multiplier ev) (s + points ev) evs m' s' ->
    Awarded m s (ev :: evs) m' s'.

(** Successive overflow checks, each on the fruits the simulation left. *)
Definition check (e : GameEngine) (c : Z * list Fruit) : GameEngine :=
  checkOverflow c.1 (with_fruits c.2 e).

Definition checks (cs : list (Z * list Fruit)) (e : GameEngine) : GameEngine :=
  fold_left check cs e.

(** The scan only ever changes the multiplier, the score and the events
    through a merge. *)
Definition scan_ledger (m0 s0 : Z) (s : Scan) : Prop :=
  Awarded m0 s0 (mergeEvents s) (multiplier (eng s)) (score (eng s)).

(** A fruit inside its grace window at the time of the step. *)
Definition young (now : Z) (f : Fruit) : Prop :=
  now - f_dropTime f < INVINCIBILITY_MS.

(** While every fruit is inside its grace window the scan merges nothing. *)
Definition quiet (now : Z) (evs : list MergeEvent) (n : nat) (sc : Z) (s : Scan) : Prop :=
  Forall (young now) (fruits (eng s)) /\ mergeEvents s = evs /\
  toRemove s = ∅ /\ toAdd s = [] /\
  length (fruits (eng s)) = n /\ score (eng s) = sc.

(** Two engine states with the same terminal flag, overflow timer and
    start time: what the physics never touches. *)
Definition same_flags (e e' : GameEngine) : Prop :=
  isGameOver e' = isGameOver e /\ overflowStartTime e' = overflowStartTime e /\
  startTime e' = startTime e.

(** A run of calls of [processInput], each with what it reads from outside. *)
Definition step (e : GameEngine) (call : Env * GameInput) : GameEngine :=
  (processInput call.1 call.2 e).1.

Definition run (calls : list (Env * GameInput)) (e : GameEngine) : GameEngine :=
  fold_left step calls e.

Definition dangerous (c : Z * list Fruit) : Prop := existsb inDanger c.2 = true.

(** The timer value [t0] is the time of a check of [cs] that found a fruit
    in danger, and so did every later check of [cs]. *)
Definition armed_since (cs : list (Z * list Fruit)) (t0 : Z) : Prop :=
  exists pre fs0 mid,
    cs = pre ++ (t0, fs0) :: mid /\ dangerous (t0, fs0) /\ Forall dangerous mid.

(** [cs] contains a run of consecutive checks, all in danger, whose last
    comes at least OVERFLOW_ALARM_DURATION_MS after its first. *)
Definition tripped (cs : list (Z * list Fruit)) : Prop :=
  exists pre t0 fs0 mid t1 fs1 post,
    cs = pre ++ (t0, fs0) :: mid ++ (t1, fs1) :: post /\
    dangerous (t0, fs0) /\ Forall dangerous mid /\ dangerous (t1, fs1) /\
    OVERFLOW_ALARM_DURATION_MS <= t1 - t0.

(** What the physics and the overflow check never touch: the identity of
    the session, the spawn queue, the drop clock and counter, the input
    history and the skins. *)
Definition same_log (e e' : GameEngine) : Prop :=
  sessionId e' = sessionId e /\ nextFruit e' = nextFruit e /\
  queuedFruit e' = queuedFruit e /\ lastDropTime e' = lastDropTime e /\
  dropCount e' = dropCount e /\ inputHistory e' = inputHistory e /\
  skinLoadout e' = skinLoadout e.

(** The entry an accepted drop pushes on the input history: the input,
    its [fruitType] overwritten with the tier that is dropped. *)
Definition logged (input : GameInput) (e : GameEngine) : GameInput :=
  {| gi_x := gi_x input; gi_timestamp := gi_timestamp input;
     gi_fruitType := Some (nextFruit e) |}.

(** The spawn queue and the input history follow the scripted opening:
    the counter is the length of the history, the next and the queued tier
    are the entries of INITIAL_SEQUENCE at the counter and after it while
    there are such entries, and so are the tiers logged so far. *)
Definition scripted (e : GameEngine) : Prop :=
  dropCount e = length (inputHistory e) /\
  (forall t, INITIAL_SEQUENCE !! dropCount e = Some t -> nextFruit e = t) /\
  (forall t, INITIAL_SEQUENCE !! S (dropCount e) = Some t -> queuedFruit e = t) /\
  (forall i inp, inputHistory e !! i = Some inp ->
     (i < length INITIAL_SEQUENCE)%nat -> INITIAL_SEQUENCE !! i = gi_fruitType inp).

(** The number of the identifiers [l] that are marked for removal. *)
Definition marked (R : gset string) (l : list string) : nat :=
  length (filter (fun i => i ∈ R) l).

(** The bookkeeping of one pairwise scan that started with the events
    [evs0], with [k0] identifiers drawn and with fruits of identifiers [I]:
    the identifiers stay in place, every merge pushes one event, draws one
    identifier for the one fruit it queues, and marks two fruits out of at
    most two identifiers. *)
Definition tally (env : Env) (evs0 : list MergeEvent) (k0 : nat) (I : list string)
    (s : Scan) : Prop :=
  map f_id (fruits (eng s)) = I /\
  length (mergeEvents s) = (length evs0 + length (toAdd s))%nat /\
  uuids s = (k0 + length (toAdd s))%nat /\
  map f_id (toAdd s) = map (uuidv4 env) (seq k0 (length (toAdd s))) /\
  (2 * length (toAdd s) <= marked (toRemove s) I)%nat /\
  (size (toRemove s) <= 2 * length (toAdd s))%nat.

(** The identifiers of the fruits are pairwise distinct, and none of those
    [uuidv4()] has still to return, from the [k]-th on, is in use. *)
Definition fresh_ids (env : Env) (k : nat) (e : GameEngine) : Prop :=
  NoDup (map f_id (fruits e)) /\
  forall j, (k <= j)%nat -> uuidv4 env j ∉ map f_id (fruits e).

(** A fruit as the engine makes them: it has the radius of its tier and
    wears the skin the loadout [sk] holds for its tier. *)
Definition dressed (sk : FruitType -> option string) (f : Fruit) : Prop :=
  f_radius f = cfg_radius (FRUIT_CONFIGS (f_type f)) /\
  f_skinId f = str_or_none (sk (f_type f)).

Definition scan_dressed (sk : FruitType -> option string) (s : Scan) : Prop :=
  skinLoadout (eng s) = sk /\ Forall (dressed sk) (fruits (eng s)) /\
  Forall (dressed sk) (toAdd s).


(** *** Sample data *)

(** Two settled cherries side by side on the floor, dropped at time 0. *)
Definition cherry_at (i : string) (x0 : float) : Fruit :=
  {| f_id := i; f_type := cherry; f_x := x0; f_y := 637; f_vx := 0; f_vy := 0;
     f_radius := 13; f_skinId := None; f_dropTime := 0 |}.

Definition demo_env (t : Z) : Env :=
  {| date_now_1 := t; date_now_2 := t; math_random := 0.5;
     uuidv4 := fun k => String.append "u" (pretty k) |}.

Definition demo_engine : GameEngine :=
  with_fruits [cherry_at "a" 200; cherry_at "b" 210]
    (new_GameEngine (demo_env 0) "s" None).

Definition demo_scan : Scan :=
  {| eng := demo_engine; toRemove := ∅; toAdd := []; mergeEvents := []; uuids := 0 |}.

(** A cherry resting with its top edge above the danger line: checks at
    0, 1000 and 3399 ms leave the session live, a further check at 3400 ms
    ends it. *)
Definition stuck_cherry : Fruit :=
  {| f_id := "c"; f_type := cherry; f_x := 200; f_y := 90; f_vx := 0; f_vy := 0;
     f_radius := 13; f_skinId := None; f_dropTime := 0 |}.

(** A drop in the middle of the container. *)
Definition demo_input : GameInput :=
  {| gi_x := 0.5; gi_timestamp := 0; gi_fruitType := None |}.

(** The demo engine, its session ended. *)
Definition over_engine : GameEngine := with_isGameOver true demo_engine.


End Engine.

(** ** backend/src/services/replay.ts *)
Module Replay.
Import JS.

(** A primitive JavaScript value, as a property of an input holds it;
    [PUndefined] also stands for an absent property. *)
Inductive Prim :=
| PUndefined
| PNull
| PBool (b : bool)
| PNum (n : float)
| PStr (s : string).

(** An element of an input log as the functions of this file meet it at
    run time: the four properties they read. *)
Record RawInput := {
  r_type : Prim;
  r_x : Prim;
  r_timestamp : Prim;
  r_fruitType : Prim;
}.

(** The interface [GameInput] of this file; [type] is ['drop']. *)
Record GameInput := {
  x : float;
  timestamp : float;
  fruitType : option string;
}.

Definition raw (i : GameInput) : RawInput :=
  {| r_type := PStr "drop";
     r_x := PNum (x i);
     r_timestamp := PNum (timestamp i);
     r_fruitType := match fruitType i with Some s => PStr s | None => PUndefined end |}.

(** What a property value is after [JSON.parse(JSON.stringify(...))]: a
    number that is not finite has become [null], -0 has become 0, an
    undefined property stays absent, everything else is kept. *)
Definition json_prim (p : Prim) : Prim :=
  match p with
  | PNum n => if is_finite n then (if is_zero n then PNum 0 else PNum n) else PNull
  | _ => p
  end.

Definition json_input (i : RawInput) : RawInput :=
  {| r_type := json_prim (r_type i); r_x := json_prim (r_x i);
     r_timestamp := json_prim (r_timestamp i);
     r_fruitType := json_prim (r_fruitType i) |}.

(** The platform the file runs on: [JSON], [Buffer], [zlib], [crypto] and
    number formatting, with the part of their contracts the file relies on.
    [Text] is the type of the strings that hold JSON documents, [Digest]
    that of hexadecimal digests. *)
Class Platform := {
  Text : Type;
  Buffer : Type;
  Digest : Type;
  Digest_eq_dec :: EqDecision Digest;
  JSON_stringify : list RawInput -> Text;
  JSON_parse : Text -> option (list RawInput);
  Buffer_from_utf8 : Text -> Buffer;
  Buffer_toString_utf8 : Buffer -> Text;
  gzipSync : Buffer -> Buffer;
  gunzipSync : Buffer -> option Buffer;
  sha256_hex : Text -> Digest;
  Number_toString : float -> string;
  StringToNumber : string -> float;
  JSON_parse_stringify :
    forall l, JSON_parse (JSON_stringify l) = Some (map json_input l);
  JSON_stringify_json :
    forall l, JSON_stringify (map json_input l) = JSON_stringify l;
  toString_from_utf8 :
    forall l, Buffer_toString_utf8 (Buffer_from_utf8 (JSON_stringify l))
              = JSON_stringify l;
  gunzip_gzip : forall b, gunzipSync (gzipSync b) = Some b;
}.

Section Codec.

Context {P : Platform}.

(** ToNumber, applied by [*] to the property [x]. *)
Definition ToNumber (p : Prim) : float :=
  match p with
  | PUndefined => nan
  | PNull => 0
  | PBool b => if b then 1 else 0
  | PNum n => n
  | PStr s => StringToNumber s
  end.

Definition compressReplay (inputs : list RawInput) : Buffer :=
  let jsonString := JSON_stringify inputs in
  gzipSync (Buffer_from_utf8 jsonString).

(** [None]: [gunzipSync] or [JSON.parse] threw. *)
Definition decompressReplay (data : Buffer) : option (list RawInput) :=
  match gunzipSync data with
  | Some b => JSON_parse (Buffer_toString_utf8 b)
  | None => None
  end.

Definition normalize (input : RawInput) : RawInput :=
  {| r_type := r_type input;
     r_x := PNum (Math_round (ToNumber (r_x input) * 1000) / 1000)%float;
     r_timestamp := r_timestamp input;
     r_fruitType := r_fruitType input |}.

Definition hashInputs (inputs : list RawInput) : Digest :=
  let normalized := map normalize inputs in
  let jsonString := JSON_stringify normalized in
  sha256_hex jsonString.

Definition verifyReplayIntegrity (data : Buffer) (expectedHash : Digest) : bool :=
  match decompressReplay data with
  | Some inputs => bool_decide (hashInputs inputs = expectedHash)
  | None => false
  end.

(** *** analyzeReplay *)
Record Analysis := {
  suspicionScore : Z;
  flags : list string;
}.

(** [inputs[i].timestamp - inputs[i - 1].timestamp] for i = 1, 2, ... *)
Fixpoint intervals_of (inputs : list GameInput) : list float :=
  match inputs with
  | a :: (b :: _) as rest => (timestamp b - timestamp a)%float :: intervals_of rest
  | _ => []
  end.

Definition minInterval : float := 500.

(** Check 1, one turn of the loop. *)
Definition rapid (acc : Z * list string) (interval : float) : Z * list string :=
  if (interval <? minInterval)%float then
    (acc.1 + 10,
     acc.2 ++ [String.append "Rapid inputs detected ("
                 (String.append (Number_toString interval) "ms interval)")])
  else acc.

Definition sum (l : list float) : float := fold_left PrimFloat.add l 0%float.

Definition stdDev_of (intervals : list float) : float :=
  let n := of_Z (Z.of_nat (length intervals)) in
  let avgInterval := (sum intervals / n)%float in
  let variance :=
    (fold_left (fun sum val => (sum + Math_pow2 (val - avgInterval))%float)
               intervals 0 / n)%float in
  Math_sqrt variance.

(** [new Set(...)]: insertion order, SameValueZero. *)
Definition Set_add (s : list float) (v : float) : list float :=
  if existsb (SameValueZero v) s then s else s ++ [v].

Definition Set_of (l : list float) : list float := fold_left Set_add l [].

Definition analyzeReplay (inputs : list GameInput) : Analysis :=
  if (length inputs =? 0)%nat then
    {| suspicionScore := 0; flags := ["No inputs recorded"%string] |}
  else
    (* Check 1 *)
    let acc := fold_left rapid (intervals_of inputs) (0, []) in
    (* Check 2 *)
    let acc :=
      if (5 <? length inputs)%nat then
        let intervals := intervals_of inputs in
        let stdDev := stdDev_of intervals in
        if (stdDev <? 50)%float && (10 <? length intervals)%nat then
          (acc.1 + 30, acc.2 ++ ["Suspiciously regular timing pattern"%string])
        else acc
      else acc in
    (* Check 3 *)
    let xPositions := map x inputs in
    let uniquePositions :=
      length (Set_of (map (fun x => Math_round (x * 100)%float) xPositions)) in
    let acc :=
      if (10 <? length inputs)%nat && (uniquePositions <? 3)%nat then
        (acc.1 + 20, acc.2 ++ ["Limited position variety"%string])
      else acc in
    (* Check 4 *)
    let acc :=
      if (0 <? length inputs)%nat then
        let gameDuration :=
          (match last inputs, head inputs with
           | Some l, Some h => timestamp l - timestamp h
           | _, _ => nan
           end)%float in
        let expectedMinDuration :=
          (of_Z (Z.of_nat (length inputs)) * minInterval)%float in
        if (gameDuration <? expectedMinDuration * 0.5)%float then
          (acc.1 + 25, acc.2 ++ ["Game duration too short for input count"%string])
        else acc
      else acc in
    {| suspicionScore := Z.min 100 acc.1; flags := acc.2 |}.

Definition shouldFlagForReview (analysis : Analysis) : bool :=
  50 <=? suspicionScore analysis.

(** *** Predicates the properties are stated with *)

(** An entry whose [x] is a finite number. *)
Definition finite_x (r : RawInput) : Prop :=
  exists n, r_x r = PNum n /\ is_finite n = true.

(** The number of intervals check 1 counts as too short. *)
Definition rapid_count (intervals : list float) : nat :=
  length (filter (fun d => (d <? minInterval)%float = true) intervals).

(** Every flag raised costs between 10 and 30 points. *)
Definition priced (acc : Z * list string) : Prop :=
  10 * Z.of_nat (length acc.2) <= acc.1 <= 30 * Z.of_nat (length acc.2).

(** The flags check 1 and check 4 raise. *)
Definition timing_flag (fl : string) : Prop :=
  fl = "Game duration too short for input count"%string \/
  exists d, fl = String.append "Rapid inputs detected ("
                   (String.append (Number_toString d) "ms interval)").

End Codec.

(** Leibniz equality of binary64 numbers is decidable. *)
#[export] Instance float_eq_dec : EqDecision float.
Proof.
  intros a b. destruct (Leibniz.eqb a b) eqn:E; [left|right].
  - apply Leibniz.eqb_spec, E.
  - intros H. apply Leibniz.eqb_spec in H. congruence.
Defined.

#[export] Instance Prim_eq_dec : EqDecision Prim.
Proof. solve_decision. Defined.

#[export] Instance RawInput_eq_dec : EqDecision RawInput.
Proof. solve_decision. Defined.

(** *** An ideal platform

    Texts are identified with the JSON document they denote, buffers with
    what they hold, and a digest with the text digested: a platform on
    which compression and the JSON round trip are lossless as the contracts
    say, and the hash has no collisions.  Numbers that are integers print
    in decimal; the other finite ones print as an exact binary fraction,
    which no property below depends on. *)
Inductive IdealBuffer :=
| Utf8 (t : list RawInput)
| Gzip (b : IdealBuffer).

Definition ideal_Number_toString (n : float) : string :=
  match Prim2SF n with
  | S754_zero _ => "0"
  | S754_infinity s => if s then "-Infinity" else "Infinity"
  | S754_nan => "NaN"
  | S754_finite s m e =>
      let sign := if s then "-"%string else ""%string in
      if 0 <=? e then String.append sign (pretty (Z.pos m * Z.pow 2 e))
      else if Z.pos m mod Z.pow 2 (- e) =? 0
           then String.append sign (pretty (Z.pos m / Z.pow 2 (- e)))
           else String.append sign
                  (String.append (pretty (Z.pos m))
                     (String.append "/2^" (pretty (- e))))
  end.

#[export] Program Instance Ideal : Platform := {|
  Text := list RawInput;
  Buffer := IdealBuffer;
  Digest := list RawInput;
  JSON_stringify l := map json_input l;
  JSON_parse t := Some t;
  Buffer_from_utf8 t := Utf8 t;
  Buffer_toString_utf8 b := match b with Utf8 t => t | Gzip _ => [] end;
  gzipSync b := Gzip b;
  gunzipSync b := match b with Gzip b' => Some b' | Utf8 _ => None end;
  sha256_hex t := t;
  Number_toString := ideal_Number_toString;
  StringToNumber _ := nan;
  JSON_parse_stringify l := eq_refl;
  JSON_stringify_json := _;
  toString_from_utf8 l := eq_refl;
  gunzip_gzip b := eq_refl;
|}.
Next Obligation.
  intros l. induction l as [|[t0 x0 ts ft] l IH]; simpl; [reflexivity|].
  rewrite IH. f_equal. unfold json_input. simpl.
  assert (I : forall p, json_prim (json_prim p) = json_prim p).
  { intros [| |b|n|s0]; try reflexivity. simpl.
    destruct (is_finite n) eqn:F; [|reflexivity].
    destruct (is_zero n) eqn:Z; simpl; [reflexivity|]. rewrite F, Z. reflexivity. }
  rewrite !I. reflexivity.
Qed.

(** *** Sample data *)

(** A log of three drops with finite coordinates, among them -0. *)
Definition demo_log : list GameInput :=
  [{| x := 0.5; timestamp := 1000; fruitType := Some "cherry"%string |};
   {| x := (-0)%float; timestamp := 1600; fruitType := Some "cherry"%string |};
   {| x := 0x1.5555555555555p-2; timestamp := 2300; fruitType := None |}].

(** Twenty drops at 0, 100, ..., 1900 ms, all at x = 0.5. *)
Definition bot_log : list GameInput :=
  map (fun k => {| x := 0.5; timestamp := of_Z (100 * Z.of_nat k); fruitType := None |})
      (seq 0 20).

End Replay.

(** ** backend/src/routes/game.ts: endGameSession *)
Module Host.
Import Engine Replay.

Inductive Reason := timeout | gameover | manual.

Section Session.

Context {P : Platform}.

(** Modelled from the spec: the persistence store behind [prisma], whose
    schema is not among the sources.  It holds the session records and the
    user statistics that [endGameSession] reads and updates, the per-day and
    per-week best scores it upserts, and, in [journal], every write issued,
    in order. *)
Record SessionRow := {
  userId : string;
  walletAddress : string;
  endTime : option Z;
  finalScore : option Z;
  replayData : option Buffer;
  inputsHash : option Digest;
}.

Record UserRow := {
  totalPoints : Z;
  gamesPlayed : Z;
  highScore : Z;
}.

Record ScoreRow := {
  sr_userId : string;
  sr_score : Z;
  sr_gameSessionId : string;
}.

Inductive Write :=
| gameSession_update (id : string) (endTime finalScore : Z)
    (replayData : Buffer) (inputsHash : Digest)
| user_update (id : string) (totalPoints_increment gamesPlayed_increment highScore : Z)
| dailyScore_upsert (walletAddress : string) (date score : Z) (gameSessionId : string)
| weeklyScore_upsert (walletAddress : string) (weekStart score : Z) (gameSessionId : string).

Record Store := {
  gameSession : gmap string SessionRow;
  user : gmap string UserRow;
  dailyScore : gmap (string * Z) ScoreRow;
  weeklyScore : gmap (string * Z) ScoreRow;
  journal : list Write;
}.

(** The module state: the map of live engines and the store. *)
Record State := {
  activeSessions : gmap string GameEngine;
  prisma : Store;
}.

(** What one call of [endGameSession] reads from the clock: the two
    [Date.now()] of [getState] and the two [new Date()]. *)
Record Clock := {
  engine_env : Env;
  new_Date_1 : Z;
  new_Date_2 : Z;
}.

Record EndData := {
  d_finalScore : Z;
  d_totalPoints : Z;
  d_isNewHighScore : bool;
  d_reason : Reason;
}.

Inductive EndResult :=
| EndFailure (error : string)
| EndSuccess (data : EndData)
| Threw.   (* a rejected promise: prisma found no record to update *)

Definition msPerDay : Z := 86400000.

(** [today.setUTCHours(0, 0, 0, 0)] *)
Definition utc_midnight (t : Z) : Z := t / msPerDay * msPerDay.

(** [getUTCDay()]: 0 is Sunday; 1 January 1970 was a Thursday. *)
Definition getUTCDay (t : Z) : Z := (t / msPerDay + 4) mod 7.

Definition monday_of (today : Z) : Z :=
  let dayOfWeek := getUTCDay today in
  let diff := if dayOfWeek =? 0 then -6 else 1 - dayOfWeek in
  today + diff * msPerDay.

(** The log of the engine as [compressReplay] and [hashInputs] receive it. *)
Definition replay_input (i : Engine.GameInput) : RawInput :=
  {| r_type := PStr "drop";
     r_x := PNum (gi_x i);
     r_timestamp := PNum (gi_timestamp i);
     r_fruitType := match gi_fruitType i with
                    | Some t => PStr (fruitName t)
                    | None => PUndefined
                    end |}.

(** [upsert]: update the row under the key if there is one, create it
    otherwise. *)
Definition upsert (k : string * Z) (create : ScoreRow) (update : ScoreRow -> ScoreRow)
    (m : gmap (string * Z) ScoreRow) : gmap (string * Z) ScoreRow :=
  match m !! k with
  | Some r => <[k := update r]> m
  | None => <[k := create]> m
  end.

(** [endGameSession], as it runs when no other handler runs between its
    awaits; the awaits are spelled out one by one further down. *)
Definition endGameSession (c : Clock) (sessionId : string) (reason : Reason)
    (st : State) : State * EndResult :=
  match activeSessions st !! sessionId with
  | None => (st, EndFailure "Game session not found")
  | Some gameEngine =>
      (* Get final state *)
      let finalState := (getState (engine_env c) gameEngine).2 in
      let finalScore := gs_score finalState in
      let inputs := map replay_input (getInputHistory gameEngine) in
      let replayData := compressReplay inputs in
      let inputsHash := hashInputs inputs in
      (* Remove from active sessions *)
      let live := delete sessionId (activeSessions st) in
      let db := prisma st in
      (* Update database *)
      match gameSession db !! sessionId with
      | None => ({| activeSessions := live; prisma := db |}, Threw)
      | Some row =>
          let session :=
            {| userId := userId row; walletAddress := walletAddress row;
               endTime := Some (new_Date_1 c); finalScore := Some finalScore;
               replayData := Some replayData; inputsHash := Some inputsHash |} in
          let db1 :=
            {| gameSession := <[sessionId := session]> (gameSession db);
               user := user db; dailyScore := dailyScore db;
               weeklyScore := weeklyScore db;
               journal := journal db ++
                 [gameSession_update sessionId (new_Date_1 c) finalScore
                    replayData inputsHash] |} in
          (* Update user stats *)
          match user db1 !! userId session with
          | None => ({| activeSessions := live; prisma := db1 |}, Threw)
          | Some u =>
              let highScore' := Z.max (highScore u) finalScore in
              let user' :=
                {| totalPoints := totalPoints u + finalScore;
                   gamesPlayed := gamesPlayed u + 1;
                   highScore := highScore' |} in
              (* Update leaderboard scores *)
              let today := utc_midnight (new_Date_2 c) in
              let weekStart := monday_of today in
              let create :=
                {| sr_userId := userId session; sr_score := finalScore;
                   sr_gameSessionId := sessionId |} in
              let update (r : ScoreRow) :=
                {| sr_userId := sr_userId r; sr_score := finalScore;
                   sr_gameSessionId := sessionId |} in
              let db2 :=
                {| gameSession := gameSession db1;
                   user := <[userId session := user']> (user db1);
                   dailyScore :=
                     upsert (walletAddress session, today) create update (dailyScore db1);
                   weeklyScore :=
                     upsert (walletAddress session, weekStart) create update
                       (weeklyScore db1);
                   journal := journal db1 ++
                     [user_update (userId session) finalScore 1 highScore';
                      dailyScore_upsert (walletAddress session) today finalScore sessionId;
                      weeklyScore_upsert (walletAddress session) weekStart finalScore
                        sessionId] |} in
              ({| activeSessions := live; prisma := db2 |},
               EndSuccess
                 {| d_finalScore := finalScore;
                    d_totalPoints := totalPoints user';
                    d_isNewHighScore := highScore u <? finalScore;
                    d_reason := reason |})
          end
      end
  end.

(** *** The awaits of [endGameSession], one by one

    [endGameSession] above is the call as it runs when no other handler
    runs between its awaits.  The event loop may run other handlers at each
    [await], so the call is spelled out here one await at a time, each step
    acting on the store as it is when the step runs. *)

(** What a call holds in its local variables once its synchronous part is
    done: the final score, the blob, the digest, and the [new Date()] of
    the data of the first update. *)
Record Ending := {
  en_sessionId : string;
  en_reason : Reason;
  en_finalScore : Z;
  en_replayData : Buffer;
  en_inputsHash : Digest;
  en_endTime : Z;
}.

(** Up to the first [await]: [None] when the session is not live. *)
Definition end_begin (c : Clock) (sessionId : string) (reason : Reason)
    (st : State) : State * option Ending :=
  match activeSessions st !! sessionId with
  | None => (st, None)
  | Some gameEngine =>
      let finalState := (getState (engine_env c) gameEngine).2 in
      let inputs := map replay_input (getInputHistory gameEngine) in
      ({| activeSessions := delete sessionId (activeSessions st); prisma := prisma st |},
       Some {| en_sessionId := sessionId; en_reason := reason;
               en_finalScore := gs_score finalState;
               en_replayData := compressReplay inputs;
               en_inputsHash := hashInputs inputs;
               en_endTime := new_Date_1 c |})
  end.

(** [await prisma.gameSession.update(...)] with [include: { user: true }]:
    the updated record, and the user record it names as it is read now;
    [None] when the update throws. *)
Definition await_session_update (p : Ending) (st : State)
    : State * option (SessionRow * option UserRow) :=
  let db := prisma st in
  match gameSession db !! en_sessionId p with
  | None => (st, None)
  | Some row =>
      let session :=
        {| userId := userId row; walletAddress := walletAddress row;
           endTime := Some (en_endTime p); finalScore := Some (en_finalScore p);
           replayData := Some (en_replayData p);
           inputsHash := Some (en_inputsHash p) |} in
      ({| activeSessions := activeSessions st;
          prisma :=
            {| gameSession := <[en_sessionId p := session]> (gameSession db);
               user := user db; dailyScore := dailyScore db;
               weeklyScore := weeklyScore db;
               journal := journal db ++
                 [gameSession_update (en_sessionId p) (en_endTime p) (en_finalScore p)
                    (en_replayData p) (en_inputsHash p)] |} |},
       Some (session, user db !! userId session))
  end.

(** [await prisma.user.update(...)]: the two increments act on the record
    as it is now, while [highScore] is set to the maximum of the final score
    and the high score of [read], the record the first await returned.
    [None] when it throws: [session.user] is null, or there is no record to
    update. *)
Definition await_user_update (p : Ending) (session : SessionRow)
    (read : option UserRow) (st : State) : State * option UserRow :=
  let db := prisma st in
  match read, user db !! userId session with
  | Some read, Some u =>
      let highScore' := Z.max (highScore read) (en_finalScore p) in
      let user' :=
        {| totalPoints := totalPoints u + en_finalScore p;
           gamesPlayed := gamesPlayed u + 1;
           highScore := highScore' |} in
      ({| activeSessions := activeSessions st;
          prisma :=
            {| gameSession := gameSession db;
               user := <[userId session := user']> (user db);
               dailyScore := dailyScore db; weeklyScore := weeklyScore db;
               journal := journal db ++
                 [user_update (userId session) (en_finalScore p) 1 highScore'] |} |},
       Some user')
  | _, _ => (st, None)
  end.

(** [await prisma.dailyScore.upsert(...)] *)
Definition await_daily_upsert (today : Z) (p : Ending) (session : SessionRow)
    (st : State) : State :=
  let db := prisma st in
  {| activeSessions := activeSessions st;
     prisma :=
       {| gameSession := gameSession db; user := user db;
          dailyScore :=
            upsert (walletAddress session, today)
              {| sr_userId := userId session; sr_score := en_finalScore p;
                 sr_gameSessionId := en_sessionId p |}
              (fun r => {| sr_userId := sr_userId r; sr_score := en_finalScore p;
                           sr_gameSessionId := en_sessionId p |})
              (dailyScore db);
          weeklyScore := weeklyScore db;
          journal := journal db ++
            [dailyScore_upsert (walletAddress session) today (en_finalScore p)
               (en_sessionId p)] |} |}.

(** [await prisma.weeklyScore.upsert(...)] *)
Definition await_weekly_upsert (weekStart : Z) (p : Ending) (session : SessionRow)
    (st : State) : State :=
  let db := prisma st in
  {| activeSessions := activeSessions st;
     prisma :=
       {| gameSession := gameSession db; user := user db;
          dailyScore := dailyScore db;
          weeklyScore :=
            upsert (walletAddress session, weekStart)
              {| sr_userId := userId session; sr_score := en_finalScore p;
                 sr_gameSessionId := en_sessionId p |}
              (fun r => {| sr_userId := sr_userId r; sr_score := en_finalScore p;
                           sr_gameSessionId := en_sessionId p |})
              (weeklyScore db);
          journal := journal db ++
            [weeklyScore_upsert (walletAddress session) weekStart (en_finalScore p)
               (en_sessionId p)] |} |}.

(** The value returned after the last await. *)
Definition end_data (p : Ending) (read user : UserRow) : EndData :=
  {| d_finalScore := en_finalScore p;
     d_totalPoints := totalPoints user;
     d_isNewHighScore := highScore read <? en_finalScore p;
     d_reason := en_reason p |}.

(** The steps in sequence, with nothing in between. *)
Definition endGameSession_alone (c : Clock) (sessionId : string) (reason : Reason)
    (st : State) : State * EndResult :=
  match end_begin c sessionId reason st with
  | (st0, None) => (st0, EndFailure "Game session not found")
  | (st0, Some p) =>
      match await_session_update p st0 with
      | (st1, None) => (st1, Threw)
      | (st1, Some (session, read)) =>
          match await_user_update p session read st1, read with
          | (st2, Some user'), Some read =>
              let today := utc_midnight (new_Date_2 c) in
              let weekStart := monday_of today in
              let st3 := await_daily_upsert today p session st2 in
              let st4 := await_weekly_upsert weekStart p session st3 in
              (st4, EndSuccess (end_data p read user'))
          | (st2, _), _ => (st2, Threw)
          end
      end
  end.

(** Two calls past their synchronous part, for sessions of one user, when
    the event loop runs the first await of both before the second await of
    either: the user records the two second awaits return. *)
Definition ends_interleaved (pA pB : Ending) (st : State)
    : State * option (UserRow * UserRow) :=
  match await_session_update pA st with
  | (st1, Some (sessionA, readA)) =>
      match await_session_update pB st1 with
      | (st2, Some (sessionB, readB)) =>
          match await_user_update pA sessionA readA st2 with
          | (st3, Some userA) =>
              match await_user_update pB sessionB readB st3 with
              | (st4, Some userB) => (st4, Some (userA, userB))
              | (st4, None) => (st4, None)
              end
          | (st3, None) => (st3, None)
          end
      | (st2, None) => (st2, None)
      end
  | (st1, None) => (st1, None)
  end.

(** *** The handlers of POST /input, GET /state/:sessionId and POST /end *)

(** The body of a response. *)
Inductive Body :=
| body_error (error : string)
| body_input (state : GameState) (mergeEvents : list MergeEvent)
| body_state (data : GameState)
| body_end (data : EndData).

Record Response := {
  status : Z;
  json : Body;
}.

(** The [input] property of the body of POST /input: [type] and [x] as
    they arrive; [timestamp], which the handler does not inspect, as the
    number the interface [GameInput] declares. *)
Record InputBody := {
  b_type : Prim;
  b_x : Prim;
  b_timestamp : float;
}.

(** [input.type !== 'drop' || typeof input.x !== 'number' || input.x < 0 ||
    input.x > 1]: [Some x] when the test is false. *)
Definition valid_x (input : InputBody) : option float :=
  if bool_decide (b_type input = PStr "drop") then
    match b_x input with
    | PNum x => if (x <? 0)%float || (1 <? x)%float then None else Some x
    | _ => None
    end
  else None.

(** The engine of a live session after a method call changed it in place. *)
Definition put (sessionId : string) (e : GameEngine) (st : State) : State :=
  {| activeSessions := <[sessionId := e]> (activeSessions st); prisma := prisma st |}.

(** POST /input.  [sessionId] and [input] are the two properties of the
    body, [None] when absent or falsy; a [sessionId] that is there is taken
    to be a string, the only keys sessions are stored under.  [processInput]
    reads the clock through [env], [getState] through [env']. *)
Definition post_input (env env' : Env) (sessionId : option string)
    (input : option InputBody) (st : State) : State * Response :=
  match JS.str_or_none sessionId, input with
  | Some sid, Some input =>
      match activeSessions st !! sid with
      | None =>
          (st, {| status := 404;
                  json := body_error "Game session not found or expired" |})
      | Some gameEngine =>
          (* Validate input *)
          match valid_x input with
          | None => (st, {| status := 400; json := body_error "Invalid input" |})
          | Some x =>
              (* Process the input in the game engine *)
              let result :=
                processInput env
                  {| gi_x := x; gi_timestamp := b_timestamp input;
                     gi_fruitType := None |} gameEngine in
              match result.2 with
              | Failure error =>
                  (put sid result.1 st, {| status := 400; json := body_error error |})
              | Success mergeEvents =>
                  let state := getState env' result.1 in
                  (put sid state.1 st,
                   {| status := 200; json := body_input state.2 mergeEvents |})
              end
          end
      end
  | _, _ => (st, {| status := 400; json := body_error "Missing required fields" |})
  end.

(** GET /state/:sessionId *)
Definition get_state (env : Env) (sessionId : string) (st : State) : State * Response :=
  match activeSessions st !! sessionId with
  | None =>
      (st, {| status := 404; json := body_error "Game session not found or expired" |})
  | Some gameEngine =>
      let state := getState env gameEngine in
      (put sessionId state.1 st, {| status := 200; json := body_state state.2 |})
  end.

(** POST /end; a rejected promise of [endGameSession] is caught and
    answered with status 500. *)
Definition post_end (c : Clock) (sessionId : option string) (st : State)
    : State * Response :=
  match JS.str_or_none sessionId with
  | None => (st, {| status := 400; json := body_error "Missing sessionId" |})
  | Some sid =>
      let result := endGameSession c sid manual st in
      (result.1,
       match result.2 with
       | EndFailure error => {| status := 400; json := body_error error |}
       | EndSuccess data => {| status := 200; json := body_end data |}
       | Threw => {| status := 500; json := body_error "Failed to end game" |}
       end)
  end.

End Session.

(** *** Sample data *)

Definition demo_state : State (P := Ideal) :=
  {| activeSessions :=
       {[ "s1"%string := (simulatePhysics (demo_env 5000) 5000 demo_engine 0).1.1 ]};
     prisma :=
       {| gameSession :=
            {[ "s1"%string :=
                 {| userId := "u1"; walletAddress := "w1"; endTime := None;
                    finalScore := None; replayData := None; inputsHash := None |} ]};
          user := {[ "u1"%string :=
                       {| totalPoints := 100; gamesPlayed := 3; highScore := 40 |} ]};
          dailyScore := ∅; weeklyScore := ∅; journal := [] |} |}.

Definition demo_clock : Clock :=
  {| engine_env := demo_env 6000; new_Date_1 := 6000; new_Date_2 := 6001 |}.

(** A session in which one cherry was dropped at x = 0.5, one second after
    the start. *)
Definition played_state : State (P := Ideal) :=
  {| activeSessions :=
       {[ "s1"%string :=
            (processInput (demo_env 1000) demo_input
               (new_GameEngine (demo_env 0) "s1" None)).1 ]};
     prisma :=
       {| gameSession :=
            {[ "s1"%string :=
                 {| userId := "u1"; walletAddress := "w1"; endTime := None;
                    finalScore := None; replayData := None; inputsHash := None |} ]};
          user := {[ "u1"%string :=
                       {| totalPoints := 0; gamesPlayed := 0; highScore := 0 |} ]};
          dailyScore := ∅; weeklyScore := ∅; journal := [] |} |}.

(** Two sessions of the user "u1", whose high score is 40, both past the
    synchronous part of [endGameSession]: "a" with 100 points, "b" with 50. *)
Definition ending (sessionId : string) (finalScore : Z) : Ending (P := Ideal) :=
  {| en_sessionId := sessionId; en_reason := manual; en_finalScore := finalScore;
     en_replayData := compressReplay []; en_inputsHash := hashInputs [];
     en_endTime := 6000 |}.

Definition two_ended_state : State (P := Ideal) :=
  {| activeSessions := ∅;
     prisma :=
       {| gameSession :=
            {[ "a"%string :=
                 {| userId := "u1"; walletAddress := "w1"; endTime := None;
                    finalScore := None; replayData := None; inputsHash := None |};
               "b"%string :=
                 {| userId := "u1"; walletAddress := "w1"; endTime := None;
                    finalScore := None; replayData := None; inputsHash := None |} ]};
          user := {[ "u1"%string :=
                       {| totalPoints := 100; gamesPlayed := 3; highScore := 40 |} ]};
          dailyScore := ∅; weeklyScore := ∅; journal := [] |} |}.

End Host.

(** ** Tactics of the proofs about the analyzer *)
Ltac four := split; [|split; [|split]].

(** A check that leaves the accumulator as it was. *)
Ltac kept H :=
  solve [cbn [andb]; four; [assumption|lia|lia|
                            eapply Forall_impl; [exact H|intros ? ?; tauto]]].

(** A check that adds its points and pushes its flag. *)
Ltac added H :=
  four; [unfold Replay.priced in *; cbn [fst snd]; rewrite length_app; simpl length; lia
        |cbn [fst]; lia
        |cbn [snd]; rewrite length_app; lia
        |cbn [snd]; apply Forall_app; split;
         [eapply Forall_impl; [exact H|intros ? ?; tauto]
         |constructor; [|constructor]]].

(** * Part II: properties *)

(** ** The order of binary64 numbers *)
Module JSFacts.
Import JS.

Lemma SFcompare_antisym x y : SFcompare y x = option_map CompOpp (SFcompare x y).
Proof.
  destruct x as [[|]|[|]| |[|] m1 e1], y as [[|]|[|]| |[|] m2 e2]; try reflexivity; simpl;
    rewrite (Z.compare_antisym e1 e2);
    destruct (e1 ?= e2); simpl; try reflexivity;
    change (PosDef.Pos.compare_cont Eq ?a ?b) with (Pos.compare a b);
    rewrite (Pos.compare_antisym m1 m2); destruct (m1 ?= m2)%positive; reflexivity.
Qed.

Lemma SFcompare_refl x : x <> S754_nan -> SFcompare x x = Some Eq.
Proof.
  destruct x as [[|]|[|]| |[|] m e]; try reflexivity; try congruence; intros _; simpl;
    rewrite Z.compare_refl; change (PosDef.Pos.compare_cont Eq ?a ?b) with (Pos.compare a b);
    rewrite Pos.compare_refl; reflexivity.
Qed.

Lemma SFcompare_Some x y :
  x <> S754_nan -> y <> S754_nan -> exists c, SFcompare x y = Some c.
Proof.
  destruct x as [[|]|[|]| |[|] m1 e1], y as [[|]|[|]| |[|] m2 e2]; try congruence;
    intros _ _; eexists; reflexivity.
Qed.

Lemma is_nan_spec a : is_nan a = false <-> Prim2SF a <> S754_nan.
Proof.
  unfold is_nan. rewrite FloatAxioms.eqb_spec. unfold SFeqb. split.
  - intros H E. rewrite E in H. discriminate H.
  - intros H. rewrite SFcompare_refl by exact H. reflexivity.
Qed.

(** On numbers, [a <= b] is the negation of [b < a]. *)
Lemma leb_ltb a b :
  is_nan a = false -> is_nan b = false -> (a <=? b)%float = negb (b <? a)%float.
Proof.
  rewrite !is_nan_spec, FloatAxioms.leb_spec, FloatAxioms.ltb_spec. intros Ha Hb.
  unfold SFleb, SFltb. rewrite (SFcompare_antisym (Prim2SF a) (Prim2SF b)).
  destruct (SFcompare_Some _ _ Ha Hb) as [c ->]. destruct c; reflexivity.
Qed.

Lemma ltb_leb a b : (a <? b)%float = true -> (a <=? b)%float = true.
Proof.
  rewrite FloatAxioms.leb_spec, FloatAxioms.ltb_spec. unfold SFleb, SFltb.
  destruct (SFcompare _ _) as [[| |]|]; congruence.
Qed.

Lemma leb_refl a : is_nan a = false -> (a <=? a)%float = true.
Proof.
  rewrite is_nan_spec, FloatAxioms.leb_spec. intros H. unfold SFleb.
  rewrite SFcompare_refl by exact H. reflexivity.
Qed.

(** [Math.max(a, Math.min(b, v))] clamps a number [v] into [a, b]. *)
Lemma clamp_range a b v :
  is_nan a = false -> is_nan b = false -> is_nan v = false ->
  (a <=? b)%float = true ->
  let c := Math_max a (Math_min b v) in
  is_nan c = false /\ (a <=? c)%float = true /\ (c <=? b)%float = true.
Proof.
  intros Ha Hb Hv Hab. unfold Math_min. rewrite Hb, Hv. cbn [orb].
  assert (W : exists w, (w = b \/ (w = v /\ (b <? v)%float = false)) /\
                        (if (b <? v)%float then b
                         else if (v <? b)%float then v
                         else if get_sign b then b else v) = w).
  { destruct (b <? v)%float eqn:E1; [eauto|].
    destruct (v <? b)%float; [eauto|]. destruct (get_sign b); eauto. }
  destruct W as (w & Hw & ->).
  assert (Nw : is_nan w = false) by (destruct Hw as [->|[-> _]]; assumption).
  assert (Wb : (w <=? b)%float = true).
  { destruct Hw as [->|[-> E]]; [apply leb_refl, Hb|].
    rewrite leb_ltb, E by assumption. reflexivity. }
  unfold Math_max. rewrite Ha, Nw. cbn [orb].
  destruct (a <? w)%float eqn:E1.
  - split; [exact Nw|]. split; [apply ltb_leb, E1|exact Wb].
  - destruct (w <? a)%float eqn:E2.
    + split; [exact Ha|]. split; [apply leb_refl, Ha|exact Hab].
    + destruct (get_sign a).
      * split; [exact Nw|]. split; [|exact Wb].
        rewrite leb_ltb, E2 by assumption. reflexivity.
      * split; [exact Ha|]. split; [apply leb_refl, Ha|exact Hab].
Qed.

(** A finite number minus itself is +0; a number that is not finite minus
    itself is NaN. *)
Lemma sub_diag t :
  (t - t)%float = if is_finite t then 0%float else nan.
Proof.
  rewrite <- (SF2Prim_Prim2SF (t - t)), FloatAxioms.sub_spec.
  unfold is_finite, is_nan, is_infinity.
  rewrite FloatAxioms.eqb_spec, FloatAxioms.eqb_spec, FloatAxioms.abs_spec.
  destruct (Prim2SF t) as [[|]|[|]| |s m e]; try reflexivity.
  unfold SF64sub, SFsub. cbv zeta. rewrite Z.sub_diag.
  unfold SFeqb, SFabs. rewrite SFcompare_refl by discriminate. reflexivity.
Qed.

End JSFacts.

(** ** Properties of the engine *)
Module EngineFacts.
Import JS Engine.
Import JSFacts.


Lemma Awarded_snoc m s evs m' s' ev :
  Awarded m s evs m' s' ->
  ev_multiplier ev = Z.min (m' + 1) MULTIPLIER_MAX ->
  points ev = 2 * cfg_points (FRUIT_CONFIGS (resultType ev)) * ev_multiplier ev ->
  Awarded m s (evs ++ [ev]) (ev_multiplier ev) (s' + points ev).
Proof.
  induction 1 as [m s | m s ev0 evs m' s' Hm Hp _ IH]; intros H1 H2; simpl.
  - econstructor; eauto. constructor.
  - econstructor; eauto.
Qed.

Lemma Awarded_bounds m s evs m' s' :
  Awarded m s evs m' s' ->
  1 <= m <= MULTIPLIER_MAX -> 1 <= m' <= MULTIPLIER_MAX.
Proof.
  unfold MULTIPLIER_MAX. induction 1 as [| m s ev evs m' s' Hm _ _ IH]; intros Hb.
  - exact Hb.
  - apply IH. rewrite Hm. unfold MULTIPLIER_MAX. lia.
Qed.


Lemma Awarded_score m s evs m' s' :
  Awarded m s evs m' s' -> s' = s + foldr (fun ev acc => points ev + acc) 0 evs.
Proof.
  induction 1 as [| m s ev evs m' s' _ _ _ IH]; simpl; [lia|]. rewrite IH. lia.
Qed.

Lemma collide_frame s a b fruitA fruitB :
  let s' := collide s a b fruitA fruitB in
  mergeEvents s' = mergeEvents s /\ toRemove s' = toRemove s /\
  toAdd s' = toAdd s /\ uuids s' = uuids s /\
  score (eng s') = score (eng s) /\ multiplier (eng s') = multiplier (eng s) /\
  lastMergeTime (eng s') = lastMergeTime (eng s) /\
  length (fruits (eng s')) = length (fruits (eng s)).
Proof.
  unfold collide. destruct (resolveCollision _ _ _ _ _ _) as [fa fb]. simpl.
  rewrite !length_insert. tauto.
Qed.

Lemma pairStep_ledger env now m0 s0 s ab :
  scan_ledger m0 s0 s -> scan_ledger m0 s0 (pairStep env now s ab).
Proof.
  unfold scan_ledger, pairStep. intros H. destruct ab as [a b].
  destruct (fruits (eng s) !! a) as [fruitA|]; [|exact H].
  destruct (fruits (eng s) !! b) as [fruitB|]; [|exact H].
  destruct (_ || _); [exact H|].
  destruct (overlapping _ _); [|exact H].
  pose proof (collide_frame s a b fruitA fruitB) as (E1 & _ & _ & _ & E2 & E3 & _).
  destruct (_ && _).
  - destruct (_ || _).
    + rewrite E1, E2, E3. exact H.
    + destruct (nextType _) as [nt|]; [|exact H].
      unfold merge. simpl.
      match goal with
      | |- Awarded _ _ (_ ++ [?ev]) _ _ =>
          exact (Awarded_snoc _ _ _ _ _ ev H eq_refl eq_refl)
      end.
  - rewrite E1, E2, E3. exact H.
Qed.

Lemma fold_pairStep_ledger env now m0 s0 ps s :
  scan_ledger m0 s0 s -> scan_ledger m0 s0 (fold_left (pairStep env now) ps s).
Proof.
  revert s. induction ps as [|ab ps IH]; intros s H; simpl; [exact H|].
  apply IH, pairStep_ledger, H.
Qed.

Lemma iteration_ledger env now m0 s0 st :
  Awarded m0 s0 st.1.2 (multiplier st.1.1) (score st.1.1) ->
  let st' := iteration env now st in
  Awarded m0 s0 st'.1.2 (multiplier st'.1.1) (score st'.1.1).
Proof.
  destruct st as [[e evs] k]. simpl. intros H.
  apply (fold_pairStep_ledger env now m0 s0). exact H.
Qed.

Lemma simulatePhysics_ledger env now e k :
  let st := simulatePhysics env now e k in
  Awarded (multiplier e) (score e) st.1.2 (multiplier st.1.1) (score st.1.1).
Proof.
  unfold simulatePhysics. generalize iterations. intros n.
  induction n as [|n IH].
  - simpl. constructor.
  - rewrite Nat.iter_succ. apply iteration_ledger. exact IH.
Qed.

Lemma Awarded_Forall m s evs m' s' :
  Awarded m s evs m' s' ->
  Forall (fun ev => points ev
            = 2 * cfg_points (FRUIT_CONFIGS (resultType ev)) * ev_multiplier ev) evs.
Proof. induction 1; constructor; assumption. Qed.

(** C3.  Every merge of a simulation step records, in its event, exactly
    twice the point value of the resulting tier times the multiplier as it
    stands after that merge's capped increment, and the score grows by
    exactly that amount: for one merge, and for the whole list of events a
    call of [simulatePhysics] returns. *)
Theorem merge_score_formula env now :
  (forall s fruitA fruitB nt,
      let s' := merge env now s fruitA fruitB nt in
      exists ev,
        mergeEvents s' = mergeEvents s ++ [ev] /\
        resultType ev = nt /\
        ev_multiplier ev = Z.min (multiplier (eng s) + 1) MULTIPLIER_MAX /\
        multiplier (eng s') = ev_multiplier ev /\
        points ev = 2 * cfg_points (FRUIT_CONFIGS nt) * ev_multiplier ev /\
        score (eng s') = score (eng s) + points ev) /\
  (forall e k,
      let st := simulatePhysics env now e k in
      Awarded (multiplier e) (score e) st.1.2 (multiplier st.1.1) (score st.1.1) /\
      Forall (fun ev => points ev
                = 2 * cfg_points (FRUIT_CONFIGS (resultType ev)) * ev_multiplier ev)
             st.1.2 /\
      score st.1.1 = score e + foldr (fun ev acc => points ev + acc) 0 st.1.2).
Proof.
  split.
  - intros s fruitA fruitB nt. unfold merge. simpl. eexists. split; [reflexivity|].
    simpl. repeat split; reflexivity.
  - intros e k st. pose proof (simulatePhysics_ledger env now e k) as H.
    fold st in H. split; [exact H|]. split.
    + exact (Awarded_Forall _ _ _ _ _ H).
    + exact (Awarded_score _ _ _ _ _ H).
Qed.

(** The formula at work: the two settled cherries, both past their grace
    window, merge into one strawberry at multiplier 2 for 2 * 3 * 2 points. *)
Lemma merge_score_formula_witness :
  let st := simulatePhysics (demo_env 5000) 5000 demo_engine 0 in
  map (fun ev => (resultType ev, ev_multiplier ev, points ev)) st.1.2
    = [(strawberry, 2, 12)] /\
  score st.1.1 = 12 /\
  Awarded 1 0 st.1.2 2 12.
Proof.
  pose proof (proj2 (merge_score_formula (demo_env 5000) 5000) demo_engine 0%nat)
    as (H & _ & _).
  split; [vm_compute; reflexivity|]. split; [vm_compute; reflexivity|].
  exact H.
Defined.





Lemma fruits_with_fruits fs e : fruits (with_fruits fs e) = fs.
Proof. reflexivity. Qed.

Lemma resolveCollision_dropTime fruitA fruitB dx dy distance minDist :
  let r := resolveCollision fruitA fruitB dx dy distance minDist in
  f_dropTime r.1 = f_dropTime fruitA /\ f_dropTime r.2 = f_dropTime fruitB.
Proof. unfold resolveCollision. destruct (_ <? _)%float; split; reflexivity. Qed.

Lemma collide_young now s a b fruitA fruitB :
  young now fruitA -> young now fruitB ->
  Forall (young now) (fruits (eng s)) ->
  Forall (young now) (fruits (eng (collide s a b fruitA fruitB))).
Proof.
  intros Ya Yb H. unfold collide.
  match goal with
  | |- context [resolveCollision ?A ?B ?dx ?dy ?d ?m] =>
      pose proof (resolveCollision_dropTime A B dx dy d m) as [Ea Eb];
      destruct (resolveCollision A B dx dy d m) as [fa fb]
  end.
  cbn [fst snd] in Ea, Eb. cbn [eng fruits with_fruits].
  apply Forall_insert; [apply Forall_insert; [exact H|]|]; unfold young in *; lia.
Qed.

Lemma pairStep_quiet env now evs n sc s ab :
  quiet now evs n sc s -> quiet now evs n sc (pairStep env now s ab).
Proof.
  intros (Hy & He & Hr & Ha & Hl & Hs). unfold pairStep. destruct ab as [a b].
  destruct (fruits (eng s) !! a) as [fruitA|] eqn:La; [|repeat split; assumption].
  destruct (fruits (eng s) !! b) as [fruitB|] eqn:Lb; [|repeat split; assumption].
  assert (Ya : young now fruitA).
  { eapply Forall_forall in Hy; [exact Hy|]. eapply list_elem_of_lookup_2, La. }
  assert (Yb : young now fruitB).
  { eapply Forall_forall in Hy; [exact Hy|]. eapply list_elem_of_lookup_2, Lb. }
  assert (C : quiet now evs n sc (collide s a b fruitA fruitB)).
  { split; [apply collide_young; assumption|].
    pose proof (collide_frame s a b fruitA fruitB) as F. cbv zeta in F.
    destruct F as (-> & -> & -> & _ & -> & _ & _ & ->). repeat split; assumption. }
  destruct (_ || _); [repeat split; assumption|].
  destruct (overlapping _ _); [|repeat split; assumption].
  destruct (_ && _); [|exact C].
  destruct (Z.ltb_spec (now - f_dropTime fruitA) INVINCIBILITY_MS); [exact C|].
  unfold young in Ya. lia.
Qed.

Lemma fold_pairStep_quiet env now evs n sc ps s :
  quiet now evs n sc s -> quiet now evs n sc (fold_left (pairStep env now) ps s).
Proof.
  revert s. induction ps as [|ab ps IH]; intros s H; simpl; [exact H|].
  apply IH, pairStep_quiet, H.
Qed.

Lemma integrate_young now f : young now f -> young now (integrate f).
Proof.
  unfold young, integrate. repeat destruct (_ <? _)%float; simpl; trivial.
Qed.

Lemma filter_all {A} (P : A -> Prop) `{forall x, Decision (P x)} (l : list A) :
  (forall x, P x) -> filter P l = l.
Proof.
  intros HP. induction l as [|a l IH]; [reflexivity|].
  rewrite filter_cons_True by apply HP. rewrite IH. reflexivity.
Qed.

(** No fruit that is still inside its grace window is merged: while all the
    fruits are, a whole call of [simulatePhysics] returns no event, keeps
    every fruit and leaves the score as it was. *)
Lemma young_fruits_never_merge env now e k :
  Forall (young now) (fruits e) ->
  let st := simulatePhysics env now e k in
  st.1.2 = [] /\ Forall (young now) (fruits st.1.1) /\
  length (fruits st.1.1) = length (fruits e) /\ score st.1.1 = score e.
Proof.
  intros Hy. unfold simulatePhysics. generalize iterations. intros n.
  induction n as [|n IH]; [repeat split; assumption|].
  rewrite Nat.iter_succ. destruct (Nat.iter n _ _) as [[e1 evs] j].
  cbn [fst snd] in IH. destruct IH as (-> & Hy1 & Hl & Hs).
  unfold iteration.
  match goal with
  | |- context [fold_left (pairStep env now) ?ps ?s0] =>
      pose proof (fold_pairStep_quiet env now [] (length (fruits e)) (score e) ps s0) as Q;
      set (s := fold_left (pairStep env now) ps s0) in *
  end.
  destruct Q as (Qy & Qe & Qr & Qa & Ql & Qs).
  { split; [|repeat split; try reflexivity].
    - cbn [eng fruits with_fruits].
      apply Forall_fmap. eapply Forall_impl; [exact Hy1|]. apply integrate_young.
    - cbn [eng fruits with_fruits]. rewrite length_map. exact Hl.
    - exact Hs. }
  cbn [fst snd]. rewrite fruits_with_fruits.
  rewrite Qa, app_nil_r, filter_all.
  - repeat split; assumption.
  - intros f. rewrite Qr. apply not_elem_of_empty.
Qed.

(** The score stays an exactly representable integer: a merge awards at most
    2 * 58 * 8 = 928 points. *)
Lemma Awarded_score_bound m s evs m' s' :
  Awarded m s evs m' s' -> 1 <= m <= MULTIPLIER_MAX ->
  s <= s' <= s + 928 * Z.of_nat (length evs).
Proof.
  unfold MULTIPLIER_MAX. induction 1 as [| m s ev evs m' s' Hm Hp _ IH]; intros Hb.
  - simpl. lia.
  - unfold MULTIPLIER_MAX in *.
    assert (0 < cfg_points (FRUIT_CONFIGS (resultType ev)) <= 58)
      by (destruct (resultType ev); simpl; lia).
    assert (1 <= ev_multiplier ev <= 8) by lia.
    specialize (IH ltac:(lia)). simpl length. nia.
Qed.

(** [Math.random()] ranges over [0, 1): at both ends of the range the drawn
    index is in range, and the index is monotone in between. *)
Lemma getRandomDroppableFruit_range :
  getRandomDroppableFruit 0 = cherry /\
  getRandomDroppableFruit 0x1.fffffffffffffp-1 = apple.
Proof. split; vm_compute; reflexivity. Qed.

(** C7.  Along the evolution order radius and point value strictly
    increase; each of the tiers 0..8 has the next entry of the sequence as
    successor, tier 9 (watermelon) has none; and the scan never merges two
    watermelons: whatever their positions and ages, it records no event,
    marks nothing for removal and queues no new fruit. *)
Theorem tier_monotonicity :
  (forall t t', nextType t = Some t' ->
      (cfg_radius (FRUIT_CONFIGS t) <? cfg_radius (FRUIT_CONFIGS t'))%float = true /\
      cfg_points (FRUIT_CONFIGS t) < cfg_points (FRUIT_CONFIGS t')) /\
  (forall i t, (i <= 8)%nat -> FRUIT_SEQUENCE !! i = Some t ->
      is_Some (nextType t) /\ nextType t = FRUIT_SEQUENCE !! (i + 1)%nat) /\
  FRUIT_SEQUENCE !! 9%nat = Some watermelon /\
  nextType watermelon = None /\
  (forall env now s a b fruitA fruitB,
      fruits (eng s) !! a = Some fruitA ->
      fruits (eng s) !! b = Some fruitB ->
      f_type fruitA = watermelon -> f_type fruitB = watermelon ->
      let s' := pairStep env now s (a, b) in
      mergeEvents s' = mergeEvents s /\ toRemove s' = toRemove s /\
      toAdd s' = toAdd s /\ uuids s' = uuids s /\
      score (eng s') = score (eng s) /\ multiplier (eng s') = multiplier (eng s) /\
      length (fruits (eng s')) = length (fruits (eng s))).
Proof.
  split; [|split; [|split; [|split]]].
  - intros t t' H. destruct t; vm_compute in H; try discriminate;
      injection H as <-; vm_compute; split; reflexivity.
  - intros i t Hi H.
    do 9 (destruct i as [|i]; [vm_compute in H; injection H as <-;
                               vm_compute; split; [eexists|]; reflexivity|]).
    lia.
  - reflexivity.
  - reflexivity.
  - intros env now s a b fruitA fruitB Ha Hb Wa Wb s'. subst s'.
    unfold pairStep. rewrite Ha, Hb.
    pose proof (collide_frame s a b fruitA fruitB) as F. simpl in F.
    destruct (_ || _); [tauto|].
    destruct (overlapping _ _); [|tauto].
    rewrite Wa, Wb. simpl. tauto.
Qed.

Lemma decay_multiplier now e :
  1 <= multiplier e ->
  multiplier (decay now e)
    = if MULTIPLIER_DECAY_MS <? now - lastMergeTime e then 1 else multiplier e.
Proof.
  intros H. unfold decay.
  destruct (Z.ltb_spec 1 (multiplier e)); simpl;
    destruct (MULTIPLIER_DECAY_MS <? now - lastMergeTime e); simpl; lia.
Qed.

Lemma decay_frame now e :
  let e' := decay now e in
  fruits e' = fruits e /\ score e' = score e /\ isGameOver e' = isGameOver e /\
  lastMergeTime e' = lastMergeTime e /\ overflowStartTime e' = overflowStartTime e.
Proof. unfold decay. destruct (_ && _); simpl; tauto. Qed.

Lemma checkOverflow_multiplier now e :
  multiplier (checkOverflow now e) = multiplier e.
Proof.
  unfold checkOverflow. destruct (hasOverflow e); [|reflexivity].
  destruct (overflowStartTime e); [|reflexivity].
  destruct (_ <=? _); reflexivity.
Qed.

Lemma Success_inj evs evs' : Success evs = Success evs' -> evs = evs'.
Proof. intros [= ->]. reflexivity. Qed.

Lemma processInput_cases env input e :
  (isGameOver e = true /\
   processInput env input e = (e, Failure "Game is already over")) \/
  (isGameOver e = false /\
   GAME_DURATION_MS <= date_now_1 env - startTime e /\
   processInput env input e = (with_isGameOver true e, Failure "Game time expired")) \/
  (isGameOver e = false /\
   date_now_1 env - startTime e < GAME_DURATION_MS /\
   date_now_2 env - lastDropTime e < MIN_DROP_INTERVAL_MS /\
   processInput env input e = (e, Failure "Dropping too fast")) \/
  (isGameOver e = false /\
   date_now_1 env - startTime e < GAME_DURATION_MS /\
   MIN_DROP_INTERVAL_MS <= date_now_2 env - lastDropTime e /\
   let now := date_now_2 env in
   let st := simulatePhysics env now (spawn env input now (decay now e)) 1 in
   processInput env input e = (checkOverflow now st.1.1, Success st.1.2)).
Proof.
  unfold processInput. destruct (isGameOver e); [left; tauto|right].
  destruct (Z.leb_spec GAME_DURATION_MS (date_now_1 env - startTime e));
    [left; tauto|right].
  destruct (Z.ltb_spec (date_now_2 env - lastDropTime e) MIN_DROP_INTERVAL_MS);
    [left; tauto|right]. tauto.
Qed.

Lemma decay_bounds now e :
  1 <= multiplier e <= MULTIPLIER_MAX ->
  1 <= multiplier (decay now e) <= MULTIPLIER_MAX.
Proof.
  intros Hb. rewrite decay_multiplier by lia.
  destruct (_ <? _); unfold MULTIPLIER_MAX in *; lia.
Qed.

Lemma simulatePhysics_bounds env now e k :
  1 <= multiplier e <= MULTIPLIER_MAX ->
  1 <= multiplier (simulatePhysics env now e k).1.1 <= MULTIPLIER_MAX.
Proof. exact (Awarded_bounds _ _ _ _ _ (simulatePhysics_ledger env now e k)). Qed.

Lemma processInput_bounds env input e :
  1 <= multiplier e <= MULTIPLIER_MAX ->
  1 <= multiplier (processInput env input e).1 <= MULTIPLIER_MAX.
Proof.
  intros Hb.
  destruct (processInput_cases env input e)
    as [[_ ->]|[(_ & _ & ->)|[(_ & _ & _ & ->)|(_ & _ & _ & ->)]]];
    cbn [fst snd].
  - exact Hb.
  - exact Hb.
  - exact Hb.
  - rewrite checkOverflow_multiplier. apply simulatePhysics_bounds.
    apply (decay_bounds (date_now_2 env) e Hb).
Qed.

Lemma run_bounds calls e :
  1 <= multiplier e <= MULTIPLIER_MAX ->
  1 <= multiplier (run calls e) <= MULTIPLIER_MAX.
Proof.
  intros Hb. induction calls as [|call calls IH] using rev_ind; [exact Hb|].
  unfold run in *. rewrite fold_left_app. cbn [fold_left].
  apply processInput_bounds, IH.
Qed.

(** *** The time of the last merge *)









(** C2, as the code has it.  A rejected input leaves the fruits, the score,
    the spawn queue, the input history, the multiplier and every clock as
    they were.  The terminal flag is left as it was by the rejections
    'Game is already over' and 'Dropping too fast'; the rejection
    'Game time expired' sets it.  The terminal flag a snapshot reports is
    the same before and after the rejected call, for every snapshot read at
    or after the time of the call. *)
Theorem rejected_input_state env input e err :
  (processInput env input e).2 = Failure err ->
  let e' := (processInput env input e).1 in
  fruits e' = fruits e /\ score e' = score e /\
  nextFruit e' = nextFruit e /\ queuedFruit e' = queuedFruit e /\
  dropCount e' = dropCount e /\ inputHistory e' = inputHistory e /\
  multiplier e' = multiplier e /\ lastDropTime e' = lastDropTime e /\
  lastMergeTime e' = lastMergeTime e /\
  overflowStartTime e' = overflowStartTime e /\
  startTime e' = startTime e /\
  ((err = "Game is already over"%string /\ isGameOver e = true /\ e' = e) \/
   (err = "Dropping too fast"%string /\ isGameOver e = false /\ e' = e) \/
   (err = "Game time expired"%string /\ isGameOver e = false /\
    GAME_DURATION_MS <= date_now_1 env - startTime e /\
    e' = with_isGameOver true e /\ isGameOver e' = true)) /\
  (forall later, date_now_1 env <= date_now_1 later ->
     gs_isGameOver (getState later e').2 = gs_isGameOver (getState later e).2).
Proof.
  destruct (processInput_cases env input e)
    as [[G ->]|[(G & T & ->)|[(G & _ & _ & ->)|(_ & _ & _ & ->)]]];
    cbn [fst snd]; [| | |discriminate];
    intros [= <-]; repeat (split; [reflexivity|]).
  - split; [left; tauto|reflexivity].
  - split; [right; right; tauto|].
    intros later Hl. unfold getState. cbn [snd gs_isGameOver].
    destruct (decay_frame (date_now_2 later) e) as (_ & _ & -> & _).
    destruct (decay_frame (date_now_2 later) (with_isGameOver true e))
      as (_ & _ & -> & _).
    cbn [isGameOver with_isGameOver startTime]. rewrite G. cbn [orb].
    symmetry. apply Z.leb_le. lia.
  - split; [right; left; tauto|reflexivity].
Qed.

(** A drop arriving more than half a second after the last one, but seven
    minutes after the start: it is rejected and the session is terminal
    afterwards; nothing else has changed. *)
Lemma rejected_input_state_witness :
  let input := {| gi_x := 0.5; gi_timestamp := 0; gi_fruitType := None |} in
  let e' := (processInput (demo_env 420000) input demo_engine).1 in
  fruits e' = fruits demo_engine /\ score e' = 0 /\ multiplier e' = 1 /\
  inputHistory e' = [].
Proof.
  intros input.
  pose proof (rejected_input_state (demo_env 420000) input demo_engine
                "Game time expired" eq_refl) as H.
  cbv zeta in H. destruct H as (H1 & H2 & _ & _ & _ & H6 & H7 & _).
  split; [exact H1|]. split; [exact H2|]. split; [exact H7|]. exact H6.
Defined.

(** C2 as stated fails on the terminal flag: the rejection for expired
    time turns a live session into a terminal one. *)
Lemma reject_expired_sets_terminal :
  let input := {| gi_x := 0.5; gi_timestamp := 0; gi_fruitType := None |} in
  let r := processInput (demo_env 420000) input demo_engine in
  r.2 = Failure "Game time expired" /\
  isGameOver demo_engine = false /\ isGameOver r.1 = true.
Proof. vm_compute. repeat split; reflexivity. Qed.

Lemma pairStep_flags env now s ab :
  same_flags (eng s) (eng (pairStep env now s ab)).
Proof.
  unfold pairStep, same_flags. destruct ab as [a b].
  destruct (fruits (eng s) !! a) as [fruitA|]; [|tauto].
  destruct (fruits (eng s) !! b) as [fruitB|]; [|tauto].
  assert (C : same_flags (eng s) (eng (collide s a b fruitA fruitB))).
  { unfold collide. destruct (resolveCollision _ _ _ _ _ _). repeat split. }
  destruct (_ || _); [tauto|].
  destruct (overlapping _ _); [|tauto].
  destruct (_ && _); [|exact C].
  destruct (_ || _); [exact C|].
  destruct (nextType _); [|tauto]. repeat split.
Qed.

Lemma same_flags_trans e1 e2 e3 :
  same_flags e1 e2 -> same_flags e2 e3 -> same_flags e1 e3.
Proof. unfold same_flags. intros (-> & -> & ->) (-> & -> & ->). repeat split. Qed.

Lemma same_flags_sym e1 e2 : same_flags e1 e2 -> same_flags e2 e1.
Proof. unfold same_flags. intros (-> & -> & ->). repeat split. Qed.

Lemma same_flags_refl e : same_flags e e.
Proof. repeat split. Qed.

Lemma fold_pairStep_flags env now ps s :
  same_flags (eng s) (eng (fold_left (pairStep env now) ps s)).
Proof.
  revert s. induction ps as [|ab ps IH]; intros s; simpl; [apply same_flags_refl|].
  exact (same_flags_trans _ _ _ (pairStep_flags env now s ab) (IH _)).
Qed.

Lemma simulatePhysics_flags env now e k :
  same_flags e (simulatePhysics env now e k).1.1.
Proof.
  unfold simulatePhysics. generalize iterations. intros n.
  induction n as [|n IH]; [apply same_flags_refl|].
  rewrite Nat.iter_succ. destruct (Nat.iter n _ _) as [[e1 evs] j].
  apply (same_flags_trans _ _ _ IH). unfold iteration. cbn [fst snd].
  exact (fold_pairStep_flags env now _
           {| eng := with_fruits (map integrate (fruits e1)) e1; toRemove := ∅;
              toAdd := []; mergeEvents := evs; uuids := j |}).
Qed.

Lemma with_fruits_flags fs e : same_flags (with_fruits fs e) e.
Proof. repeat split. Qed.

Lemma decay_flags now e : same_flags e (decay now e).
Proof. unfold decay. destruct (_ && _); repeat split. Qed.

Lemma spawn_flags env input now e : same_flags e (spawn env input now e).
Proof. repeat split. Qed.

Lemma checkOverflow_flags now e1 e2 :
  fruits e1 = fruits e2 -> same_flags e1 e2 ->
  same_flags (checkOverflow now e1) (checkOverflow now e2).
Proof.
  intros Hf (Hg & Ht & Hs). unfold checkOverflow, hasOverflow, same_flags.
  rewrite Hf, Ht. destruct (existsb _ _); [|repeat split; simpl; congruence].
  destruct (overflowStartTime e1) eqn:E; [|repeat split; simpl; congruence].
  destruct (_ <=? _); repeat split; simpl; congruence.
Qed.

Lemma checkOverflow_spec now e :
  let e' := checkOverflow now e in
  fruits e' = fruits e /\
  (isGameOver e' = true <->
     isGameOver e = true \/
     (hasOverflow e = true /\
      exists t0, overflowStartTime e = Some t0 /\
                 OVERFLOW_ALARM_DURATION_MS <= now - t0)) /\
  (hasOverflow e = false -> overflowStartTime e' = None) /\
  (hasOverflow e = true -> overflowStartTime e = None ->
     overflowStartTime e' = Some now) /\
  (hasOverflow e = true -> forall t0, overflowStartTime e = Some t0 ->
     overflowStartTime e' = Some t0).
Proof.
  unfold checkOverflow. destruct (hasOverflow e) eqn:Ho.
  - destruct (overflowStartTime e) as [t0|] eqn:Et.
    + destruct (Z.leb_spec OVERFLOW_ALARM_DURATION_MS (now - t0)); simpl.
      * repeat split; try congruence; eauto 6.
      * repeat split; try congruence; [tauto|].
        intros [?|(_ & t & [= <-] & ?)]; [assumption|lia].
    + simpl. repeat split; try congruence; [tauto|].
      intros [?|(_ & t & [=] & _)]. assumption.
  - simpl. repeat split; try congruence; [tauto|].
    intros [?|([=] & _)]. assumption.
Qed.

Lemma tripped_snoc cs c : tripped cs -> tripped (cs ++ [c]).
Proof.
  intros (pre & t0 & fs0 & mid & t1 & fs1 & post & -> & H).
  exists pre, t0, fs0, mid, t1, fs1, (post ++ [c]). split; [|exact H].
  rewrite <- !app_assoc. simpl. rewrite <- app_assoc. reflexivity.
Qed.

Lemma checks_invariant cs e :
  isGameOver e = false -> overflowStartTime e = None ->
  (isGameOver (checks cs e) = true -> tripped cs) /\
  (forall t0, overflowStartTime (checks cs e) = Some t0 -> armed_since cs t0).
Proof.
  intros G0 T0. induction cs as [|c cs [IHg IHt]] using rev_ind.
  - simpl. split; congruence.
  - unfold checks in *. rewrite fold_left_app. simpl.
    set (e1 := fold_left check cs e) in *.
    destruct c as [now fs]. unfold check. simpl.
    pose proof (checkOverflow_spec now (with_fruits fs e1)) as (_ & Hg & Hn & Hs & Hk).
    change (hasOverflow (with_fruits fs e1)) with (existsb inDanger fs) in *.
    change (overflowStartTime (with_fruits fs e1)) with (overflowStartTime e1) in *.
    change (isGameOver (with_fruits fs e1)) with (isGameOver e1) in *.
    split.
    + intros H. apply Hg in H as [H|(Hd & t0 & Ht & Hle)].
      * apply tripped_snoc, IHg, H.
      * destruct (IHt t0 Ht) as (pre & fs0 & mid & -> & D0 & Dm).
        exists pre, t0, fs0, mid, now, fs, []. repeat split; try assumption.
        rewrite <- app_assoc. reflexivity.
    + intros t0 H. destruct (existsb inDanger fs) eqn:Hd.
      * destruct (overflowStartTime e1) as [t|] eqn:Et.
        -- rewrite (Hk eq_refl t eq_refl) in H. injection H as <-.
           destruct (IHt t eq_refl) as (pre & fs0 & mid & -> & D0 & Dm).
           exists pre, fs0, (mid ++ [(now, fs)]). repeat split; try assumption.
           ++ rewrite <- app_assoc. reflexivity.
           ++ apply Forall_app. split; [assumption|]. constructor; [exact Hd|constructor].
        -- rewrite (Hs eq_refl eq_refl) in H. injection H as <-.
           exists cs, fs, []. repeat split; [exact Hd|constructor].
      * rewrite (Hn eq_refl) in H. discriminate.
Qed.

Lemma check_startTime e c : startTime (check e c) = startTime e.
Proof.
  unfold check, checkOverflow. destruct (hasOverflow _); [|reflexivity].
  destruct (overflowStartTime _); [|reflexivity]. destruct (_ <=? _); reflexivity.
Qed.

Lemma check_flags e1 e2 c :
  same_flags e1 e2 -> same_flags (check e1 c) (check e2 c).
Proof.
  intros H. unfold check. apply checkOverflow_flags.
  - rewrite !fruits_with_fruits. reflexivity.
  - apply (same_flags_trans _ _ _ (with_fruits_flags _ e1)).
    apply (same_flags_trans _ _ _ H). apply same_flags_sym, with_fruits_flags.
Qed.

(** An accepted input acts on the flags as one overflow check on the fruits
    the simulation left. *)
Lemma accepted_check env input e :
  let now := date_now_2 env in
  let st := simulatePhysics env now (spawn env input now (decay now e)) 1 in
  same_flags (check e (now, fruits st.1.1)) (checkOverflow now st.1.1).
Proof.
  intros now st. unfold check. cbn [fst snd].
  apply checkOverflow_flags; [apply fruits_with_fruits|].
  apply (same_flags_trans _ _ _ (with_fruits_flags _ e)).
  apply (same_flags_trans _ _ _ (decay_flags now e)).
  apply (same_flags_trans _ _ _ (spawn_flags env input now _)).
  apply simulatePhysics_flags.
Qed.

(** A call that does not find the time expired leaves the flags alone or
    acts on them as one overflow check at the time it reads. *)
Lemma step_flags e call :
  date_now_1 call.1 - startTime e < GAME_DURATION_MS ->
  same_flags e (step e call) \/
  exists fs, same_flags (check e (date_now_2 call.1, fs)) (step e call).
Proof.
  destruct call as [env input]. unfold step. cbn [fst snd]. intros Ht.
  destruct (processInput_cases env input e)
    as [[_ ->]|[(_ & T & _)|[(_ & _ & _ & ->)|(_ & _ & _ & ->)]]]; cbn [fst snd].
  - left. apply same_flags_refl.
  - lia.
  - left. apply same_flags_refl.
  - right. eexists. apply accepted_check.
Qed.

(** The flags after a run are those after the overflow checks of its
    accepted calls. *)
Lemma run_checks calls e :
  (forall call, call ∈ calls ->
     date_now_1 call.1 - startTime e < GAME_DURATION_MS) ->
  exists cs,
    (forall c, c ∈ cs -> exists call, call ∈ calls /\ c.1 = date_now_2 call.1) /\
    same_flags (checks cs e) (run calls e) /\
    startTime (run calls e) = startTime e.
Proof.
  induction calls as [|call calls IH] using rev_ind; intros Ht.
  - exists []. split; [|split; [apply same_flags_refl|reflexivity]].
    intros c Hc. apply elem_of_nil in Hc. contradiction.
  - destruct IH as (cs & Hcs & Hf & Hs).
    { intros c Hc. apply Ht. apply elem_of_app. left. exact Hc. }
    unfold run in *. rewrite fold_left_app. cbn [fold_left].
    set (e1 := fold_left step calls e) in *.
    destruct (step_flags e1 call) as [H|[fs H]].
    { rewrite Hs. apply Ht. apply elem_of_app. right. left. }
    + exists cs. split; [|split].
      * intros c Hc. destruct (Hcs c Hc) as (call' & Hin & E).
        exists call'. split; [apply elem_of_app; left; exact Hin|exact E].
      * exact (same_flags_trans _ _ _ Hf H).
      * destruct H as (_ & _ & ->). exact Hs.
    + exists (cs ++ [(date_now_2 call.1, fs)]). split; [|split].
      * intros c Hc. apply elem_of_app in Hc as [Hc|Hc].
        -- destruct (Hcs c Hc) as (call' & Hin & E).
           exists call'. split; [apply elem_of_app; left; exact Hin|exact E].
        -- apply list_elem_of_singleton in Hc as ->.
           exists call. split; [apply elem_of_app; right; left|reflexivity].
      * unfold checks in *. rewrite fold_left_app. cbn [fold_left].
        exact (same_flags_trans _ _ _ (check_flags _ _ _ Hf) H).
      * destruct H as (_ & _ & ->). rewrite check_startTime. exact Hs.
Qed.

(** C6.  One overflow check ends the session exactly when some fruit is in
    danger and the timer was started at least OVERFLOW_ALARM_DURATION_MS
    before; a check that finds no fruit in danger clears the timer, a check
    that finds one starts it if it was clear and keeps it otherwise.  Over
    successive checks of a live session whose timer is clear: the session
    is ended only by a run of consecutive checks, all with a fruit in
    danger, spanning at least the grace duration; checks less than the grace
    duration apart never end it.  The same holds of a run of calls of
    [processInput] none of which finds the game time expired: the flags
    after the run are those after the overflow checks of its accepted
    calls, so such a run ends the session only through such a run of
    checks, and calls read less than the grace duration apart never end
    it. *)
Theorem overflow_timing :
  (forall f, inDanger f = true <->
     (f_y f - f_radius f <? DANGER_ZONE_Y)%float = true /\
     (Math_abs (f_vy f) <? 1)%float = true) /\
  (forall now e,
     let e' := checkOverflow now e in
     (isGameOver e' = true <->
        isGameOver e = true \/
        (hasOverflow e = true /\
         exists t0, overflowStartTime e = Some t0 /\
                    OVERFLOW_ALARM_DURATION_MS <= now - t0)) /\
     (hasOverflow e = false -> overflowStartTime e' = None) /\
     (hasOverflow e = true -> overflowStartTime e = None ->
        overflowStartTime e' = Some now) /\
     (hasOverflow e = true -> forall t0, overflowStartTime e = Some t0 ->
        overflowStartTime e' = Some t0)) /\
  (forall env input e evs,
     (processInput env input e).2 = Success evs ->
     let now := date_now_2 env in
     let left := (simulatePhysics env now (spawn env input now (decay now e)) 1).1.1 in
     same_flags (check e (now, fruits left)) (processInput env input e).1) /\
  (forall cs e,
     isGameOver e = false -> overflowStartTime e = None ->
     isGameOver (checks cs e) = true -> tripped cs) /\
  (forall cs e,
     isGameOver e = false -> overflowStartTime e = None ->
     (forall c c', c ∈ cs -> c' ∈ cs -> c'.1 - c.1 < OVERFLOW_ALARM_DURATION_MS) ->
     isGameOver (checks cs e) = false) /\
  (forall calls e,
     isGameOver e = false -> overflowStartTime e = None ->
     (forall call, call ∈ calls ->
        date_now_1 call.1 - startTime e < GAME_DURATION_MS) ->
     (isGameOver (run calls e) = true ->
        exists cs, tripped cs /\
          forall c, c ∈ cs -> exists call, call ∈ calls /\ c.1 = date_now_2 call.1) /\
     ((forall call call', call ∈ calls -> call' ∈ calls ->
         date_now_2 call'.1 - date_now_2 call.1 < OVERFLOW_ALARM_DURATION_MS) ->
      isGameOver (run calls e) = false)).
Proof.
  assert (Hshort : forall cs e,
    isGameOver e = false -> overflowStartTime e = None ->
    (forall c c', c ∈ cs -> c' ∈ cs -> c'.1 - c.1 < OVERFLOW_ALARM_DURATION_MS) ->
    isGameOver (checks cs e) = false).
  { intros cs e G T Hshort.
    destruct (isGameOver (checks cs e)) eqn:Hg; [|reflexivity].
    apply (checks_invariant cs e G T) in Hg
      as (pre & t0 & fs0 & mid & t1 & fs1 & post & -> & _ & _ & _ & Hle).
    specialize (Hshort (t0, fs0) (t1, fs1)). simpl in Hshort.
    assert (t1 - t0 < OVERFLOW_ALARM_DURATION_MS); [|lia].
    apply Hshort; rewrite !elem_of_app, !elem_of_cons, ?elem_of_app, ?elem_of_cons; tauto. }
  split; [|split; [|split; [|split; [|split]]]].
  - intros f. unfold inDanger. rewrite andb_true_iff. reflexivity.
  - intros now e. apply checkOverflow_spec.
  - intros env input e evs.
    destruct (processInput_cases env input e)
      as [[_ ->]|[(_ & _ & ->)|[(_ & _ & _ & ->)|(_ & _ & _ & ->)]]];
      cbn [fst snd]; [discriminate..|].
    intros _. apply accepted_check.
  - intros cs e G T. apply (checks_invariant cs e G T).
  - exact Hshort.
  - intros calls e G T Ht.
    destruct (run_checks calls e Ht) as (cs & Hcs & (Hg & _ & _) & _). split.
    + intros Hover. exists cs. split; [|exact Hcs].
      apply (checks_invariant cs e G T). rewrite <- Hg. exact Hover.
    + intros Hclose. rewrite Hg. apply (Hshort cs e G T).
      intros c c' Hc Hc'.
      destruct (Hcs c Hc) as (call & Hin & ->).
      destruct (Hcs c' Hc') as (call' & Hin' & ->).
      apply Hclose; assumption.
Qed.

Lemma overflow_timing_witness :
  let e := new_GameEngine (demo_env 0) "s" None in
  isGameOver (checks [(0, [stuck_cherry]); (1000, [stuck_cherry]);
                      (3399, [stuck_cherry])] e) = false /\
  isGameOver (checks [(0, [stuck_cherry]); (1000, [stuck_cherry]);
                      (3399, [stuck_cherry]); (3400, [stuck_cherry])] e) = true.
Proof.
  intros e. split; [|vm_compute; reflexivity].
  apply (proj1 (proj2 (proj2 (proj2 (proj2 overflow_timing))))); [reflexivity..|].
  intros c c' Hc Hc'.
  rewrite !elem_of_cons, elem_of_nil in Hc, Hc'.
  destruct Hc as [->|[->|[->|[]]]], Hc' as [->|[->|[->|[]]]];
    vm_compute; reflexivity.
Defined.

(** *** The log: what an accepted drop records *)

Lemma same_log_refl e : same_log e e.
Proof. repeat split. Qed.

Lemma same_log_trans e1 e2 e3 : same_log e1 e2 -> same_log e2 e3 -> same_log e1 e3.
Proof.
  unfold same_log.
  intros (-> & -> & -> & -> & -> & -> & ->) (-> & -> & -> & -> & -> & -> & ->).
  repeat split.
Qed.

Lemma pairStep_log env now s ab : same_log (eng s) (eng (pairStep env now s ab)).
Proof.
  unfold pairStep. destruct ab as [a b].
  destruct (fruits (eng s) !! a) as [fruitA|]; [|apply same_log_refl].
  destruct (fruits (eng s) !! b) as [fruitB|]; [|apply same_log_refl].
  assert (C : same_log (eng s) (eng (collide s a b fruitA fruitB))).
  { unfold collide. destruct (resolveCollision _ _ _ _ _ _). repeat split. }
  destruct (_ || _); [apply same_log_refl|].
  destruct (overlapping _ _); [|apply same_log_refl].
  destruct (_ && _); [|exact C].
  destruct (_ || _); [exact C|].
  destruct (nextType _); [|apply same_log_refl]. repeat split.
Qed.

Lemma fold_pairStep_log env now ps s :
  same_log (eng s) (eng (fold_left (pairStep env now) ps s)).
Proof.
  revert s. induction ps as [|ab ps IH]; intros s; simpl; [apply same_log_refl|].
  exact (same_log_trans _ _ _ (pairStep_log env now s ab) (IH _)).
Qed.

Lemma simulatePhysics_log env now e k :
  same_log e (simulatePhysics env now e k).1.1.
Proof.
  unfold simulatePhysics. generalize iterations. intros n.
  induction n as [|n IH]; [apply same_log_refl|].
  rewrite Nat.iter_succ. destruct (Nat.iter n _ _) as [[e1 evs] j].
  apply (same_log_trans _ _ _ IH). unfold iteration. cbn [fst snd].
  exact (fold_pairStep_log env now _
           {| eng := with_fruits (map integrate (fruits e1)) e1; toRemove := ∅;
              toAdd := []; mergeEvents := evs; uuids := j |}).
Qed.

Lemma checkOverflow_log now e : same_log e (checkOverflow now e).
Proof.
  unfold checkOverflow. destruct (hasOverflow e); [|repeat split].
  destruct (overflowStartTime e); [|repeat split].
  destruct (_ <=? _); repeat split.
Qed.

Lemma decay_log now e : same_log e (decay now e).
Proof. unfold decay. destruct (_ && _); repeat split. Qed.

(** An accepted input leaves the log as [spawn] made it. *)
Lemma accepted_log env input e :
  let now := date_now_2 env in
  let st := simulatePhysics env now (spawn env input now (decay now e)) 1 in
  same_log (spawn env input now (decay now e)) (checkOverflow now st.1.1).
Proof.
  intros now st.
  apply (same_log_trans _ _ _ (simulatePhysics_log env now _ 1)).
  apply checkOverflow_log.
Qed.

Lemma accepted_result env input e evs :
  (processInput env input e).2 = Success evs ->
  let now := date_now_2 env in
  let sp := spawn env input now (decay now e) in
  (processInput env input e).1 = checkOverflow now (simulatePhysics env now sp 1).1.1 /\
  evs = (simulatePhysics env now sp 1).1.2.
Proof.
  destruct (processInput_cases env input e)
    as [[_ ->]|[(_ & _ & ->)|[(_ & _ & _ & ->)|(_ & _ & _ & ->)]]];
    cbn [fst snd]; [discriminate..|].
  intros H. apply Success_inj in H. split; [reflexivity|]. symmetry. exact H.
Qed.

(** The fields an accepted input has written when it returns. *)
Lemma accepted_fields env input e evs :
  (processInput env input e).2 = Success evs ->
  let e' := (processInput env input e).1 in
  inputHistory e' = inputHistory e ++ [logged input e] /\
  dropCount e' = S (dropCount e) /\
  lastDropTime e' = date_now_2 env /\
  nextFruit e' = queuedFruit e /\
  queuedFruit e' = getNextFromSequence (math_random env) (S (dropCount e)).
Proof.
  intros H e'. subst e'. destruct (accepted_result env input e evs H) as [-> _].
  destruct (accepted_log env input e) as (_ & H2 & H3 & H4 & H5 & H6 & _).
  destruct (decay_log (date_now_2 env) e) as (_ & D2 & D3 & _ & D5 & D6 & _).
  rewrite H2, H3, H4, H5, H6.
  unfold spawn, logged.
  cbn [nextFruit queuedFruit lastDropTime dropCount inputHistory].
  rewrite D2, D3, D5, D6. tauto.
Qed.

(** X1.  An input is accepted only on a live session, before the game time
    has run out and at least MIN_DROP_INTERVAL_MS after the last accepted
    drop.  When it returns, the input history has grown by exactly one
    entry, which carries the x and the timestamp of the input and, as its
    fruit type, the tier the engine dropped (whatever type the input named);
    the drop counter has grown by one, the drop clock is the time read, and
    the queue has advanced: the queued tier is now the next one, and the new
    queued tier is the one [getNextFromSequence] gives.  The session id and
    the start time are as before. *)
Theorem accepted_drop_log env input e evs :
  (processInput env input e).2 = Success evs ->
  let e' := (processInput env input e).1 in
  isGameOver e = false /\
  date_now_1 env - startTime e < GAME_DURATION_MS /\
  MIN_DROP_INTERVAL_MS <= date_now_2 env - lastDropTime e /\
  inputHistory e' = inputHistory e ++ [logged input e] /\
  gi_fruitType (logged input e) = Some (nextFruit e) /\
  dropCount e' = S (dropCount e) /\
  lastDropTime e' = date_now_2 env /\
  nextFruit e' = queuedFruit e /\
  queuedFruit e' = getNextFromSequence (math_random env) (S (dropCount e)) /\
  sessionId e' = sessionId e /\ startTime e' = startTime e.
Proof.
  intros H e'.
  pose proof (accepted_fields env input e evs H) as (F1 & F2 & F3 & F4 & F5).
  fold e' in F1, F2, F3, F4, F5.
  assert (G : isGameOver e = false /\
              date_now_1 env - startTime e < GAME_DURATION_MS /\
              MIN_DROP_INTERVAL_MS <= date_now_2 env - lastDropTime e).
  { destruct (processInput_cases env input e)
      as [[_ E]|[(_ & _ & E)|[(_ & _ & _ & E)|(G & T & D & _)]]];
      [rewrite E in H; discriminate H..|tauto]. }
  destruct G as (G1 & G2 & G3).
  assert (S1 : sessionId e' = sessionId e /\ startTime e' = startTime e).
  { unfold e'. destruct (accepted_result env input e evs H) as [-> _].
    destruct (accepted_log env input e) as (L1 & _).
    destruct (decay_log (date_now_2 env) e) as (D1 & _).
    destruct (accepted_check env input e) as (_ & _ & C1).
    rewrite L1, C1, check_startTime. split; [exact D1|reflexivity]. }
  destruct S1 as [S1 S2].
  repeat (split; [first [assumption|reflexivity]|]). assumption.
Qed.

Lemma accepted_drop_log_witness :
  let e' := (processInput (demo_env 5000) demo_input demo_engine).1 in
  inputHistory e' = [logged demo_input demo_engine] /\
  dropCount e' = 1%nat /\ lastDropTime e' = 5000 /\
  nextFruit e' = cherry /\ queuedFruit e' = strawberry.
Proof.
  intros e'.
  assert (H : exists evs,
             (processInput (demo_env 5000) demo_input demo_engine).2 = Success evs)
    by (vm_compute; eexists; reflexivity).
  destruct H as [evs H].
  pose proof (accepted_drop_log (demo_env 5000) demo_input demo_engine evs H)
    as (_ & _ & _ & H1 & _ & H2 & H3 & H4 & H5 & _).
  fold e' in H1, H2, H3, H4, H5.
  split; [exact H1|]. split; [exact H2|]. split; [exact H3|]. split; [exact H4|exact H5].
Defined.

(** X2.  After an accepted drop, an input whose time is less than
    MIN_DROP_INTERVAL_MS later is never accepted: it is rejected (for the
    throttle, or because the session has meanwhile ended or run out of
    time), and no fruit is spawned, nothing is logged and the score stays. *)
Theorem drop_throttle env1 input1 env2 input2 e evs :
  (processInput env1 input1 e).2 = Success evs ->
  date_now_2 env2 - date_now_2 env1 < MIN_DROP_INTERVAL_MS ->
  let e1 := (processInput env1 input1 e).1 in
  let r := processInput env2 input2 e1 in
  (r.2 = Failure "Game is already over" \/ r.2 = Failure "Game time expired" \/
   r.2 = Failure "Dropping too fast") /\
  (isGameOver e1 = false -> date_now_1 env2 - startTime e < GAME_DURATION_MS ->
   r = (e1, Failure "Dropping too fast")) /\
  fruits r.1 = fruits e1 /\ inputHistory r.1 = inputHistory e1 /\
  dropCount r.1 = dropCount e1 /\ score r.1 = score e1.
Proof.
  intros Hacc Hd e1 r.
  pose proof (accepted_fields env1 input1 e evs Hacc) as (_ & _ & Hl & _).
  fold e1 in Hl.
  assert (Hs : startTime e1 = startTime e).
  { unfold e1. destruct (accepted_result env1 input1 e evs Hacc) as [-> _].
    destruct (accepted_check env1 input1 e) as (_ & _ & ->). apply check_startTime. }
  subst r.
  destruct (processInput_cases env2 input2 e1)
    as [[G ->]|[(G & T & ->)|[(G & T & D & ->)|(_ & _ & D & _)]]];
    cbn [fst snd].
  - split; [tauto|]. split; [congruence|]. tauto.
  - split; [tauto|]. split; [rewrite Hs in T; lia|]. tauto.
  - tauto.
  - rewrite Hl in D. lia.
Qed.

Lemma drop_throttle_witness :
  let e1 := (processInput (demo_env 5000) demo_input demo_engine).1 in
  (processInput (demo_env 5499) demo_input e1).2 = Failure "Dropping too fast" /\
  fruits (processInput (demo_env 5499) demo_input e1).1 = fruits e1.
Proof.
  intros e1.
  assert (H : exists evs,
             (processInput (demo_env 5000) demo_input demo_engine).2 = Success evs)
    by (vm_compute; eexists; reflexivity).
  destruct H as [evs H].
  assert (Hd : date_now_2 (demo_env 5499) - date_now_2 (demo_env 5000)
               < MIN_DROP_INTERVAL_MS) by reflexivity.
  pose proof (drop_throttle (demo_env 5000) demo_input (demo_env 5499) demo_input
                demo_engine evs H Hd) as (_ & H2 & H3 & _).
  fold e1 in H2, H3. split; [|exact H3].
  rewrite H2; [reflexivity|vm_compute; reflexivity|reflexivity].
Defined.

Lemma run_snoc calls call e : run (calls ++ [call]) e = step (run calls e) call.
Proof. unfold run. rewrite fold_left_app. reflexivity. Qed.

Lemma step_cases e call :
  step e call = e \/ step e call = with_isGameOver true e \/
  exists evs, (processInput call.1 call.2 e).2 = Success evs.
Proof.
  unfold step. destruct call as [env input]. cbn [fst snd].
  destruct (processInput_cases env input e)
    as [[_ ->]|[(_ & _ & ->)|[(_ & _ & _ & ->)|(_ & _ & _ & ->)]]];
    cbn [fst snd]; eauto.
Qed.

(** X3.  A session that has ended stays ended: every further call of
    [processInput] is rejected with 'Game is already over' and returns the
    engine as it was, so any run of calls leaves the engine unchanged, and
    every snapshot read later reports the game as over. *)
Theorem terminal_absorbing calls e :
  isGameOver e = true ->
  run calls e = e /\
  Forall (fun call => processInput call.1 call.2 e = (e, Failure "Game is already over"))
         calls /\
  forall env, gs_isGameOver (getState env e).2 = true.
Proof.
  intros G.
  assert (S : forall call,
             processInput call.1 call.2 e = (e, Failure "Game is already over")).
  { intros call. unfold processInput. rewrite G. reflexivity. }
  split; [|split].
  - induction calls as [|call calls IH] using rev_ind; [reflexivity|].
    rewrite run_snoc, IH. unfold step. rewrite S. reflexivity.
  - apply Forall_forall. intros call _. apply S.
  - intros env. unfold getState. cbn [snd gs_isGameOver].
    destruct (decay_frame (date_now_2 env) e) as (_ & _ & -> & _).
    rewrite G. reflexivity.
Qed.

Lemma terminal_absorbing_witness :
  run [(demo_env 5000, demo_input); (demo_env 6000, demo_input)] over_engine
    = over_engine /\
  gs_isGameOver (getState (demo_env 6000) over_engine).2 = true.
Proof.
  pose proof (terminal_absorbing
                [(demo_env 5000, demo_input); (demo_env 6000, demo_input)]
                over_engine eq_refl) as (H1 & _ & H3).
  split; [exact H1|apply H3].
Defined.

(** X4.  The input history is append-only along any run of calls: the
    history before the run is a prefix of the history after it, it grows by
    exactly as many entries as the drop counter grows, and by at most one
    entry per call.  The session id and the start time never change. *)
Theorem history_append_only calls e :
  inputHistory e `prefix_of` inputHistory (run calls e) /\
  (dropCount (run calls e) + length (inputHistory e)
     = dropCount e + length (inputHistory (run calls e)))%nat /\
  (length (inputHistory (run calls e)) <= length (inputHistory e) + length calls)%nat /\
  sessionId (run calls e) = sessionId e /\ startTime (run calls e) = startTime e.
Proof.
  induction calls as [|call calls (IH1 & IH2 & IH3 & IH4 & IH5)] using rev_ind.
  - repeat split; [reflexivity|simpl; lia].
  - rewrite run_snoc, length_app. simpl length. set (e1 := run calls e) in *.
    destruct (step_cases e1 call) as [->|[->|[evs H]]].
    + repeat split; [assumption..|lia|assumption|assumption].
    + repeat split; [assumption..|simpl; lia|assumption|assumption].
    + destruct call as [env input]. unfold step. cbn [fst snd] in *.
      destruct (accepted_fields env input e1 evs H) as (-> & -> & _).
      assert (S1 : sessionId (processInput env input e1).1 = sessionId e1 /\
                   startTime (processInput env input e1).1 = startTime e1).
      { destruct (accepted_result env input e1 evs H) as [-> _].
        destruct (accepted_log env input e1) as (L1 & _).
        destruct (decay_log (date_now_2 env) e1) as (D1 & _).
        destruct (accepted_check env input e1) as (_ & _ & C1).
        rewrite L1, C1, check_startTime. split; [exact D1|reflexivity]. }
      destruct S1 as [-> ->].
      rewrite length_app. simpl length. repeat split; [|lia|lia|assumption..].
      etrans; [exact IH1|]. apply prefix_app_r. reflexivity.
Qed.

Lemma scripted_new env sid loadout : scripted (new_GameEngine env sid loadout).
Proof.
  repeat split.
  - intros t [= <-]. reflexivity.
  - intros t [= <-]. reflexivity.
  - intros i inp H. destruct i; discriminate H.
Qed.

Lemma scripted_step e call : scripted e -> scripted (step e call).
Proof.
  intros (Hc & Hn & Hq & Hh).
  destruct (step_cases e call) as [->|[->|[evs H]]]; [repeat split; assumption..|].
  destruct call as [env input]. unfold step. cbn [fst snd] in *.
  destruct (accepted_fields env input e evs H) as (Eh & Ec & _ & En & Eq).
  unfold scripted. rewrite Eh, Ec, En, Eq, length_app. simpl length.
  split; [lia|]. split; [exact Hq|]. split.
  - intros t Ht. unfold getNextFromSequence.
    replace (S (dropCount e) + 1)%nat with (S (S (dropCount e))) by lia.
    rewrite Ht. reflexivity.
  - intros i inp Hi Hlt.
    destruct (decide (i < length (inputHistory e))%nat) as [Hlt'|Hge].
    + rewrite lookup_app_l in Hi by exact Hlt'. exact (Hh i inp Hi Hlt).
    + rewrite lookup_app_r in Hi by lia.
      destruct (i - length (inputHistory e))%nat eqn:Ei; [|destruct n; discriminate Hi].
      injection Hi as <-. cbn [logged gi_fruitType].
      assert (i = dropCount e) as -> by lia.
      destruct (lookup_lt_is_Some_2 INITIAL_SEQUENCE (dropCount e) Hlt) as [t Et].
      rewrite Et, (Hn t Et). reflexivity.
Qed.

Lemma scripted_run calls e : scripted e -> scripted (run calls e).
Proof.
  intros H. induction calls as [|call calls IH] using rev_ind; [exact H|].
  rewrite run_snoc. apply scripted_step, IH.
Qed.

(** X5.  Whatever [Math.random()] returns and whatever the inputs are, the
    first four fruits a new engine drops are cherry, cherry, strawberry,
    grape: the tiers logged in the first four entries of the input history
    are the entries of INITIAL_SEQUENCE, the drop counter is the length of
    the history, and before each of the first four drops the next tier (and,
    before the first three, the queued tier) is the scripted one. *)
Theorem opening_sequence env sid loadout calls :
  let e := run calls (new_GameEngine env sid loadout) in
  map gi_fruitType (take 4 (inputHistory e))
    = take (length (inputHistory e)) (map Some INITIAL_SEQUENCE) /\
  dropCount e = length (inputHistory e) /\
  (dropCount e = 0%nat -> nextFruit e = cherry /\ queuedFruit e = cherry) /\
  (dropCount e = 1%nat -> nextFruit e = cherry /\ queuedFruit e = strawberry) /\
  (dropCount e = 2%nat -> nextFruit e = strawberry /\ queuedFruit e = grape) /\
  (dropCount e = 3%nat -> nextFruit e = grape).
Proof.
  intros e.
  destruct (scripted_run calls _ (scripted_new env sid loadout)) as (Hc & Hn & Hq & Hh).
  fold e in Hc, Hn, Hq, Hh.
  split; [|split; [exact Hc|]].
  - apply list_eq. intros i. rewrite list_lookup_fmap.
    destruct (decide (i < 4)%nat) as [Hi|Hi].
    + rewrite lookup_take_lt by exact Hi.
      destruct (inputHistory e !! i) as [inp|] eqn:Ei.
      * rewrite lookup_take_lt by (apply lookup_lt_Some in Ei; exact Ei).
        rewrite list_lookup_fmap. simpl. rewrite (Hh i inp Ei Hi).
        destruct (gi_fruitType inp) eqn:Eg.
        -- reflexivity.
        -- rewrite <- (Hh i inp Ei Hi) in Eg. apply lookup_ge_None in Eg.
           simpl in Eg. lia.
      * simpl. symmetry. apply lookup_ge_None. rewrite length_take.
        apply lookup_ge_None in Ei. lia.
    + rewrite lookup_take_ge by lia. simpl. symmetry. apply lookup_ge_None.
      rewrite length_take. simpl. lia.
  - split; [|split; [|split]]; intros E; rewrite E in Hn, Hq;
      first [split; [apply Hn; reflexivity | apply Hq; reflexivity]
            |apply Hn; reflexivity].
Qed.

(** *** Conservation: what a merge removes and adds *)

Lemma pairs_lt n a b : (a, b) ∈ pairs n -> (a < b < n)%nat.
Proof.
  unfold pairs. intros H.
  apply list_elem_of_bind in H as (a' & H & Ha).
  apply list_elem_of_bind in H as (b' & H & Hb).
  apply list_elem_of_singleton in H. injection H as -> ->.
  apply elem_of_seq in Ha, Hb. lia.
Qed.

Lemma pairs_Forall n : Forall (fun ab => (ab.1 < ab.2)%nat) (pairs n).
Proof.
  apply Forall_forall. intros [a b] H. apply pairs_lt in H. simpl. lia.
Qed.

Lemma marked_app R l1 l2 : marked R (l1 ++ l2) = (marked R l1 + marked R l2)%nat.
Proof. unfold marked. rewrite filter_app, length_app. reflexivity. Qed.

Lemma marked_cons R x l :
  marked R (x :: l) = ((if bool_decide (x ∈ R) then 1 else 0) + marked R l)%nat.
Proof.
  unfold marked. destruct (bool_decide_reflect (x ∈ R)) as [H|H].
  - rewrite filter_cons_True by exact H. reflexivity.
  - rewrite filter_cons_False by exact H. reflexivity.
Qed.

Lemma marked_mono R R' l : R ⊆ R' -> (marked R l <= marked R' l)%nat.
Proof.
  intros HR. induction l as [|x l IH]; [reflexivity|].
  rewrite !marked_cons.
  destruct (bool_decide_reflect (x ∈ R)) as [H|H];
    destruct (bool_decide_reflect (x ∈ R')) as [H'|H']; try lia.
  exfalso. apply H', HR, H.
Qed.

(** Marking two fruits at different indices, neither marked before, marks
    at least two more. *)
Lemma marked_two R l a b x y :
  l !! a = Some x -> l !! b = Some y -> (a < b)%nat -> x ∉ R -> y ∉ R ->
  (marked R l + 2 <= marked ({[ x ]} ∪ ({[ y ]} ∪ R)) l)%nat.
Proof.
  intros Ha Hb Hab Hx Hy.
  rewrite <- (take_drop_middle l a x Ha).
  assert (Hb' : drop (S a) l !! (b - S a)%nat = Some y).
  { rewrite lookup_drop. replace (S a + (b - S a))%nat with b by lia. exact Hb. }
  rewrite <- (take_drop_middle _ _ y Hb').
  set (R' := {[ x ]} ∪ ({[ y ]} ∪ R)).
  assert (HR : R ⊆ R') by set_solver.
  rewrite !marked_app, !marked_cons, !marked_app, !marked_cons.
  rewrite (bool_decide_eq_false_2 _ Hx), (bool_decide_eq_false_2 _ Hy).
  rewrite (bool_decide_eq_true_2 (x ∈ R')) by set_solver.
  rewrite (bool_decide_eq_true_2 (y ∈ R')) by set_solver.
  pose proof (marked_mono R R' (take a l) HR).
  pose proof (marked_mono R R' (take (b - S a) (drop (S a) l)) HR).
  pose proof (marked_mono R R' (drop (S (b - S a)) (drop (S a) l)) HR).
  lia.
Qed.

Lemma kept_marked (R : gset string) (fs : list Fruit) :
  (length (filter (fun f => f_id f ∉ R) fs) + marked R (map f_id fs) = length fs)%nat.
Proof.
  induction fs as [|f fs IH]; [reflexivity|].
  cbn [map]. rewrite marked_cons. destruct (bool_decide_reflect (f_id f ∈ R)) as [H|H].
  - rewrite filter_cons_False by (intros H'; exact (H' H)). simpl length. lia.
  - rewrite filter_cons_True by exact H. simpl length. lia.
Qed.

Lemma kept_ids (R : gset string) (fs : list Fruit) :
  map f_id (filter (fun f => f_id f ∉ R) fs) = filter (fun i => i ∉ R) (map f_id fs).
Proof.
  induction fs as [|f fs IH]; [reflexivity|].
  cbn [map]. destruct (decide (f_id f ∈ R)) as [H|H].
  - rewrite !filter_cons_False by (intros H'; exact (H' H)). exact IH.
  - rewrite !filter_cons_True by exact H. cbn [map]. rewrite IH. reflexivity.
Qed.

Lemma marked_NoDup (R : gset string) l : NoDup l -> (marked R l <= size R)%nat.
Proof.
  intros Hl. unfold marked.
  rewrite <- (size_list_to_set (C := gset string) (filter (fun i => i ∈ R) l))
    by (apply NoDup_filter, Hl).
  apply subseteq_size. intros i Hi. apply elem_of_list_to_set in Hi.
  apply list_elem_of_filter in Hi. tauto.
Qed.

Lemma size_add (x : string) (R : gset string) : (size ({[ x ]} ∪ R) <= S (size R))%nat.
Proof.
  rewrite size_union_alt, size_singleton.
  apply le_n_S, subseteq_size, subseteq_difference_l. reflexivity.
Qed.

Lemma resolveCollision_id fruitA fruitB dx dy distance minDist :
  let r := resolveCollision fruitA fruitB dx dy distance minDist in
  f_id r.1 = f_id fruitA /\ f_id r.2 = f_id fruitB.
Proof. unfold resolveCollision. destruct (_ <? _)%float; split; reflexivity. Qed.

Lemma collide_ids s a b fruitA fruitB :
  fruits (eng s) !! a = Some fruitA -> fruits (eng s) !! b = Some fruitB ->
  map f_id (fruits (eng (collide s a b fruitA fruitB))) = map f_id (fruits (eng s)).
Proof.
  intros Ha Hb. unfold collide.
  match goal with
  | |- context [resolveCollision ?A ?B ?dx ?dy ?d ?m] =>
      pose proof (resolveCollision_id A B dx dy d m) as [Ea Eb];
      destruct (resolveCollision A B dx dy d m) as [fa fb]
  end.
  cbn [fst snd] in Ea, Eb. cbn [eng fruits with_fruits].
  change (map f_id ?l) with (f_id <$> l).
  rewrite !list_fmap_insert, Ea, Eb.
  rewrite (list_insert_id (f_id <$> fruits (eng s)) a)
    by (rewrite list_lookup_fmap, Ha; reflexivity).
  apply list_insert_id. rewrite list_lookup_fmap, Hb. reflexivity.
Qed.

Lemma pairStep_tally env now evs0 k0 I s a b :
  (a < b)%nat -> tally env evs0 k0 I s -> tally env evs0 k0 I (pairStep env now s (a, b)).
Proof.
  intros Hab T. unfold pairStep.
  destruct (fruits (eng s) !! a) as [fruitA|] eqn:La; [|exact T].
  destruct (fruits (eng s) !! b) as [fruitB|] eqn:Lb; [|exact T].
  assert (C : tally env evs0 k0 I (collide s a b fruitA fruitB)).
  { destruct T as (T1 & T2 & T3 & T4 & T5 & T6).
    pose proof (collide_frame s a b fruitA fruitB) as F. cbv zeta in F.
    destruct F as (F1 & F2 & F3 & F4 & _).
    unfold tally. rewrite (collide_ids s a b fruitA fruitB La Lb), F1, F2, F3, F4.
    repeat split; assumption. }
  destruct (bool_decide_reflect (f_id fruitA ∈ toRemove s)) as [Ra|Ra]; [exact T|].
  destruct (bool_decide_reflect (f_id fruitB ∈ toRemove s)) as [Rb|Rb]; [exact T|].
  cbn [orb]. destruct (overlapping _ _); [|exact T].
  destruct (_ && _); [|exact C].
  destruct (_ || _); [exact C|].
  destruct (nextType _) as [nt|]; [|exact T].
  destruct T as (T1 & T2 & T3 & T4 & T5 & T6).
  unfold tally, merge. cbn [eng fruits with_merge toAdd toRemove mergeEvents uuids f_id].
  rewrite !length_app. cbn [length]. repeat split.
  - exact T1.
  - lia.
  - lia.
  - rewrite map_app, Nat.add_1_r, seq_S, map_app, T4, T3. reflexivity.
  - assert (Ia : I !! a = Some (f_id fruitA))
      by (rewrite <- T1; change (map f_id ?l) with (f_id <$> l);
          rewrite list_lookup_fmap, La; reflexivity).
    assert (Ib : I !! b = Some (f_id fruitB))
      by (rewrite <- T1; change (map f_id ?l) with (f_id <$> l);
          rewrite list_lookup_fmap, Lb; reflexivity).
    pose proof (marked_two (toRemove s) I a b _ _ Ia Ib Hab Ra Rb). lia.
  - pose proof (size_add (f_id fruitA) ({[f_id fruitB]} ∪ toRemove s)).
    pose proof (size_add (f_id fruitB) (toRemove s)). lia.
Qed.

Lemma fold_pairStep_tally env now evs0 k0 I ps s :
  Forall (fun ab => (ab.1 < ab.2)%nat) ps -> tally env evs0 k0 I s ->
  tally env evs0 k0 I (fold_left (pairStep env now) ps s).
Proof.
  intros Hps. revert s.
  induction Hps as [|[a b] ps Hab _ IH]; intros s T; simpl; [exact T|].
  apply IH, pairStep_tally; assumption.
Qed.

Lemma integrate_ids fs : map f_id (map integrate fs) = map f_id fs.
Proof.
  rewrite map_map. apply map_ext. intros f. unfold integrate.
  repeat destruct (_ <? _)%float; reflexivity.
Qed.

(** The scan of one iteration, with its bookkeeping. *)
Lemma iteration_scan env now e evs k :
  exists s,
    iteration env now (e, evs, k)
      = (with_fruits (filter (fun f => f_id f ∉ toRemove s) (fruits (eng s)) ++ toAdd s)
           (eng s),
         mergeEvents s, uuids s) /\
    tally env evs k (map f_id (fruits e)) s.
Proof.
  eexists. split; [reflexivity|].
  apply fold_pairStep_tally; [apply pairs_Forall|].
  unfold tally. cbn [eng fruits with_fruits toAdd toRemove mergeEvents uuids length].
  rewrite integrate_ids, size_empty. repeat split; simpl; lia.
Qed.

Lemma iteration_count env now st :
  let st' := iteration env now st in
  (length (fruits st'.1.1) + length st'.1.2 <= length (fruits st.1.1) + length st.1.2)%nat.
Proof.
  destruct st as [[e evs] k]. cbn [fst snd].
  destruct (iteration_scan env now e evs k) as (s & -> & T1 & T2 & _ & _ & T5 & _).
  cbn [fst snd]. rewrite fruits_with_fruits, length_app.
  pose proof (kept_marked (toRemove s) (fruits (eng s))) as K. rewrite T1 in K.
  assert (length (fruits (eng s)) = length (fruits e)) as L
    by (rewrite <- (length_map f_id), T1, length_map; reflexivity).
  lia.
Qed.

Lemma iteration_fresh env now e evs k :
  Inj (=) (=) (uuidv4 env) -> fresh_ids env k e ->
  let st' := iteration env now (e, evs, k) in
  (length (fruits st'.1.1) + length st'.1.2 = length (fruits e) + length evs)%nat /\
  (st'.2 + length evs = k + length st'.1.2)%nat /\
  fresh_ids env st'.2 st'.1.1.
Proof.
  intros Hinj [Hnd Hfr].
  destruct (iteration_scan env now e evs k) as (s & -> & T1 & T2 & T3 & T4 & T5 & T6).
  cbn [fst snd]. unfold fresh_ids.
  rewrite fruits_with_fruits, length_app, map_app, kept_ids, T1, T4.
  pose proof (kept_marked (toRemove s) (fruits (eng s))) as K. rewrite T1 in K.
  assert (length (fruits (eng s)) = length (fruits e)) as L
    by (rewrite <- (length_map f_id), T1, length_map; reflexivity).
  pose proof (marked_NoDup (toRemove s) _ Hnd) as M.
  split; [lia|]. split; [lia|]. split.
  - apply NoDup_app. split; [apply NoDup_filter, Hnd|]. split.
    + intros i Hi Hu. apply list_elem_of_filter in Hi as [_ Hi].
      change (map ?f ?l) with (f <$> l) in Hu.
      apply list_elem_of_fmap in Hu as (j & -> & Hj). apply elem_of_seq in Hj.
      apply (Hfr j); [lia|exact Hi].
    + change (map ?f ?l) with (f <$> l). apply NoDup_fmap_2; [exact Hinj|apply NoDup_seq].
  - intros j Hj Hin. apply elem_of_app in Hin as [Hin|Hin].
    + apply list_elem_of_filter in Hin as [_ Hin]. apply (Hfr j); [lia|exact Hin].
    + change (map ?f ?l) with (f <$> l) in Hin.
      apply list_elem_of_fmap in Hin as (j' & E & Hj'). apply Hinj in E. subst j'.
      apply elem_of_seq in Hj'. lia.
Qed.

(** Every merge event of a call of [simulatePhysics] costs at least one
    fruit. *)
Lemma simulatePhysics_count env now e k :
  let st := simulatePhysics env now e k in
  (length (fruits st.1.1) + length st.1.2 <= length (fruits e))%nat.
Proof.
  unfold simulatePhysics. generalize iterations. intros n.
  induction n as [|n IH]; [simpl; lia|].
  rewrite Nat.iter_succ.
  pose proof (iteration_count env now (Nat.iter n (iteration env now) (e, [], k))) as H.
  cbv zeta in H. lia.
Qed.

(** With distinct identifiers it costs exactly one. *)
Lemma simulatePhysics_fresh env now e k :
  Inj (=) (=) (uuidv4 env) -> fresh_ids env k e ->
  let st := simulatePhysics env now e k in
  (length (fruits st.1.1) + length st.1.2 = length (fruits e))%nat /\
  st.2 = (k + length st.1.2)%nat /\
  fresh_ids env st.2 st.1.1.
Proof.
  intros Hinj Hf. unfold simulatePhysics. generalize iterations. intros n.
  induction n as [|n (IH1 & IH2 & IH3)];
    [split; [simpl; lia|split; [simpl; lia|exact Hf]]|].
  rewrite Nat.iter_succ. destruct (Nat.iter n _ _) as [[e1 evs] j].
  cbn [fst snd] in IH1, IH2, IH3.
  pose proof (iteration_fresh env now e1 evs j Hinj IH3) as (H1 & H2 & H3).
  split; [lia|]. split; [lia|exact H3].
Qed.

Lemma spawn_fruits env input now e :
  fruits (spawn env input now e)
    = fruits e ++
        [{| f_id := uuidv4 env 0; f_type := nextFruit e;
            f_x := Math_max (cfg_radius (FRUIT_CONFIGS (nextFruit e)))
                     (Math_min (CONTAINER_WIDTH - cfg_radius (FRUIT_CONFIGS (nextFruit e)))
                        (gi_x input * CONTAINER_WIDTH))%float;
            f_y := DROP_ZONE_HEIGHT; f_vx := 0; f_vy := 0;
            f_radius := cfg_radius (FRUIT_CONFIGS (nextFruit e));
            f_skinId := str_or_none (skinLoadout e (nextFruit e));
            f_dropTime := now |}].
Proof. reflexivity. Qed.

Lemma checkOverflow_fruits now e : fruits (checkOverflow now e) = fruits e.
Proof. apply checkOverflow_spec. Qed.

Lemma checkOverflow_score now e : score (checkOverflow now e) = score e.
Proof.
  unfold checkOverflow. destruct (hasOverflow e); [|reflexivity].
  destruct (overflowStartTime e); [|reflexivity]. destruct (_ <=? _); reflexivity.
Qed.

Lemma decay_fruits now e : fruits (decay now e) = fruits e.
Proof. apply decay_frame. Qed.

(** X6.  Merge conservation.  When the identifiers of the fruits are
    pairwise distinct and [uuidv4()] returns identifiers that are new and
    pairwise distinct, an accepted drop that returns n merge events changes
    the number of fruits by exactly 1 - n: the drop adds one fruit and each
    merge removes two and adds one.  The identifiers are pairwise distinct
    afterwards as well, the drop having drawn 1 + n of them. *)
Theorem drop_conservation env input e evs :
  Inj (=) (=) (uuidv4 env) -> fresh_ids env 0 e ->
  (processInput env input e).2 = Success evs ->
  let e' := (processInput env input e).1 in
  (length (fruits e') + length evs = S (length (fruits e)))%nat /\
  fresh_ids env (S (length evs)) e'.
Proof.
  intros Hinj [Hnd Hfr] Hacc.
  destruct (accepted_result env input e evs Hacc) as [-> ->].
  set (now := date_now_2 env). set (sp := spawn env input now (decay now e)).
  assert (Hsp : fresh_ids env 1 sp).
  { unfold fresh_ids, sp. rewrite spawn_fruits, decay_fruits, map_app.
    cbn [map f_id]. split.
    - apply NoDup_app. split; [exact Hnd|]. split; [|apply NoDup_singleton].
      intros i Hi Hu. apply list_elem_of_singleton in Hu. subst i.
      apply (Hfr 0%nat); [lia|exact Hi].
    - intros j Hj Hin. apply elem_of_app in Hin as [Hin|Hin].
      + apply (Hfr j); [lia|exact Hin].
      + apply list_elem_of_singleton, Hinj in Hin. lia. }
  pose proof (simulatePhysics_fresh env now sp 1 Hinj Hsp) as (H1 & H2 & H3).
  unfold fresh_ids in *. rewrite checkOverflow_fruits, H2 in *.
  split; [|exact H3].
  rewrite H1. unfold sp. rewrite spawn_fruits, decay_fruits, length_app.
  cbn [length]. lia.
Qed.

(** The two settled cherries and the cherry dropped on them at time 5000:
    one merge, so two fruits afterwards. *)
Lemma drop_conservation_witness :
  let r := processInput (demo_env 5000) demo_input demo_engine in
  exists evs, r.2 = Success evs /\ length evs = 1%nat /\ length (fruits r.1) = 2%nat.
Proof.
  intros r.
  assert (Hinj : Inj (=) (=) (uuidv4 (demo_env 5000))).
  { intros i j H. cbn in H. injection H as H. exact (pretty_nat_inj _ _ H). }
  assert (Hfr : fresh_ids (demo_env 5000) 0 demo_engine).
  { split.
    - cbn. apply NoDup_cons. split; [|apply NoDup_singleton].
      intros H. apply list_elem_of_singleton in H. discriminate H.
    - intros j _ H. cbn in H. rewrite !elem_of_cons, elem_of_nil in H.
      destruct H as [H|[H|[]]]; discriminate H. }
  assert (H : exists evs, r.2 = Success evs /\ length evs = 1%nat)
    by (vm_compute; eexists; split; reflexivity).
  destruct H as (evs & H & Hl). exists evs. split; [exact H|]. split; [exact Hl|].
  pose proof (drop_conservation (demo_env 5000) demo_input demo_engine evs Hinj Hfr H)
    as [Hc _].
  fold r in Hc. rewrite Hl in Hc. cbn [demo_engine fruits with_fruits length] in Hc. lia.
Defined.

Lemma step_count e call :
  (length (fruits (step e call)) + dropCount e
     <= length (fruits e) + dropCount (step e call))%nat.
Proof.
  destruct (step_cases e call) as [->|[->|[evs H]]]; [simpl; lia..|].
  destruct call as [env input]. unfold step. cbn [fst snd] in *.
  destruct (accepted_fields env input e evs H) as (_ & -> & _).
  destruct (accepted_result env input e evs H) as [-> _].
  rewrite checkOverflow_fruits.
  pose proof (simulatePhysics_count env (date_now_2 env)
                (spawn env input (date_now_2 env) (decay (date_now_2 env) e)) 1) as C.
  cbv zeta in C. rewrite spawn_fruits, decay_fruits, length_app in C.
  cbn [length] in C. lia.
Qed.

(** X7.  With no assumption on the identifiers: along any run of calls the
    number of fruits grows by at most the number of accepted drops (no call
    ever adds more than the one fruit it drops, and no merge ever adds a
    fruit without removing at least two); a new engine never holds more
    fruits than it has accepted drops. *)
Theorem fruit_count_bound calls e :
  (length (fruits (run calls e)) + dropCount e
     <= length (fruits e) + dropCount (run calls e))%nat /\
  (forall env sid loadout,
     length (fruits (run calls (new_GameEngine env sid loadout)))
       <= dropCount (run calls (new_GameEngine env sid loadout)))%nat.
Proof.
  assert (H : forall e, (length (fruits (run calls e)) + dropCount e
                         <= length (fruits e) + dropCount (run calls e))%nat).
  { clear e. intros e. induction calls as [|call calls IH] using rev_ind; [simpl; lia|].
    rewrite run_snoc. pose proof (step_count (run calls e) call). lia. }
  split; [apply H|]. intros env sid loadout.
  specialize (H (new_GameEngine env sid loadout)).
  change (fruits (new_GameEngine env sid loadout)) with (@nil Fruit) in H.
  change (dropCount (new_GameEngine env sid loadout)) with 0%nat in H.
  cbn [length] in H. lia.
Qed.

(** *** Radius and skin *)

Lemma integrate_dressed sk f : dressed sk f -> dressed sk (integrate f).
Proof. unfold dressed, integrate. repeat destruct (_ <? _)%float; simpl; trivial. Qed.

Lemma resolveCollision_dressed sk fruitA fruitB dx dy distance minDist :
  dressed sk fruitA -> dressed sk fruitB ->
  let r := resolveCollision fruitA fruitB dx dy distance minDist in
  dressed sk r.1 /\ dressed sk r.2.
Proof.
  unfold dressed, resolveCollision. intros Ha Hb. destruct (_ <? _)%float; simpl; tauto.
Qed.

Lemma collide_dressed sk s a b fruitA fruitB :
  dressed sk fruitA -> dressed sk fruitB ->
  scan_dressed sk s -> scan_dressed sk (collide s a b fruitA fruitB).
Proof.
  intros Da Db (Hs & Hf & Ht). unfold collide.
  match goal with
  | |- context [resolveCollision ?A ?B ?dx ?dy ?d ?m] =>
      pose proof (resolveCollision_dressed sk A B dx dy d m Da Db) as [Ea Eb];
      destruct (resolveCollision A B dx dy d m) as [fa fb]
  end.
  cbn [fst snd] in Ea, Eb. split; [exact Hs|]. split; [|exact Ht].
  cbn [eng fruits with_fruits]. apply Forall_insert; [apply Forall_insert|]; assumption.
Qed.

Lemma pairStep_dressed env now sk s ab :
  scan_dressed sk s -> scan_dressed sk (pairStep env now s ab).
Proof.
  intros H. unfold pairStep. destruct ab as [a b].
  destruct (fruits (eng s) !! a) as [fruitA|] eqn:La; [|exact H].
  destruct (fruits (eng s) !! b) as [fruitB|] eqn:Lb; [|exact H].
  assert (Da : dressed sk fruitA).
  { destruct H as (_ & Hf & _). eapply Forall_forall in Hf; [exact Hf|].
    eapply list_elem_of_lookup_2, La. }
  assert (Db : dressed sk fruitB).
  { destruct H as (_ & Hf & _). eapply Forall_forall in Hf; [exact Hf|].
    eapply list_elem_of_lookup_2, Lb. }
  pose proof (collide_dressed sk s a b fruitA fruitB Da Db H) as C.
  destruct (_ || _); [exact H|].
  destruct (overlapping _ _); [|exact H].
  destruct (_ && _); [|exact C].
  destruct (_ || _); [exact C|].
  destruct (nextType _) as [nt|]; [|exact H].
  destruct H as (Hs & Hf & Ht). unfold merge.
  split; [exact Hs|]. split; [exact Hf|].
  cbn [toAdd]. apply Forall_app. split; [exact Ht|].
  constructor; [|constructor]. rewrite <- Hs. split; reflexivity.
Qed.

Lemma fold_pairStep_dressed env now sk ps s :
  scan_dressed sk s -> scan_dressed sk (fold_left (pairStep env now) ps s).
Proof.
  revert s. induction ps as [|ab ps IH]; intros s H; simpl; [exact H|].
  apply IH, pairStep_dressed, H.
Qed.

Lemma simulatePhysics_dressed env now e k :
  Forall (dressed (skinLoadout e)) (fruits e) ->
  Forall (dressed (skinLoadout e)) (fruits (simulatePhysics env now e k).1.1).
Proof.
  intros H.
  assert (G : let st := simulatePhysics env now e k in
              skinLoadout st.1.1 = skinLoadout e /\
              Forall (dressed (skinLoadout e)) (fruits st.1.1)); [|apply G].
  unfold simulatePhysics. generalize iterations. intros n.
  induction n as [|n IH]; [split; [reflexivity|exact H]|].
  rewrite Nat.iter_succ. destruct (Nat.iter n _ _) as [[e1 evs] j].
  cbn [fst snd] in IH. destruct IH as [Hs Hf]. unfold iteration.
  match goal with
  | |- context [fold_left (pairStep env now) ?ps ?s0] =>
      pose proof (fold_pairStep_dressed env now (skinLoadout e) ps s0) as Q;
      set (s := fold_left (pairStep env now) ps s0) in *
  end.
  destruct Q as (Qs & Qf & Qt).
  { split; [exact Hs|]. split; [|constructor].
    cbn [eng fruits with_fruits]. apply Forall_fmap.
    eapply Forall_impl; [exact Hf|]. apply integrate_dressed. }
  cbn [fst snd]. split; [exact Qs|]. rewrite fruits_with_fruits.
  apply Forall_app. split; [|exact Qt].
  apply Forall_forall. intros f Hin. apply list_elem_of_filter in Hin as [_ Hin].
  eapply Forall_forall in Qf; [exact Qf|exact Hin].
Qed.

Lemma step_dressed e call :
  Forall (dressed (skinLoadout e)) (fruits e) ->
  skinLoadout (step e call) = skinLoadout e /\
  Forall (dressed (skinLoadout e)) (fruits (step e call)).
Proof.
  intros H. destruct (step_cases e call) as [->|[->|[evs Hacc]]];
    [split; [reflexivity|exact H]..|].
  destruct call as [env input]. unfold step. cbn [fst snd] in *.
  destruct (accepted_log env input e) as (_ & _ & _ & _ & _ & _ & L).
  destruct (accepted_result env input e evs Hacc) as [E _].
  rewrite E, L, checkOverflow_fruits.
  set (now := date_now_2 env).
  destruct (decay_log now e) as (_ & _ & _ & _ & _ & _ & Ld).
  assert (Ls : skinLoadout (spawn env input now (decay now e)) = skinLoadout e)
    by exact Ld.
  split; [exact Ls|]. rewrite <- Ls. apply simulatePhysics_dressed.
  rewrite Ls, spawn_fruits, decay_fruits, Ld. apply Forall_app. split; [exact H|].
  constructor; [|constructor]. split; reflexivity.
Qed.

(** X8.  Every fruit the engine holds has the radius FRUIT_CONFIGS gives
    for its tier and wears the skin equipped for its tier: the drop and the
    merge create fruits so, and the physics never changes a tier, a radius
    or a skin.  For a new engine the skin is the non-empty skin id of the
    loadout row it was created with, and none if there is no row or the id
    is empty.  For any engine the loadout itself never changes. *)
Theorem fruits_dressed calls :
  (forall e, Forall (dressed (skinLoadout e)) (fruits e) ->
     skinLoadout (run calls e) = skinLoadout e /\
     Forall (dressed (skinLoadout e)) (fruits (run calls e))) /\
  (forall env sid loadout,
     let e := run calls (new_GameEngine env sid loadout) in
     Forall (fun f => f_radius f = cfg_radius (FRUIT_CONFIGS (f_type f)) /\
                      f_skinId f = match loadout with
                                   | Some l => str_or_none (l (f_type f))
                                   | None => None
                                   end) (fruits e)).
Proof.
  assert (G : forall e, Forall (dressed (skinLoadout e)) (fruits e) ->
     skinLoadout (run calls e) = skinLoadout e /\
     Forall (dressed (skinLoadout e)) (fruits (run calls e))).
  { intros e H. induction calls as [|call calls [IH1 IH2]] using rev_ind;
      [split; [reflexivity|exact H]|].
    rewrite run_snoc. rewrite <- IH1 in IH2.
    destruct (step_dressed (run calls e) call IH2) as [S1 S2].
    rewrite S1, IH1. split; [reflexivity|]. rewrite <- IH1. exact S2. }
  split; [exact G|]. intros env sid loadout e.
  destruct (G (new_GameEngine env sid loadout)) as [_ H]; [constructor|].
  fold e in H. eapply Forall_impl; [exact H|].
  intros f [H1 H2]. split; [exact H1|]. rewrite H2.
  destruct loadout as [l|]; [|reflexivity]. cbn [new_GameEngine skinLoadout].
  unfold str_or_none. destruct (l (f_type f)) as [s|]; [|reflexivity].
  destruct (bool_decide_reflect (s = ""%string)) as [Hs|Hs]; [reflexivity|].
  rewrite (bool_decide_eq_false_2 _ Hs). reflexivity.
Qed.

(** *** Walls *)

(** X9.  The fruit an accepted input spawns: it is appended to the fruits,
    has the next tier of the queue and that tier's radius, starts at rest at
    the height of the drop zone, and, when the scaled coordinate of the
    input is a number, lies with its whole disc between the side walls:
    radius <= x <= CONTAINER_WIDTH - radius, whatever x the input gave. *)
Theorem spawn_within_walls env input now e :
  is_nan (gi_x input * CONTAINER_WIDTH)%float = false ->
  exists f,
    fruits (spawn env input now e) = fruits e ++ [f] /\
    f_id f = uuidv4 env 0 /\ f_type f = nextFruit e /\
    f_radius f = cfg_radius (FRUIT_CONFIGS (nextFruit e)) /\
    f_y f = DROP_ZONE_HEIGHT /\ f_vx f = 0%float /\ f_vy f = 0%float /\
    f_dropTime f = now /\
    is_nan (f_x f) = false /\
    (f_radius f <=? f_x f)%float = true /\
    (f_x f <=? CONTAINER_WIDTH - f_radius f)%float = true.
Proof.
  intros Hv. eexists. split; [apply spawn_fruits|].
  cbn [f_id f_type f_radius f_y f_vx f_vy f_dropTime f_x].
  repeat (split; [reflexivity|]).
  apply clamp_range; [destruct (nextFruit e); reflexivity..|exact Hv|
                      destruct (nextFruit e); reflexivity].
Qed.

(** A drop aimed far to the right of the container lands against the right
    wall: a cherry, of radius 13, at x = 387. *)
Lemma spawn_within_walls_witness :
  let input := {| gi_x := 7; gi_timestamp := 0; gi_fruitType := None |} in
  exists f,
    fruits (spawn (demo_env 5000) input 5000 demo_engine) = fruits demo_engine ++ [f] /\
    f_x f = 387%float /\
    (f_radius f <=? f_x f)%float = true /\
    (f_x f <=? CONTAINER_WIDTH - f_radius f)%float = true.
Proof.
  intros input.
  destruct (spawn_within_walls (demo_env 5000) input 5000 demo_engine eq_refl)
    as (f & H1 & _ & _ & _ & _ & _ & _ & _ & _ & H2 & H3).
  exists f. split; [exact H1|]. split; [|split; assumption].
  vm_compute in H1. injection H1 as <-. reflexivity.
Defined.

(** X10.  The wall tests of the integration step leave a fruit that has the
    radius of its tier inside the container on three sides: after
    [integrate] none of the three tests holds any more (the two side tests
    do not undo each other, every radius being less than half the width).
    There is no test for the top. *)
Theorem integrate_within_walls f :
  f_radius f = cfg_radius (FRUIT_CONFIGS (f_type f)) ->
  let g := integrate f in
  (f_x g - f_radius g <? 0)%float = false /\
  (CONTAINER_WIDTH <? f_x g + f_radius g)%float = false /\
  (CONTAINER_HEIGHT <? f_y g + f_radius g)%float = false /\
  f_id g = f_id f /\ f_type g = f_type f /\ f_radius g = f_radius f /\
  f_dropTime g = f_dropTime f.
Proof.
  intros Hr. unfold integrate. rewrite Hr.
  set (vx := (f_vx f * (1 - FRICTION))%float).
  set (vy := ((f_vy f + GRAVITY) * (1 - FRICTION))%float).
  set (x0 := (f_x f + vx)%float). set (y0 := (f_y f + vy)%float).
  set (r := cfg_radius (FRUIT_CONFIGS (f_type f))).
  assert (R : (r - r <? 0)%float = false /\ (CONTAINER_WIDTH <? r + r)%float = false /\
              (CONTAINER_WIDTH - r - r <? 0)%float = false /\
              (CONTAINER_WIDTH <? CONTAINER_WIDTH - r + r)%float = false /\
              (CONTAINER_HEIGHT <? CONTAINER_HEIGHT - r + r)%float = false)
    by (unfold r; destruct (f_type f); repeat split; reflexivity).
  destruct R as (R1 & R2 & R3 & R4 & R5).
  destruct (x0 - r <? 0)%float eqn:C1.
  - rewrite R2. destruct (CONTAINER_HEIGHT <? y0 + r)%float eqn:C3;
      cbn [f_x f_y f_radius f_id f_type f_dropTime]; auto 10.
  - destruct (CONTAINER_WIDTH <? x0 + r)%float eqn:C2;
      destruct (CONTAINER_HEIGHT <? y0 + r)%float eqn:C3;
      cbn [f_x f_y f_radius f_id f_type f_dropTime]; auto 10.
Qed.

(** A cherry moving left at x = 5 is put back against the left wall. *)
Lemma integrate_within_walls_witness :
  let f := {| f_id := "c"; f_type := cherry; f_x := 5; f_y := 90; f_vx := -3;
              f_vy := 0; f_radius := 13; f_skinId := None; f_dropTime := 0 |} in
  f_x (integrate f) = 13%float /\
  (f_x (integrate f) - f_radius (integrate f) <? 0)%float = false.
Proof.
  intros f.
  destruct (integrate_within_walls f eq_refl) as (H & _).
  split; [vm_compute; reflexivity|exact H].
Defined.

(** *** Merges *)

(** X11.  The scan merges nothing else than two overlapping fruits of one
    tier below watermelon, both past their grace window and neither already
    consumed in this scan: whenever a step of the scan pushes an event, the
    two fruits at its indices are such fruits and the step is their merge
    into the next tier. *)
Theorem merge_requires env now s a b :
  mergeEvents (pairStep env now s (a, b)) <> mergeEvents s ->
  exists fruitA fruitB nt,
    fruits (eng s) !! a = Some fruitA /\ fruits (eng s) !! b = Some fruitB /\
    (f_id fruitA ∉ toRemove s) /\ (f_id fruitB ∉ toRemove s) /\
    overlapping fruitA fruitB = true /\
    f_type fruitA = f_type fruitB /\ f_type fruitA <> watermelon /\
    nextType (f_type fruitA) = Some nt /\
    INVINCIBILITY_MS <= now - f_dropTime fruitA /\
    INVINCIBILITY_MS <= now - f_dropTime fruitB /\
    pairStep env now s (a, b) = merge env now s fruitA fruitB nt.
Proof.
  unfold pairStep. intros H.
  destruct (fruits (eng s) !! a) as [fruitA|] eqn:La; [|contradiction].
  destruct (fruits (eng s) !! b) as [fruitB|] eqn:Lb; [|contradiction].
  pose proof (collide_frame s a b fruitA fruitB) as F. cbv zeta in F.
  destruct F as (F & _).
  destruct (bool_decide_reflect (f_id fruitA ∈ toRemove s)) as [Ra|Ra]; [contradiction|].
  destruct (bool_decide_reflect (f_id fruitB ∈ toRemove s)) as [Rb|Rb]; [contradiction|].
  cbn [orb] in *. destruct (overlapping fruitA fruitB) eqn:Ho; [|contradiction].
  destruct (bool_decide_reflect (f_type fruitA = f_type fruitB)) as [Et|Et];
    [|contradiction].
  destruct (bool_decide_reflect (f_type fruitA = watermelon)) as [Ew|Ew];
    [contradiction|]. cbn [andb negb orb] in *.
  destruct (Z.ltb_spec (now - f_dropTime fruitA) INVINCIBILITY_MS); [contradiction|].
  destruct (Z.ltb_spec (now - f_dropTime fruitB) INVINCIBILITY_MS); [contradiction|].
  cbn [orb] in *.
  destruct (nextType (f_type fruitA)) as [nt|] eqn:En; [|contradiction].
  exists fruitA, fruitB, nt. tauto.
Qed.

Lemma merge_requires_witness :
  exists fruitA fruitB,
    fruits (eng demo_scan) !! 0%nat = Some fruitA /\
    fruits (eng demo_scan) !! 1%nat = Some fruitB /\
    f_type fruitA = cherry /\ f_type fruitB = cherry /\
    pairStep (demo_env 2000) 2000 demo_scan (0%nat, 1%nat)
      = merge (demo_env 2000) 2000 demo_scan fruitA fruitB strawberry.
Proof.
  assert (H : mergeEvents (pairStep (demo_env 2000) 2000 demo_scan (0%nat, 1%nat))
              <> mergeEvents demo_scan) by (vm_compute; discriminate).
  destruct (merge_requires (demo_env 2000) 2000 demo_scan 0%nat 1%nat H)
    as (fruitA & fruitB & nt & Ha & Hb & _ & _ & _ & Et & _ & En & _ & _ & Hm).
  exists fruitA, fruitB. split; [exact Ha|]. split; [exact Hb|].
  cbn in Ha. injection Ha as <-. split; [reflexivity|]. split; [rewrite <- Et; reflexivity|].
  vm_compute in En. injection En as <-. exact Hm.
Defined.

(** *** Snapshots *)

Lemma decay_idem now e : decay now (decay now e) = decay now e.
Proof.
  unfold decay.
  destruct ((1 <? multiplier e) && (MULTIPLIER_DECAY_MS <? now - lastMergeTime e)) eqn:C.
  - reflexivity.
  - rewrite C. reflexivity.
Qed.

(** A snapshot reports the game as over once the session has ended or the
    game time has run out. *)
Lemma getState_over env e :
  gs_isGameOver (getState env e).2 = true <->
  isGameOver e = true \/ GAME_DURATION_MS <= date_now_1 env - startTime e.
Proof.
  unfold getState. cbn [snd gs_isGameOver].
  destruct (decay_frame (date_now_2 env) e) as (_ & _ & -> & _).
  rewrite orb_true_iff, Z.leb_le. unfold GAME_DURATION_MS.
  split; intros [H|H]; auto; right; lia.
Qed.

(** X12.  Reading a snapshot changes nothing in the engine but the
    multiplier, which may decay: fruits, score, queue, history, flags and
    clocks are as before, and a second read at the same time changes
    nothing more and returns the same snapshot.  The snapshot lists the
    fruits in order with their identifier, tier, position and skin, and
    carries the score and the queue of the engine.  Its time remaining is
    never negative, is at most the game duration when the clock is not
    before the start, and is 0 exactly when the game time has run out; it
    reports the game as over exactly when the session has ended or the time
    remaining is 0. *)
Theorem getState_snapshot env e :
  let r := getState env e in
  fruits r.1 = fruits e /\ score r.1 = score e /\ same_flags e r.1 /\ same_log e r.1 /\
  lastMergeTime r.1 = lastMergeTime e /\
  map (fun s => (fs_id s, fs_type s, fs_x s, fs_y s, fs_skinId s)) (gs_fruits r.2)
    = map (fun f => (f_id f, f_type f, f_x f, f_y f, f_skinId f)) (fruits e) /\
  gs_score r.2 = score e /\
  gs_nextFruit r.2 = nextFruit e /\ gs_queuedFruit r.2 = queuedFruit e /\
  0 <= gs_timeRemaining r.2 /\
  (startTime e <= date_now_1 env -> gs_timeRemaining r.2 <= GAME_DURATION_MS) /\
  (gs_timeRemaining r.2 = 0 <-> GAME_DURATION_MS <= date_now_1 env - startTime e) /\
  (gs_isGameOver r.2 = true <-> isGameOver e = true \/ gs_timeRemaining r.2 = 0) /\
  getState env r.1 = r.
Proof.
  intros r. subst r. unfold getState. cbn [fst snd].
  destruct (decay_frame (date_now_2 env) e) as (F1 & F2 & F3 & F4 & _).
  destruct (decay_log (date_now_2 env) e) as (L1 & L2 & L3 & L4 & L5 & L6 & L7).
  pose proof (decay_flags (date_now_2 env) e) as (G1 & G2 & G3).
  cbn [gs_fruits gs_score gs_nextFruit gs_queuedFruit gs_timeRemaining gs_isGameOver].
  rewrite decay_idem, G3, F1, F2, F3, L2, L3, map_map.
  cbn [fs_id fs_type fs_x fs_y fs_skinId].
  split; [reflexivity|]. split; [reflexivity|].
  split; [repeat split; assumption|]. split; [repeat split; assumption|].
  split; [exact F4|]. repeat (split; [reflexivity|]).
  unfold GAME_DURATION_MS. split; [lia|]. split; [lia|]. split; [lia|].
  split; [|reflexivity].
  rewrite orb_true_iff, Z.leb_le. split; intros [H|H]; auto; right; lia.
Qed.

(** X13.  Once a snapshot has reported the game as over, no input is ever
    accepted again: every call of [processInput] that reads the clock at or
    after the time of that snapshot is rejected, as already over or as out
    of time, spawns nothing, logs nothing, leaves the score, and leaves the
    session ended. *)
Theorem snapshot_over_rejects env e later input :
  gs_isGameOver (getState env e).2 = true ->
  date_now_1 env <= date_now_1 later ->
  let r := processInput later input e in
  (r.2 = Failure "Game is already over" \/ r.2 = Failure "Game time expired") /\
  fruits r.1 = fruits e /\ score r.1 = score e /\ inputHistory r.1 = inputHistory e /\
  isGameOver r.1 = true.
Proof.
  intros Hover Hl r. subst r. apply getState_over in Hover.
  destruct (processInput_cases later input e)
    as [[G' ->]|[(_ & _ & ->)|[(G' & T' & _)|(G' & T' & _)]]]; cbn [fst snd].
  - tauto.
  - tauto.
  - destruct Hover; [congruence|lia].
  - destruct Hover; [congruence|lia].
Qed.

(** Seven minutes after the start the snapshot reports the game as over,
    and a drop one second later is rejected as out of time. *)
Lemma snapshot_over_rejects_witness :
  let r := processInput (demo_env 421000) demo_input demo_engine in
  r.2 = Failure "Game time expired" /\ fruits r.1 = fruits demo_engine /\
  isGameOver r.1 = true.
Proof.
  intros r.
  assert (Hl : date_now_1 (demo_env 420000) <= date_now_1 (demo_env 421000))
    by (vm_compute; discriminate).
  pose proof (snapshot_over_rejects (demo_env 420000) demo_engine (demo_env 421000)
                demo_input eq_refl Hl) as (_ & H2 & _ & _ & H5).
  fold r in H2, H5. split; [vm_compute; reflexivity|]. split; assumption.
Defined.

(** *** Score *)

Lemma step_score e call :
  1 <= multiplier e <= MULTIPLIER_MAX -> score e <= score (step e call).
Proof.
  intros Hb. destruct (step_cases e call) as [->|[->|[evs Hacc]]]; [simpl; lia..|].
  destruct call as [env input]. unfold step. cbn [fst snd] in *.
  destruct (accepted_result env input e evs Hacc) as [-> _].
  set (now := date_now_2 env).
  pose proof (simulatePhysics_ledger env now (spawn env input now (decay now e)) 1) as L.
  cbv zeta in L. apply Awarded_score_bound in L.
  - change (score (spawn env input now (decay now e))) with (score (decay now e)) in L.
    destruct (decay_frame now e) as (_ & D & _). rewrite D in L.
    rewrite checkOverflow_score. lia.
  - apply (decay_bounds now e Hb).
Qed.

(** X14.  The score of a session never decreases and is never negative:
    along any run of calls on a new engine, the score after a longer run is
    at least the score after any shorter one. *)
Theorem score_never_decreases env sid loadout calls more :
  let e0 := new_GameEngine env sid loadout in
  0 <= score (run calls e0) /\
  score (run calls e0) <= score (run (calls ++ more) e0).
Proof.
  intros e0.
  assert (M : forall cs e, 1 <= multiplier e <= MULTIPLIER_MAX ->
                           score e <= score (run cs e)).
  { intros cs e Hb. induction cs as [|c cs IH] using rev_ind; [simpl; lia|].
    rewrite run_snoc. pose proof (step_score (run cs e) c (run_bounds cs e Hb)). lia. }
  assert (B : 1 <= multiplier e0 <= MULTIPLIER_MAX) by (simpl; unfold MULTIPLIER_MAX; lia).
  split.
  - apply (M calls e0 B).
  - unfold run at 2. rewrite fold_left_app. apply (M more (run calls e0)).
    apply run_bounds, B.
Qed.

End EngineFacts.

(** ** Properties of the replay services *)
Module ReplayFacts.
Import JS Replay.
Import JSFacts.

Lemma json_prim_idem p : json_prim (json_prim p) = json_prim p.
Proof.
  destruct p as [| |b|n|s0]; try reflexivity. simpl.
  destruct (is_finite n) eqn:F; [|reflexivity].
  destruct (is_zero n) eqn:Z; simpl; [reflexivity|]. rewrite F, Z. reflexivity.
Qed.

Section Properties.
Context {P : Platform}.

Lemma decompress_compress (inputs : list RawInput) :
  decompressReplay (compressReplay inputs) = Some (map json_input inputs).
Proof.
  unfold decompressReplay, compressReplay.
  rewrite gunzip_gzip, toString_from_utf8. apply JSON_parse_stringify.
Qed.

Lemma is_zero_inv n : is_zero n = true -> n = 0%float \/ n = (-0)%float.
Proof.
  unfold is_zero. rewrite FloatAxioms.eqb_spec. intros H.
  rewrite <- (SF2Prim_Prim2SF n).
  destruct (Prim2SF n) as [[|]|[|]| |[|] m e]; vm_compute in H; try discriminate H.
  - right. reflexivity.
  - left. reflexivity.
Qed.

(** Normalising a typed entry before or after the JSON round trip gives the
    same JSON, provided its [x] is finite. *)
Lemma normalize_round_trip (i : GameInput) :
  is_finite (x i) = true ->
  json_input (normalize (json_input (raw i))) = json_input (normalize (raw i)).
Proof.
  intros F. destruct i as [x0 ts ft]. cbn [x] in F.
  unfold json_input, normalize, raw.
  cbn [r_type r_x r_timestamp r_fruitType x timestamp fruitType].
  rewrite !json_prim_idem.
  change (json_prim (PNum x0))
    with (if is_finite x0 then (if is_zero x0 then PNum 0 else PNum x0) else PNull).
  rewrite F. destruct (is_zero x0) eqn:Z; [|reflexivity].
  destruct (is_zero_inv x0 Z) as [-> | ->]; reflexivity.
Qed.

(** C8, as the code has it.  For every input log whose x coordinates are
    finite numbers, the log decoded from its encoding has the digest of the
    original log. *)
Theorem replay_round_trip (log : list GameInput) :
  Forall (fun i => is_finite (x i) = true) log ->
  hashInputs <$> decompressReplay (compressReplay (map raw log))
    = Some (hashInputs (map raw log)).
Proof.
  intros F. rewrite decompress_compress. simpl. f_equal.
  unfold hashInputs. f_equal.
  rewrite <- (JSON_stringify_json (map normalize (map json_input (map raw log)))).
  rewrite <- (JSON_stringify_json (map normalize (map raw log))).
  f_equal. induction F as [|i log Fi _ IH]; simpl; [reflexivity|].
  rewrite normalize_round_trip by exact Fi. f_equal. exact IH.
Qed.

(** On every platform, the log holding one drop whose x is NaN is decoded
    to a log whose normalised JSON text differs from that of the original:
    the digests can only agree if SHA-256 collides on the two texts. *)
Lemma nan_texts_differ :
  let log := [{| x := nan; timestamp := 0; fruitType := Some "cherry"%string |}] in
  exists decoded,
    decompressReplay (compressReplay (map raw log)) = Some decoded /\
    JSON_stringify (map normalize decoded) <> JSON_stringify (map normalize (map raw log)).
Proof.
  intros log. eexists. split; [apply decompress_compress|].
  intros E. apply (f_equal JSON_parse) in E.
  rewrite !JSON_parse_stringify in E. vm_compute in E. discriminate E.
Qed.

(** Equal consecutive differences give a constant list of intervals. *)
Lemma intervals_of_regular (inputs : list GameInput) (d : float) :
  (forall i a b, inputs !! i = Some a -> inputs !! S i = Some b ->
                 (timestamp b - timestamp a)%float = d) ->
  intervals_of inputs = replicate (length inputs - 1) d.
Proof.
  induction inputs as [|a [|b rest] IH]; intros H; [reflexivity..|].
  change (intervals_of (a :: b :: rest))
    with ((timestamp b - timestamp a)%float :: intervals_of (b :: rest)).
  rewrite (H 0%nat a b eq_refl eq_refl), IH.
  - simpl. rewrite Nat.sub_0_r. reflexivity.
  - intros i a' b' Ha Hb. exact (H (S i) a' b' Ha Hb).
Qed.

Lemma map_const {A B} (f : A -> B) (l : list A) (v : B) :
  (forall a, a ∈ l -> f a = v) -> map f l = replicate (length l) v.
Proof.
  induction l as [|a l IH]; intros H; simpl; [reflexivity|].
  rewrite (H a) by left. rewrite IH; [reflexivity|].
  intros a' Ha'. apply H. right. exact Ha'.
Qed.

Lemma SameValueZero_refl v : SameValueZero v v = true.
Proof. unfold SameValueZero, is_nan. destruct (v =? v)%float; reflexivity. Qed.

Lemma Set_of_replicate n v : Set_of (replicate (S n) v) = [v].
Proof.
  unfold Set_of. simpl. unfold Set_add at 2. simpl.
  induction n as [|n IH]; [reflexivity|]. simpl.
  unfold Set_add at 2. simpl. rewrite SameValueZero_refl. exact IH.
Qed.

(** C9.  Twenty drops, each consecutive pair of timestamps exactly 100 ms
    apart and all at the same x: the suspicion score is 100, hence at least
    the review threshold and at most the cap, the session is flagged for
    review, and the flags include the regular-timing flag and the
    limited-position-variety flag. *)
Theorem analyzer_scenario (inputs : list GameInput) :
  length inputs = 20%nat ->
  (forall i a b, inputs !! i = Some a -> inputs !! S i = Some b ->
                 (timestamp b - timestamp a)%float = 100%float) ->
  (forall a b, a ∈ inputs -> b ∈ inputs -> x a = x b) ->
  let r := analyzeReplay inputs in
  50 <= suspicionScore r <= 100 /\
  shouldFlagForReview r = true /\
  "Suspiciously regular timing pattern"%string ∈ flags r /\
  "Limited position variety"%string ∈ flags r.
Proof.
  intros Hlen Hts Hx.
  pose proof (intervals_of_regular inputs 100%float Hts) as Hi.
  rewrite Hlen in Hi. change (20 - 1)%nat with 19%nat in Hi.
  assert (Hu : exists x0, map x inputs = replicate 20 x0).
  { destruct inputs as [|a0 rest] eqn:E; [discriminate|]. exists (x a0).
    rewrite <- Hlen. apply map_const. intros a Ha. apply Hx; [exact Ha|left]. }
  destruct Hu as [x0 Hu].
  unfold analyzeReplay. rewrite Hlen, Hi, Hu. 
  change (map ?f (replicate 20 x0)) with (replicate 20 (f x0)).
  rewrite Set_of_replicate.
  set (acc1 := fold_left rapid _ _).
  assert (H1 : acc1.1 = 190) by reflexivity.
  assert (H2 : (stdDev_of (replicate 19 100%float) <? 50)%float = true)
    by (vm_compute; reflexivity).
  rewrite H2. clear H2. cbn [Nat.eqb Nat.ltb Nat.leb length replicate andb].
  match goal with |- context [if ?c then _ else _] => destruct c end;
    cbn [fst snd suspicionScore flags];
    rewrite H1; unfold shouldFlagForReview; cbn [suspicionScore];
    (split; [lia|]); (split; [reflexivity|]);
    rewrite ?elem_of_app, !list_elem_of_singleton; tauto.
Qed.

(** C10.  The empty log gets score 0 and the single flag
    'No inputs recorded'; it is not recommended for review. *)
Theorem analyze_empty_log :
  analyzeReplay [] = {| suspicionScore := 0; flags := ["No inputs recorded"%string] |} /\
  shouldFlagForReview (analyzeReplay []) = false.
Proof. split; reflexivity. Qed.

(** *** Integrity check *)

Lemma normalize_json_input (r : RawInput) :
  finite_x r -> json_input (normalize (json_input r)) = json_input (normalize r).
Proof.
  intros (n & Hx & F). destruct r as [t0 x0 ts ft]. cbn [r_x] in Hx. subst x0.
  unfold json_input, normalize.
  cbn [r_type r_x r_timestamp r_fruitType].
  rewrite !json_prim_idem.
  change (json_prim (PNum n))
    with (if is_finite n then (if is_zero n then PNum 0 else PNum n) else PNull).
  rewrite F. destruct (is_zero n) eqn:Z; [|reflexivity].
  destruct (is_zero_inv n Z) as [-> | ->]; reflexivity.
Qed.

(** The encoding of a log with finite x coordinates passes the integrity
    check against the digest of that log. *)
Lemma verify_compress (inputs : list RawInput) :
  Forall finite_x inputs ->
  verifyReplayIntegrity (compressReplay inputs) (hashInputs inputs) = true.
Proof.
  intros F. unfold verifyReplayIntegrity. rewrite decompress_compress.
  apply bool_decide_eq_true. unfold hashInputs. f_equal.
  rewrite <- (JSON_stringify_json (map normalize (map json_input inputs))).
  rewrite <- (JSON_stringify_json (map normalize inputs)).
  f_equal. induction F as [|i l Fi _ IH]; simpl; [reflexivity|].
  rewrite normalize_json_input by exact Fi. f_equal. exact IH.
Qed.

(** X15.  [verifyReplayIntegrity] answers true exactly when the data decode
    to a log whose digest is the expected one; data that cannot be
    decompressed or parsed are answered with false, not with an exception;
    and what [compressReplay] and [hashInputs] make of one log with finite x
    coordinates always verifies. *)
Theorem verify_replay_spec :
  (forall data expectedHash,
     verifyReplayIntegrity data expectedHash = true <->
     exists inputs, decompressReplay data = Some inputs /\
                    hashInputs inputs = expectedHash) /\
  (forall data expectedHash,
     decompressReplay data = None -> verifyReplayIntegrity data expectedHash = false) /\
  (forall data, gunzipSync data = None -> decompressReplay data = None) /\
  (forall inputs expectedHash, Forall finite_x inputs ->
     verifyReplayIntegrity (compressReplay inputs) expectedHash
       = bool_decide (hashInputs inputs = expectedHash)).
Proof.
  split; [|split; [|split]].
  - intros data h. unfold verifyReplayIntegrity.
    destruct (decompressReplay data) as [inputs|].
    + rewrite bool_decide_eq_true. split.
      * intros H. exists inputs. split; [reflexivity|exact H].
      * intros (i & [= <-] & H). exact H.
    + split; [discriminate|]. intros (i & [=] & _).
  - intros data h H. unfold verifyReplayIntegrity. rewrite H. reflexivity.
  - intros data H. unfold decompressReplay. rewrite H. reflexivity.
  - intros inputs h F. pose proof (verify_compress inputs F) as V.
    unfold verifyReplayIntegrity in *. rewrite decompress_compress in *.
    apply bool_decide_eq_true in V. rewrite V. reflexivity.
Qed.

(** *** The analyzer *)

Lemma rapid_priced acc d : priced acc -> priced (rapid acc d).
Proof.
  unfold priced, rapid. intros H. destruct (d <? minInterval)%float; [|exact H].
  cbn [fst snd]. rewrite length_app. simpl length. lia.
Qed.

Lemma fold_rapid_priced l acc : priced acc -> priced (fold_left rapid l acc).
Proof.
  revert acc. induction l as [|d l IH]; intros acc H; simpl; [exact H|].
  apply IH, rapid_priced, H.
Qed.

Lemma fold_rapid_count l acc :
  (fold_left rapid l acc).1 = acc.1 + 10 * Z.of_nat (rapid_count l) /\
  length (fold_left rapid l acc).2 = (length acc.2 + rapid_count l)%nat.
Proof.
  revert acc. induction l as [|d l IH]; intros acc;
    [change (rapid_count []) with 0%nat; simpl; split; lia|].
  simpl fold_left. destruct (IH (rapid acc d)) as [-> ->].
  unfold rapid_count, rapid.
  destruct (d <? minInterval)%float eqn:E.
  - rewrite filter_cons_True by exact E. cbn [fst snd]. rewrite length_app. simpl length.
    split; lia.
  - rewrite filter_cons_False by (rewrite E; discriminate). split; lia.
Qed.

Lemma fold_rapid_flags l acc :
  Forall timing_flag acc.2 -> Forall timing_flag (fold_left rapid l acc).2.
Proof.
  revert acc. induction l as [|d l IH]; intros acc H; simpl; [exact H|].
  apply IH. unfold rapid. destruct (d <? minInterval)%float; [|exact H].
  cbn [snd]. apply Forall_app. split; [exact H|]. constructor; [|constructor].
  right. exists d. reflexivity.
Qed.

Lemma length_intervals_of (inputs : list GameInput) :
  length (intervals_of inputs) = (length inputs - 1)%nat.
Proof.
  induction inputs as [|a [|b rest] IH]; [reflexivity..|].
  change (intervals_of (a :: b :: rest))
    with ((timestamp b - timestamp a)%float :: intervals_of (b :: rest)).
  simpl length in *. rewrite IH. lia.
Qed.

(** The accumulator after the four checks, for a log that is not empty. *)
Lemma analyzeReplay_acc (inputs : list GameInput) :
  inputs <> [] ->
  exists acc,
    analyzeReplay inputs = {| suspicionScore := Z.min 100 acc.1; flags := acc.2 |} /\
    priced acc /\
    10 * Z.of_nat (rapid_count (intervals_of inputs)) <= acc.1 /\
    (rapid_count (intervals_of inputs) <= length acc.2)%nat /\
    ("Suspiciously regular timing pattern"%string ∈ acc.2 -> (12 <= length inputs)%nat) /\
    ("Limited position variety"%string ∈ acc.2 -> (11 <= length inputs)%nat).
Proof.
  intros Hne. unfold analyzeReplay.
  destruct inputs as [|i0 rest] eqn:Ei; [contradiction|]. rewrite <- Ei. clear Hne.
  assert (Hl : (length inputs =? 0)%nat = false) by (rewrite Ei; reflexivity).
  rewrite Hl.
  set (Q := fun fl : string =>
         timing_flag fl \/
         (fl = "Suspiciously regular timing pattern"%string /\ (12 <= length inputs)%nat) \/
         (fl = "Limited position variety"%string /\ (11 <= length inputs)%nat)).
  set (acc1 := fold_left rapid (intervals_of inputs) (0, [])).
  assert (P1 : priced acc1) by (apply fold_rapid_priced; unfold priced; simpl; lia).
  destruct (fold_rapid_count (intervals_of inputs) (0, [])) as [C1 C2].
  fold acc1 in C1, C2. cbn [fst snd length] in C1, C2.
  assert (F1 : Forall Q acc1.2).
  { eapply Forall_impl; [apply (fold_rapid_flags _ (0, [])); constructor|].
    intros fl H. left. exact H. }
  set (acc2 := if (5 <? length inputs)%nat then _ else acc1).
  assert (A2 : priced acc2 /\ acc1.1 <= acc2.1 /\ (length acc1.2 <= length acc2.2)%nat /\
               Forall Q acc2.2).
  { subst acc2. destruct (5 <? length inputs)%nat; [|kept F1].
    destruct (_ <? 50)%float; [|kept F1].
    cbn [andb]. destruct (Nat.ltb_spec 10 (length (intervals_of inputs))) as [Hi|Hi];
      [|kept F1].
    rewrite length_intervals_of in Hi. added F1.
    right. left. split; [reflexivity|lia]. }
  destruct A2 as (P2 & M2 & L2 & F2). clearbody acc2.
  set (acc3 := if (10 <? length inputs)%nat && _ then _ else acc2).
  assert (A3 : priced acc3 /\ acc2.1 <= acc3.1 /\ (length acc2.2 <= length acc3.2)%nat /\
               Forall Q acc3.2).
  { subst acc3. destruct (Nat.ltb_spec 10 (length inputs)) as [Hi|Hi]; [|kept F2].
    cbn [andb]. destruct (_ <? 3)%nat; [|kept F2].
    added F2. right. right. split; [reflexivity|lia]. }
  destruct A3 as (P3 & M3 & L3 & F3). clearbody acc3.
  set (acc4 := if (0 <? length inputs)%nat then _ else acc3).
  assert (A4 : priced acc4 /\ acc3.1 <= acc4.1 /\ (length acc3.2 <= length acc4.2)%nat /\
               Forall Q acc4.2).
  { subst acc4. destruct (0 <? length inputs)%nat; [|kept F3].
    destruct (_ <? _)%float; [|kept F3].
    added F3. left. left. reflexivity. }
  destruct A4 as (P4 & M4 & L4 & F4). clearbody acc4.
  exists acc4. split; [reflexivity|]. split; [exact P4|].
  split; [lia|]. split; [lia|].
  assert (N4 : forall fl, fl ∈ acc4.2 -> Q fl) by (apply Forall_forall, F4).
  split.
  - intros H. destruct (N4 _ H) as [[E|(d & E)]|[[_ ?]|[E _]]];
      [discriminate E|discriminate E|assumption|discriminate E].
  - intros H. destruct (N4 _ H) as [[E|(d & E)]|[[E _]|[_ ?]]];
      [discriminate E|discriminate E|discriminate E|assumption].
Qed.

(** X16.  For every log the suspicion score lies between 0 and 100.  No
    single flag is enough for a review: a log recommended for review carries
    at least two flags.  A log that is not empty has score 0 exactly when it
    carries no flag.  The regular-timing flag is only ever raised on logs of
    at least 12 inputs (the test on more than 5 inputs is subsumed by the
    test on more than 10 intervals), the limited-variety flag only on logs
    of at least 11. *)
Theorem analysis_bounds (inputs : list GameInput) :
  let r := analyzeReplay inputs in
  0 <= suspicionScore r <= 100 /\
  (shouldFlagForReview r = true -> (2 <= length (flags r))%nat) /\
  (inputs <> [] -> (suspicionScore r = 0 <-> flags r = [])) /\
  ("Suspiciously regular timing pattern"%string ∈ flags r -> (12 <= length inputs)%nat) /\
  ("Limited position variety"%string ∈ flags r -> (11 <= length inputs)%nat).
Proof.
  intros r. subst r. destruct inputs as [|i0 rest].
  - split; [simpl; lia|]. split; [discriminate|]. split; [congruence|].
    split; intros H; apply list_elem_of_singleton in H; discriminate H.
  - destruct (analyzeReplay_acc (i0 :: rest)) as (acc & -> & [P1 P2] & _ & _ & H12 & H11);
      [discriminate|].
    unfold shouldFlagForReview. cbn [suspicionScore flags].
    split; [lia|]. split; [|split; [|split; assumption]].
    + intros H. apply Z.leb_le in H. lia.
    + intros _. split.
      * intros H. destruct acc.2; [reflexivity|]. simpl length in *. lia.
      * intros H. rewrite H in *. simpl length in *. lia.
Qed.

(** X17.  Every pair of consecutive inputs less than 500 ms apart adds 10
    points and a flag of its own, whatever the other checks find: the score
    is at least ten times the number of such pairs, capped at 100, and five
    such pairs are enough for the log to be recommended for review. *)
Theorem rapid_inputs_flagged (inputs : list GameInput) :
  let r := analyzeReplay inputs in
  let n := rapid_count (intervals_of inputs) in
  Z.min 100 (10 * Z.of_nat n) <= suspicionScore r /\
  (n <= length (flags r))%nat /\
  ((5 <= n)%nat -> shouldFlagForReview r = true).
Proof.
  intros r n. subst r n. destruct inputs as [|i0 rest].
  - change (rapid_count (intervals_of [])) with 0%nat.
    split; [simpl; lia|]. split; [simpl; lia|]. lia.
  - destruct (analyzeReplay_acc (i0 :: rest)) as (acc & -> & _ & H1 & H2 & _);
      [discriminate|].
    unfold shouldFlagForReview. cbn [suspicionScore flags].
    split; [lia|]. split; [exact H2|]. intros H. apply Z.leb_le. lia.
Qed.

(** X18.  A log of a single input: its duration is 0, which is less than
    half of 1 * 500 ms, so it always gets the flag 'Game duration too short
    for input count' and the score 25, whatever its x; unless its timestamp
    is not a finite number, in which case the duration is NaN, no test
    holds, and it gets score 0 and no flag at all. *)
Theorem single_drop_flagged (i : GameInput) :
  analyzeReplay [i]
    = (if is_finite (timestamp i)
       then {| suspicionScore := 25;
               flags := ["Game duration too short for input count"%string] |}
       else {| suspicionScore := 0; flags := [] |}).
Proof.
  unfold analyzeReplay.
  cbn [length Nat.eqb Nat.ltb Nat.leb intervals_of fold_left andb last head fst snd].
  rewrite sub_diag. destruct (is_finite (timestamp i)); reflexivity.
Qed.

End Properties.

Lemma replay_round_trip_witness :
  hashInputs (P := Ideal) <$> decompressReplay (compressReplay (map raw demo_log))
    = Some (hashInputs (map raw demo_log)) /\
  verifyReplayIntegrity (P := Ideal) (compressReplay (map raw demo_log))
    (hashInputs (map raw demo_log)) = true.
Proof.
  split; [|vm_compute; reflexivity].
  apply (replay_round_trip (P := Ideal) demo_log).
  repeat constructor.
Defined.

(** C8 as stated fails on a log whose x is not finite: NaN is written as
    null, which the digest of the decoded log reads back as 0, while the
    digest of the original log writes null. *)
Lemma replay_round_trip_nan :
  let log := [{| x := nan; timestamp := 0; fruitType := Some "cherry"%string |}] in
  exists decoded,
    decompressReplay (P := Ideal) (compressReplay (map raw log)) = Some decoded /\
    map r_x (map normalize decoded) = [PNum 0] /\
    map r_x (map json_input (map normalize (map raw log))) = [PNull] /\
    bool_decide (hashInputs decoded = hashInputs (map raw log)) = false /\
    verifyReplayIntegrity (compressReplay (map raw log)) (hashInputs (map raw log))
      = false.
Proof.
  eexists. split; [reflexivity|]. vm_compute. repeat split; reflexivity.
Qed.

Lemma analyzer_scenario_witness :
  suspicionScore (analyzeReplay (P := Ideal) bot_log) = 100 /\
  shouldFlagForReview (analyzeReplay (P := Ideal) bot_log) = true /\
  "Suspiciously regular timing pattern"%string ∈ flags (analyzeReplay (P := Ideal) bot_log) /\
  "Limited position variety"%string ∈ flags (analyzeReplay (P := Ideal) bot_log) /\
  "Rapid inputs detected (100ms interval)"%string
    ∈ flags (analyzeReplay (P := Ideal) bot_log).
Proof.
  assert (Hts : forall i a b, bot_log !! i = Some a -> bot_log !! S i = Some b ->
                              (timestamp b - timestamp a)%float = 100%float).
  { intros i a b Ha Hb.
    do 20 (destruct i as [|i];
           [vm_compute in Ha, Hb;
            first [discriminate Hb
                  |injection Ha as <-; injection Hb as <-; vm_compute; reflexivity]|]).
    vm_compute in Ha. discriminate Ha. }
  assert (Hx : forall a b, a ∈ bot_log -> b ∈ bot_log -> x a = x b).
  { intros a b Ha Hb. unfold bot_log in Ha, Hb.
    apply list_elem_of_fmap in Ha as (ka & -> & _).
    apply list_elem_of_fmap in Hb as (kb & -> & _). reflexivity. }
  pose proof (analyzer_scenario (P := Ideal) bot_log eq_refl Hts Hx) as (_ & H2 & H3 & H4).
  split; [vm_compute; reflexivity|]. split; [exact H2|]. split; [exact H3|].
  split; [exact H4|].
  vm_compute. do 2 constructor.
Defined.

End ReplayFacts.

(** ** Properties of the session host *)
Module HostFacts.
Import JS Engine EngineFacts Replay Host.
Import ReplayFacts.

Section Session.
Context {P : Platform}.

(** C1, as the code has it.  After a first successful [endGameSession] for
    a session id, the session is no longer live, and a second call with the
    same id changes nothing and returns the failure 'Game session not found'
    (it does not return the final score again).  The first call issues
    exactly one update of the session record (final score, replay blob and
    hash), one update of the user statistics and one upsert of each period
    score; the second issues no write. *)
Theorem finalize_twice (c1 c2 : Clock) (sessionId : string) (r1 r2 : Reason)
    (st st1 : State) (data : EndData) :
  endGameSession c1 sessionId r1 st = (st1, EndSuccess data) ->
  endGameSession c2 sessionId r2 st1 = (st1, EndFailure "Game session not found") /\
  activeSessions st1 = delete sessionId (activeSessions st) /\
  exists gameEngine row u,
    activeSessions st !! sessionId = Some gameEngine /\
    gameSession (prisma st) !! sessionId = Some row /\
    user (prisma st) !! userId row = Some u /\
    d_finalScore data = score gameEngine /\
    d_reason data = r1 /\
    journal (prisma st1) = journal (prisma st) ++
      [gameSession_update sessionId (new_Date_1 c1) (score gameEngine)
         (compressReplay (map replay_input (inputHistory gameEngine)))
         (hashInputs (map replay_input (inputHistory gameEngine)));
       user_update (userId row) (score gameEngine) 1
         (Z.max (highScore u) (score gameEngine));
       dailyScore_upsert (walletAddress row) (utc_midnight (new_Date_2 c1))
         (score gameEngine) sessionId;
       weeklyScore_upsert (walletAddress row)
         (monday_of (utc_midnight (new_Date_2 c1))) (score gameEngine) sessionId] /\
    (user (prisma st1) !! userId row
       = Some {| totalPoints := totalPoints u + score gameEngine;
                 gamesPlayed := gamesPlayed u + 1;
                 highScore := Z.max (highScore u) (score gameEngine) |}).
Proof.
  unfold endGameSession at 1.
  destruct (activeSessions st !! sessionId) as [gameEngine|] eqn:Hs; [|discriminate].
  destruct (gameSession (prisma st) !! sessionId) as [row|] eqn:Hr; [|discriminate].
  cbn [user userId]. destruct (user (prisma st) !! userId row) as [u|] eqn:Hu;
    [|discriminate].
  assert (Hscore : gs_score (getState (engine_env c1) gameEngine).2 = score gameEngine).
  { unfold getState. cbn [snd gs_score]. apply decay_frame. }
  rewrite Hscore. intros [= <- <-].
  cbn [activeSessions prisma journal user d_finalScore d_reason].
  split.
  - unfold endGameSession. cbn [activeSessions]. rewrite lookup_delete_eq. reflexivity.
  - split; [reflexivity|]. exists gameEngine, row, u.
    repeat (split; [first [reflexivity|assumption]|]).
    split.
    + rewrite <- app_assoc. reflexivity.
    + apply lookup_insert_eq.
Qed.

(** *** Outcomes of [endGameSession] *)

Lemma end_activeSessions c sid reason st :
  activeSessions (endGameSession c sid reason st).1 = delete sid (activeSessions st).
Proof.
  unfold endGameSession.
  destruct (activeSessions st !! sid) as [gameEngine|] eqn:Hs;
    [|symmetry; apply delete_id, Hs].
  destruct (gameSession (prisma st) !! sid) as [row|]; [|reflexivity].
  cbn [user userId]. destruct (user (prisma st) !! userId row); reflexivity.
Qed.

(** X19.  The three outcomes of [endGameSession].  It fails, with 'Game
    session not found' and without any change, exactly when the session is
    not live.  It throws exactly when the session is live but its session
    record, or the user record that one names, is missing; the engine has
    then already been removed from the live sessions.  When the session
    record is missing nothing has been written: the score and the inputs
    are gone with the engine.  When only the user record is missing the
    session record has already been updated and holds the end time, the
    final score, the replay blob and the digest, this update being the one
    write issued; neither the user statistics nor the period scores are
    written.  It succeeds exactly when session, session record and user
    record are all there.  In every case the session is not live
    afterwards, and the writes issued so far are only ever extended. *)
Theorem end_session_outcomes c sid reason st :
  let r := endGameSession c sid reason st in
  activeSessions r.1 = delete sid (activeSessions st) /\
  journal (prisma st) `prefix_of` journal (prisma r.1) /\
  (forall error, r.2 = EndFailure error <->
     activeSessions st !! sid = None /\ error = "Game session not found"%string) /\
  (activeSessions st !! sid = None -> r.1 = st) /\
  (r.2 = Threw <->
     is_Some (activeSessions st !! sid) /\
     (gameSession (prisma st) !! sid = None \/
      exists row, gameSession (prisma st) !! sid = Some row /\
                  user (prisma st) !! userId row = None)) /\
  (r.2 = Threw ->
     user (prisma r.1) = user (prisma st) /\
     dailyScore (prisma r.1) = dailyScore (prisma st) /\
     weeklyScore (prisma r.1) = weeklyScore (prisma st)) /\
  ((exists data, r.2 = EndSuccess data) <->
     is_Some (activeSessions st !! sid) /\
     exists row, gameSession (prisma st) !! sid = Some row /\
                 is_Some (user (prisma st) !! userId row)) /\
  (gameSession (prisma st) !! sid = None -> prisma r.1 = prisma st) /\
  (forall e row,
     activeSessions st !! sid = Some e ->
     gameSession (prisma st) !! sid = Some row ->
     user (prisma st) !! userId row = None ->
     let d := compressReplay (map replay_input (inputHistory e)) in
     let h := hashInputs (map replay_input (inputHistory e)) in
     r.2 = Threw /\
     gameSession (prisma r.1)
       = <[sid := {| userId := userId row; walletAddress := walletAddress row;
                     endTime := Some (new_Date_1 c); finalScore := Some (score e);
                     replayData := Some d; inputsHash := Some h |}]>
           (gameSession (prisma st)) /\
     journal (prisma r.1)
       = journal (prisma st) ++ [gameSession_update sid (new_Date_1 c) (score e) d h]).
Proof.
  intros r. subst r. unfold endGameSession.
  destruct (activeSessions st !! sid) as [gameEngine|] eqn:Hs.
  - assert (Hscore : gs_score (getState (engine_env c) gameEngine).2 = score gameEngine).
    { unfold getState. cbn [snd gs_score]. apply decay_frame. }
    unfold getInputHistory. rewrite Hscore.
    destruct (gameSession (prisma st) !! sid) as [row|] eqn:Hr.
    + cbn [user userId]. destruct (user (prisma st) !! userId row) as [u|] eqn:Hu;
        cbn [fst snd activeSessions prisma journal user dailyScore weeklyScore gameSession].
      * split; [reflexivity|].
        split; [rewrite <- app_assoc; apply prefix_app_r; reflexivity|].
        split; [intros e; split; [discriminate|intros [[=] _]]|].
        split; [discriminate|]. split.
        { split; [discriminate|]. intros (_ & [[=]|(row' & [= <-] & H)]). congruence. }
        split; [discriminate|]. split.
        { split; [|eauto].
          intros _. split; [eauto|]. exists row. split; [reflexivity|]. rewrite Hu. eauto. }
        split; [discriminate|]. intros e row' _ [= <-] H. congruence.
      * split; [reflexivity|]. split; [apply prefix_app_r; reflexivity|].
        split; [intros e; split; [discriminate|intros [[=] _]]|].
        split; [discriminate|]. split; [split; [eauto 6|reflexivity]|].
        split; [tauto|]. split.
        { split; [intros [? [=]]|].
          intros (_ & row' & [= <-] & H). rewrite Hu in H. destruct H as [? [=]]. }
        split; [discriminate|]. intros e row' [= <-] [= <-] _.
        split; [reflexivity|]. split; reflexivity.
    + cbn [fst snd activeSessions prisma].
      split; [reflexivity|]. split; [reflexivity|].
      split; [intros e; split; [discriminate|intros [[=] _]]|].
      split; [discriminate|]. split; [split; [eauto|reflexivity]|].
      split; [tauto|]. split; [split; [intros [? [=]]|intros (_ & row' & [=] & _)]|].
      split; [reflexivity|]. intros e row' _ [=].
  - cbn [fst snd]. split; [symmetry; apply delete_id, Hs|]. split; [reflexivity|].
    split; [intros e; split; [intros [= <-]; tauto|intros [_ ->]; reflexivity]|].
    split; [reflexivity|]. split; [split; [discriminate|intros [[? [=]] _]]|].
    split; [discriminate|]. split; [split; [intros [? [=]]|intros [[? [=]] _]]|].
    split; [reflexivity|]. intros e row' [=].
Qed.

(** X20.  Ending one session never touches another: whatever the outcome,
    every other live session keeps its engine and every other session
    record is as it was, while the session named is not live afterwards. *)
Theorem end_session_isolation c sid reason st other :
  other <> sid ->
  let r := endGameSession c sid reason st in
  activeSessions r.1 !! sid = None /\
  activeSessions r.1 !! other = activeSessions st !! other /\
  gameSession (prisma r.1) !! other = gameSession (prisma st) !! other.
Proof.
  intros Hne r. subst r.
  rewrite end_activeSessions, lookup_delete_eq, lookup_delete_ne by congruence.
  split; [reflexivity|]. split; [reflexivity|].
  unfold endGameSession.
  destruct (activeSessions st !! sid) as [gameEngine|]; [|reflexivity].
  destruct (gameSession (prisma st) !! sid) as [row|]; [|reflexivity].
  cbn [user userId]. destruct (user (prisma st) !! userId row) as [u|];
    cbn [fst snd prisma gameSession]; apply lookup_insert_ne; congruence.
Qed.


(** What a successful call did, read back from the state it left. *)
Lemma end_success c sid reason st st1 data :
  endGameSession c sid reason st = (st1, EndSuccess data) ->
  exists gameEngine row u,
    activeSessions st !! sid = Some gameEngine /\
    gameSession (prisma st) !! sid = Some row /\
    user (prisma st) !! userId row = Some u /\
    d_finalScore data = score gameEngine /\
    d_totalPoints data = totalPoints u + score gameEngine /\
    d_isNewHighScore data = (highScore u <? score gameEngine) /\
    gameSession (prisma st1)
      = <[sid := {| userId := userId row; walletAddress := walletAddress row;
                    endTime := Some (new_Date_1 c);
                    finalScore := Some (score gameEngine);
                    replayData := Some (compressReplay
                                          (map replay_input (inputHistory gameEngine)));
                    inputsHash := Some (hashInputs
                                          (map replay_input (inputHistory gameEngine))) |}]>
          (gameSession (prisma st)) /\
    user (prisma st1)
      = <[userId row := {| totalPoints := totalPoints u + score gameEngine;
                           gamesPlayed := gamesPlayed u + 1;
                           highScore := Z.max (highScore u) (score gameEngine) |}]>
          (user (prisma st)) /\
    (let create := {| sr_userId := userId row; sr_score := score gameEngine;
                      sr_gameSessionId := sid |} in
     let update := fun r => {| sr_userId := sr_userId r; sr_score := score gameEngine;
                               sr_gameSessionId := sid |} in
     dailyScore (prisma st1)
       = upsert (walletAddress row, utc_midnight (new_Date_2 c)) create update
           (dailyScore (prisma st)) /\
     weeklyScore (prisma st1)
       = upsert (walletAddress row, monday_of (utc_midnight (new_Date_2 c))) create update
           (weeklyScore (prisma st))).
Proof.
  unfold endGameSession.
  destruct (activeSessions st !! sid) as [gameEngine|] eqn:Hs; [|discriminate].
  destruct (gameSession (prisma st) !! sid) as [row|] eqn:Hr; [|discriminate].
  cbn [user userId]. destruct (user (prisma st) !! userId row) as [u|] eqn:Hu;
    [|discriminate].
  assert (Hscore : gs_score (getState (engine_env c) gameEngine).2 = score gameEngine).
  { unfold getState. cbn [snd gs_score]. apply decay_frame. }
  unfold getInputHistory. rewrite Hscore. intros [= <- <-].
  exists gameEngine, row, u.
  cbn [prisma gameSession user dailyScore weeklyScore d_finalScore d_totalPoints
       d_isNewHighScore totalPoints walletAddress].
  repeat (split; [first [reflexivity|assumption]|]). split; reflexivity.
Qed.

Lemma endGameSession_steps c sid reason st :
  endGameSession c sid reason st = endGameSession_alone c sid reason st.
Proof.
  unfold endGameSession, endGameSession_alone, end_begin.
  destruct (activeSessions st !! sid) as [gameEngine|]; [|reflexivity].
  unfold await_session_update. cbn [prisma en_sessionId].
  destruct (gameSession (prisma st) !! sid) as [row|]; [|reflexivity].
  unfold await_user_update. cbn [prisma user userId].
  destruct (user (prisma st) !! userId row) as [u|]; [|reflexivity].
  unfold await_weekly_upsert, await_daily_upsert, end_data.
  cbn [prisma activeSessions gameSession user dailyScore weeklyScore journal
       userId walletAddress en_sessionId en_finalScore en_reason en_endTime
       en_replayData en_inputsHash totalPoints highScore].
  rewrite <- !app_assoc. reflexivity.
Qed.

(** *** The user statistics, await by await *)

(** The first await writes the session record and no user record, and
    reads the user record as it is then. *)
Lemma await_session_update_user p (st : State) :
  let r := await_session_update p st in
  activeSessions r.1 = activeSessions st /\
  user (prisma r.1) = user (prisma st) /\
  (r.2 = None <-> gameSession (prisma st) !! en_sessionId p = None) /\
  (r.2 = None -> r.1 = st) /\
  (forall session read, r.2 = Some (session, read) ->
     (exists row, gameSession (prisma st) !! en_sessionId p = Some row /\
                  userId session = userId row /\
                  walletAddress session = walletAddress row) /\
     gameSession (prisma r.1) = <[en_sessionId p := session]> (gameSession (prisma st)) /\
     read = user (prisma st) !! userId session).
Proof.
  intros r. subst r. unfold await_session_update.
  destruct (gameSession (prisma st) !! en_sessionId p) as [row|];
    cbn [fst snd activeSessions prisma user gameSession].
  - split; [reflexivity|]. split; [reflexivity|]. split; [split; discriminate|].
    split; [discriminate|]. intros session read [= <- <-].
    split; [exists row; repeat split|]. split; reflexivity.
  - split; [reflexivity|]. split; [reflexivity|]. split; [tauto|].
    split; [reflexivity|]. discriminate.
Qed.

(** The second await: increments on the record as it is now, the high
    score from the record read before. *)
Lemma await_user_update_user p session read (st : State) :
  let r := await_user_update p session read st in
  activeSessions r.1 = activeSessions st /\
  gameSession (prisma r.1) = gameSession (prisma st) /\
  (forall other, other <> userId session ->
     user (prisma r.1) !! other = user (prisma st) !! other) /\
  (r.2 = None <-> read = None \/ user (prisma st) !! userId session = None) /\
  (r.2 = None -> r.1 = st) /\
  (forall u', r.2 = Some u' ->
     exists old now,
       read = Some old /\ user (prisma st) !! userId session = Some now /\
       user (prisma r.1) !! userId session = Some u' /\
       u' = {| totalPoints := totalPoints now + en_finalScore p;
               gamesPlayed := gamesPlayed now + 1;
               highScore := Z.max (highScore old) (en_finalScore p) |}).
Proof.
  intros r. subst r. unfold await_user_update.
  destruct read as [old|].
  - destruct (user (prisma st) !! userId session) as [now|] eqn:Hu;
      cbn [fst snd activeSessions prisma user gameSession].
    + split; [reflexivity|]. split; [reflexivity|].
      split; [intros other Ho; apply lookup_insert_ne; congruence|].
      split; [split; [discriminate|intros [[=]|[=]]]|]. split; [discriminate|].
      intros u' [= <-]. exists old, now.
      split; [reflexivity|]. split; [reflexivity|]. split; [apply lookup_insert_eq|reflexivity].
    + split; [reflexivity|]. split; [reflexivity|]. split; [reflexivity|].
      split; [tauto|]. split; [reflexivity|]. discriminate.
  - cbn [fst snd]. split; [reflexivity|]. split; [reflexivity|]. split; [reflexivity|].
    split; [tauto|]. split; [reflexivity|]. discriminate.
Qed.

Lemma await_session_update_found p row (st : State) :
  gameSession (prisma st) !! en_sessionId p = Some row ->
  exists st1 session,
    await_session_update p st = (st1, Some (session, user (prisma st) !! userId row)) /\
    userId session = userId row /\
    user (prisma st1) = user (prisma st) /\
    gameSession (prisma st1) = <[en_sessionId p := session]> (gameSession (prisma st)).
Proof.
  intros H. unfold await_session_update. rewrite H.
  eexists. eexists. split; [reflexivity|]. repeat split.
Qed.

Lemma await_user_update_found p session old now (st : State) :
  user (prisma st) !! userId session = Some now ->
  let user' := {| totalPoints := totalPoints now + en_finalScore p;
                  gamesPlayed := gamesPlayed now + 1;
                  highScore := Z.max (highScore old) (en_finalScore p) |} in
  exists st1,
    await_user_update p session (Some old) st = (st1, Some user') /\
    user (prisma st1) = <[userId session := user']> (user (prisma st)).
Proof.
  intros H user'. unfold await_user_update. rewrite H.
  eexists. split; reflexivity.
Qed.

(** The lost update: both first awaits before either second await. *)
Lemma ends_interleaved_user pA pB rowA rowB u (st : State) :
  en_sessionId pA <> en_sessionId pB ->
  gameSession (prisma st) !! en_sessionId pA = Some rowA ->
  gameSession (prisma st) !! en_sessionId pB = Some rowB ->
  userId rowB = userId rowA ->
  user (prisma st) !! userId rowA = Some u ->
  let r := ends_interleaved pA pB st in
  let userA := {| totalPoints := totalPoints u + en_finalScore pA;
                  gamesPlayed := gamesPlayed u + 1;
                  highScore := Z.max (highScore u) (en_finalScore pA) |} in
  let userB := {| totalPoints := totalPoints u + en_finalScore pA + en_finalScore pB;
                  gamesPlayed := gamesPlayed u + 1 + 1;
                  highScore := Z.max (highScore u) (en_finalScore pB) |} in
  r.2 = Some (userA, userB) /\
  user (prisma r.1) !! userId rowA = Some userB.
Proof.
  intros Hne HA HB Hid Hu r userA userB. subst r. unfold ends_interleaved.
  destruct (await_session_update_found pA rowA st HA) as (st1 & sA & -> & IA & U1 & G1).
  assert (HB1 : gameSession (prisma st1) !! en_sessionId pB = Some rowB)
    by (rewrite G1, lookup_insert_ne by exact Hne; exact HB).
  destruct (await_session_update_found pB rowB st1 HB1) as (st2 & sB & -> & IB & U2 & _).
  rewrite U1, Hid, Hu.
  assert (HuA : user (prisma st2) !! userId sA = Some u) by (rewrite U2, U1, IA; exact Hu).
  destruct (await_user_update_found pA sA u u st2 HuA) as (st3 & -> & U3).
  assert (HuB : user (prisma st3) !! userId sB
                = Some {| totalPoints := totalPoints u + en_finalScore pA;
                          gamesPlayed := gamesPlayed u + 1;
                          highScore := Z.max (highScore u) (en_finalScore pA) |})
    by (rewrite U3, IB, Hid, <- IA; apply lookup_insert_eq).
  destruct (await_user_update_found pB sB u _ st3 HuB) as (st4 & -> & U4).
  cbn [fst snd totalPoints gamesPlayed highScore].
  split; [reflexivity|]. rewrite U4, IB, Hid. apply lookup_insert_eq.
Qed.

(** X21.  The user statistics.  [endGameSession] is its awaits in
    sequence.  When no other handler runs between them, a successful end
    leaves the total grown by the final score (it is the total returned),
    the number of games grown by one, the high score not lower than before
    and at least the final score; a new high score is reported exactly when
    the final score is greater than the previous high score and is then the
    new high score, otherwise the high score is unchanged; no other user is
    touched.  Await by await: the first await writes no user record and
    returns the user record as it is then; the second adds the final score
    and one game to the record as it is when it runs, but sets the high
    score to the maximum of the final score and the high score the first
    await returned, which is also the one the reported flag compares with.
    So when two sessions of one user end with both first awaits before
    either second await, both games and both scores are counted, but the
    high score stored is the one the second update computes from the old
    record: when the first session scored more, it ends below the score of
    the first session. *)
Theorem user_stats_updated c sid reason st :
  endGameSession c sid reason st = endGameSession_alone c sid reason st /\
  (forall st1 data,
     endGameSession c sid reason st = (st1, EndSuccess data) ->
     exists row u u',
       gameSession (prisma st) !! sid = Some row /\
       user (prisma st) !! userId row = Some u /\
       user (prisma st1) !! userId row = Some u' /\
       totalPoints u' = totalPoints u + d_finalScore data /\
       d_totalPoints data = totalPoints u' /\
       gamesPlayed u' = gamesPlayed u + 1 /\
       highScore u <= highScore u' /\ d_finalScore data <= highScore u' /\
       (d_isNewHighScore data = true <-> highScore u < d_finalScore data) /\
       (d_isNewHighScore data = true -> highScore u' = d_finalScore data) /\
       (d_isNewHighScore data = false -> highScore u' = highScore u) /\
       (forall other, other <> userId row ->
          user (prisma st1) !! other = user (prisma st) !! other)) /\
  (forall p st0 session read,
     (await_session_update p st0).2 = Some (session, read) ->
     user (prisma (await_session_update p st0).1) = user (prisma st0) /\
     read = user (prisma st0) !! userId session) /\
  (forall p session read st0 u',
     (await_user_update p session read st0).2 = Some u' ->
     exists old now,
       read = Some old /\ user (prisma st0) !! userId session = Some now /\
       user (prisma (await_user_update p session read st0).1) !! userId session = Some u' /\
       totalPoints u' = totalPoints now + en_finalScore p /\
       gamesPlayed u' = gamesPlayed now + 1 /\
       highScore u' = Z.max (highScore old) (en_finalScore p) /\
       end_data p old u'
         = {| d_finalScore := en_finalScore p; d_totalPoints := totalPoints u';
              d_isNewHighScore := highScore old <? en_finalScore p;
              d_reason := en_reason p |}) /\
  (forall pA pB rowA rowB u st0,
     en_sessionId pA <> en_sessionId pB ->
     gameSession (prisma st0) !! en_sessionId pA = Some rowA ->
     gameSession (prisma st0) !! en_sessionId pB = Some rowB ->
     userId rowB = userId rowA ->
     user (prisma st0) !! userId rowA = Some u ->
     exists userA userB,
       (ends_interleaved pA pB st0).2 = Some (userA, userB) /\
       user (prisma (ends_interleaved pA pB st0).1) !! userId rowA = Some userB /\
       highScore userA = Z.max (highScore u) (en_finalScore pA) /\
       highScore userB = Z.max (highScore u) (en_finalScore pB) /\
       totalPoints userB = totalPoints u + en_finalScore pA + en_finalScore pB /\
       gamesPlayed userB = gamesPlayed u + 2 /\
       (highScore u <= en_finalScore pB -> en_finalScore pB < en_finalScore pA ->
        highScore userA = en_finalScore pA /\ highScore userB = en_finalScore pB /\
        highScore userB < highScore userA)).
Proof.
  split; [apply endGameSession_steps|]. split.
  { intros st1 data H. destruct (end_success c sid reason st st1 data H)
      as (e & row & u & _ & Hr & Hu & Hf & Ht & Hn & _ & Hus & _).
    exists row, u. eexists. split; [exact Hr|]. split; [exact Hu|].
    rewrite Hus, Hf, Ht, Hn. split; [apply lookup_insert_eq|].
    cbn [totalPoints gamesPlayed highScore].
    rewrite Z.ltb_lt, <- not_true_iff_false, Z.ltb_lt.
    repeat (split; [first [reflexivity | lia | tauto]|]).
    intros other Ho. apply lookup_insert_ne. congruence. }
  split.
  { intros p st0 session read H.
    destruct (await_session_update_user p st0) as (_ & H1 & _ & _ & H2).
    split; [exact H1|]. apply (H2 session read H). }
  split.
  { intros p session read st0 u' H.
    destruct (await_user_update_user p session read st0) as (_ & _ & _ & _ & _ & H1).
    destruct (H1 u' H) as (old & now & H2 & H3 & H4 & ->).
    exists old, now. cbn [totalPoints gamesPlayed highScore].
    repeat (split; [first [reflexivity | assumption]|]). reflexivity. }
  intros pA pB rowA rowB u st0 Hne HA HB Hid Hu.
  destruct (ends_interleaved_user pA pB rowA rowB u st0 Hne HA HB Hid Hu) as [H1 H2].
  eexists. eexists. split; [exact H1|]. split; [exact H2|].
  cbn [totalPoints gamesPlayed highScore].
  split; [reflexivity|]. split; [reflexivity|]. split; [reflexivity|].
  split; [lia|]. intros Ha Hb. lia.
Qed.


(** X23.  What a successful end stores verifies: the session record then
    holds the end time, the final score of the engine, and a replay blob and
    a digest that pass [verifyReplayIntegrity], provided every x of the
    input history is a finite number; the blob decodes to the input history
    as JSON carries it. *)
Theorem stored_replay_verifies c sid reason st st1 data e :
  endGameSession c sid reason st = (st1, EndSuccess data) ->
  activeSessions st !! sid = Some e ->
  Forall (fun i => is_finite (gi_x i) = true) (inputHistory e) ->
  exists row d h,
    gameSession (prisma st1) !! sid = Some row /\
    endTime row = Some (new_Date_1 c) /\ finalScore row = Some (score e) /\
    replayData row = Some d /\ inputsHash row = Some h /\
    verifyReplayIntegrity d h = true /\
    decompressReplay d = Some (map json_input (map replay_input (inputHistory e))).
Proof.
  intros H He Hfin. destruct (end_success c sid reason st st1 data H)
    as (e' & row & u & He' & _ & _ & _ & _ & _ & Hg & _).
  rewrite He in He'. injection He' as <-.
  eexists. eexists. eexists.
  rewrite Hg. split; [apply lookup_insert_eq|].
  cbn [endTime finalScore replayData inputsHash].
  repeat (split; [reflexivity|]). split.
  - apply verify_compress.
    apply Forall_fmap. eapply Forall_impl; [exact Hfin|].
    intros i Hi. exists (gi_x i). split; [reflexivity|exact Hi].
  - apply decompress_compress.
Qed.

(** *** The handlers *)

(** X25.  No input after the end: once [endGameSession] has been called
    for a session, whatever its outcome, POST /input and GET /state for that
    session are answered with 404 and POST /end with 400, and none of them
    changes anything. *)
Theorem no_input_after_end c sid reason st env env' input c' :
  sid <> ""%string ->
  let st1 := (endGameSession c sid reason st).1 in
  post_input env env' (Some sid) (Some input) st1
    = (st1, {| status := 404; json := body_error "Game session not found or expired" |}) /\
  get_state env sid st1
    = (st1, {| status := 404; json := body_error "Game session not found or expired" |}) /\
  post_end c' (Some sid) st1
    = (st1, {| status := 400; json := body_error "Game session not found" |}).
Proof.
  intros Hne st1.
  assert (Hs : activeSessions st1 !! sid = None).
  { unfold st1. rewrite end_activeSessions. apply lookup_delete_eq. }
  unfold post_input, get_state, post_end, str_or_none.
  rewrite (bool_decide_eq_false_2 _ Hne), Hs. split; [reflexivity|]. split; [reflexivity|].
  unfold endGameSession. rewrite Hs. reflexivity.
Qed.

Lemma put_lookup sid e (st : State) :
  is_Some (activeSessions st !! sid) ->
  prisma (put sid e st) = prisma st /\
  activeSessions (put sid e st) !! sid = Some e /\
  (forall s, is_Some (activeSessions (put sid e st) !! s)
             <-> is_Some (activeSessions st !! s)) /\
  (forall other, other <> sid ->
     activeSessions (put sid e st) !! other = activeSessions st !! other).
Proof.
  intros He. unfold put. cbn [activeSessions prisma].
  split; [reflexivity|]. split; [apply lookup_insert_eq|]. split.
  - intros s. destruct (decide (s = sid)) as [->|Hs].
    + rewrite lookup_insert_eq. split; eauto.
    + rewrite lookup_insert_ne by congruence. reflexivity.
  - intros other Ho. apply lookup_insert_ne. congruence.
Qed.

(** X26.  POST /input never touches the store, never adds or removes a
    session (not even one whose game it has just found to be over), and
    never touches a session other than the one named.  It answers 200, 400
    or 404.  A body without a session id or without an input is answered
    400 'Missing required fields' before any session is looked up, whether
    or not the session is live; 404 is answered exactly when both
    properties are there and the session is not live.  An input that fails
    the validation is answered 400 'Invalid input' and never reaches the
    engine.  An answer 200 means that the session was live, the type was
    'drop', x was a number for which neither x < 0 nor x > 1 holds (NaN is
    such a number and passes the validation), the engine accepted the drop,
    and the engine was left as [processInput] and then [getState] leave it;
    the body carries that snapshot and the merge events. *)
Theorem post_input_frame env env' sessionId input st :
  let r := post_input env env' sessionId input st in
  prisma r.1 = prisma st /\
  (forall sid, is_Some (activeSessions r.1 !! sid) <-> is_Some (activeSessions st !! sid)) /\
  (forall other, sessionId <> Some other ->
     activeSessions r.1 !! other = activeSessions st !! other) /\
  (status r.2 = 200 \/ status r.2 = 400 \/ status r.2 = 404) /\
  (status r.2 = 404 <->
     exists sid, str_or_none sessionId = Some sid /\ is_Some input /\
                 activeSessions st !! sid = None) /\
  (forall i, input = Some i -> valid_x i = None -> r.1 = st) /\
  (status r.2 = 200 ->
     exists sid i x e evs,
       sessionId = Some sid /\ input = Some i /\ activeSessions st !! sid = Some e /\
       b_type i = PStr "drop" /\ b_x i = PNum x /\
       (x <? 0)%float = false /\ (1 <? x)%float = false /\
       let call := processInput env {| gi_x := x; gi_timestamp := b_timestamp i;
                                       gi_fruitType := None |} e in
       call.2 = Success evs /\
       activeSessions r.1 !! sid = Some (getState env' call.1).1 /\
       json r.2 = body_input (getState env' call.1).2 evs) /\
  (str_or_none sessionId = None \/ input = None ->
     r = (st, {| status := 400; json := body_error "Missing required fields" |})) /\
  (forall sid i, str_or_none sessionId = Some sid -> input = Some i ->
     activeSessions st !! sid = None ->
     r = (st, {| status := 404; json := body_error "Game session not found or expired" |})) /\
  (forall sid i e, str_or_none sessionId = Some sid -> input = Some i ->
     activeSessions st !! sid = Some e -> valid_x i = None ->
     r = (st, {| status := 400; json := body_error "Invalid input" |})) /\
  (forall t, valid_x {| b_type := PStr "drop"; b_x := PNum nan; b_timestamp := t |}
             = Some nan).
Proof.
  intros r. subst r. unfold post_input.
  destruct (str_or_none sessionId) as [sid|] eqn:Es.
  2:{ cbn [fst snd status]. split; [reflexivity|]. split; [reflexivity|].
      split; [reflexivity|]. split; [auto|].
      split; [split; [discriminate|intros (? & [=] & _)]|].
      split; [reflexivity|]. split; [discriminate|].
      split; [reflexivity|]. split; [discriminate|]. split; [discriminate|reflexivity]. }
  assert (Hsid : sessionId = Some sid).
  { unfold str_or_none in Es. destruct sessionId as [s|]; [|discriminate].
    destruct (bool_decide _); [discriminate|exact Es]. }
  destruct input as [i|].
  2:{ cbn [fst snd status]. split; [reflexivity|]. split; [reflexivity|].
      split; [reflexivity|]. split; [auto|].
      split; [split; [discriminate|intros (? & _ & [? [=]] & _)]|].
      split; [reflexivity|]. split; [discriminate|].
      split; [reflexivity|]. split; [discriminate|]. split; [discriminate|reflexivity]. }
  assert (Hm : Some sid = None \/ Some i = None -> False) by (intros [[=]|[=]]).
  destruct (activeSessions st !! sid) as [e|] eqn:He.
  2:{ cbn [fst snd status]. split; [reflexivity|]. split; [reflexivity|].
      split; [reflexivity|]. split; [auto|].
      split; [split; [eauto|reflexivity]|].
      split; [reflexivity|]. split; [discriminate|].
      split; [intros H; destruct (Hm H)|]. split; [reflexivity|].
      split; [|reflexivity]. intros s i' e' [= <-] _ H. congruence. }
  assert (Hput : forall e',
    prisma (put sid e' st) = prisma st /\
    activeSessions (put sid e' st) !! sid = Some e' /\
    (forall s, is_Some (activeSessions (put sid e' st) !! s)
               <-> is_Some (activeSessions st !! s)) /\
    (forall other, sessionId <> Some other ->
       activeSessions (put sid e' st) !! other = activeSessions st !! other)).
  { intros e'. destruct (put_lookup sid e' st) as (P1 & P2 & P3 & P4);
      [rewrite He; eauto|].
    split; [exact P1|]. split; [exact P2|]. split; [exact P3|].
    intros other Ho. apply P4. congruence. }
  assert (N4 : forall n, n <> 404 ->
                 (n = 404 <-> exists sid0, Some sid = Some sid0 /\ is_Some (Some i) /\
                                activeSessions st !! sid0 = None)).
  { intros n Hn. split; [contradiction|]. intros (s & [= <-] & _ & H). congruence. }
  assert (N5 : forall (r : State * Response) (s : string) (i' : InputBody),
                 Some sid = Some s -> Some i = Some i' -> activeSessions st !! s = None ->
                 r = (st, {| status := 404;
                             json := body_error "Game session not found or expired" |})).
  { intros r s i' [= <-] _ H. congruence. }
  destruct (valid_x i) as [x|] eqn:Ev.
  2:{ cbn [fst snd status]. split; [reflexivity|]. split; [reflexivity|].
      split; [reflexivity|]. split; [auto|]. split; [apply N4; discriminate|].
      split; [reflexivity|]. split; [discriminate|].
      split; [intros H; destruct (Hm H)|]. split; [apply N5|].
      split; reflexivity. }
  assert (Hx : b_type i = PStr "drop" /\ b_x i = PNum x /\
               (x <? 0)%float = false /\ (1 <? x)%float = false).
  { unfold valid_x in Ev.
    destruct (bool_decide_reflect (b_type i = PStr "drop")) as [Ht|]; [|discriminate].
    destruct (b_x i) as [| | |x'|]; try discriminate.
    destruct (x' <? 0)%float eqn:E0; [discriminate|].
    destruct (1 <? x')%float eqn:E1; [discriminate|]. injection Ev as ->. tauto. }
  assert (N6 : forall (r : State * Response) (s : string) (i' : InputBody) (e' : GameEngine),
                 Some sid = Some s -> Some i = Some i' -> activeSessions st !! s = Some e' ->
                 valid_x i' = None ->
                 r = (st, {| status := 400; json := body_error "Invalid input" |})).
  { intros r s i' e' _ [= <-] _ H. congruence. }
  set (call := processInput env _ e).
  destruct (call.2) as [err|evs] eqn:Ec; cbn [fst snd status json].
  - destruct (Hput call.1) as (H0 & _ & H1 & H2).
    split; [exact H0|]. split; [exact H1|]. split; [exact H2|]. split; [auto|].
    split; [apply N4; discriminate|]. split; [intros ? [= <-]; congruence|].
    split; [discriminate|].
    split; [intros H; destruct (Hm H)|]. split; [apply N5|]. split; [apply N6|reflexivity].
  - destruct (Hput (getState env' call.1).1) as (H0 & H3 & H1 & H2).
    split; [exact H0|]. split; [exact H1|]. split; [exact H2|]. split; [auto|].
    split; [apply N4; discriminate|]. split; [intros ? [= <-]; congruence|].
    split.
    { intros _. exists sid, i, x, e, evs.
      destruct Hx as (X1 & X2 & X3 & X4).
      split; [exact Hsid|]. split; [reflexivity|]. split; [exact He|].
      split; [exact X1|]. split; [exact X2|]. split; [exact X3|]. split; [exact X4|].
      split; [exact Ec|]. split; [exact H3|reflexivity]. }
    split; [intros H; destruct (Hm H)|]. split; [apply N5|]. split; [apply N6|reflexivity].
Qed.

(** X27.  GET /state answers 404, and changes nothing, exactly when the
    session is not live; otherwise it answers 200 with the snapshot of the
    engine and leaves the fruits, the score, the input history and the
    terminal flag of the engine as they were, the store untouched and every
    other session alone.  It never ends a session, even when the snapshot
    it returns reports the game as over. *)
Theorem get_state_frame env sid st :
  let r := get_state env sid st in
  prisma r.1 = prisma st /\
  (forall s, is_Some (activeSessions r.1 !! s) <-> is_Some (activeSessions st !! s)) /\
  (forall other, other <> sid ->
     activeSessions r.1 !! other = activeSessions st !! other) /\
  (activeSessions st !! sid = None ->
     r = (st, {| status := 404;
                 json := body_error "Game session not found or expired" |})) /\
  (forall e, activeSessions st !! sid = Some e ->
     r.2 = {| status := 200; json := body_state (getState env e).2 |} /\
     exists e', activeSessions r.1 !! sid = Some e' /\
       fruits e' = fruits e /\ score e' = score e /\
       inputHistory e' = inputHistory e /\ isGameOver e' = isGameOver e).
Proof.
  intros r. subst r. unfold get_state.
  destruct (activeSessions st !! sid) as [e|] eqn:He.
  - destruct (put_lookup sid (getState env e).1 st) as (P1 & P2 & P3 & P4);
      [rewrite He; eauto|].
    cbn [fst snd]. split; [exact P1|]. split; [exact P3|]. split; [exact P4|].
    split; [discriminate|]. intros e0 [= <-]. split; [reflexivity|].
    eexists. split; [exact P2|]. unfold getState. cbn [fst].
    destruct (decay_frame (date_now_2 env) e) as (F1 & F2 & F3 & _).
    destruct (decay_log (date_now_2 env) e) as (_ & _ & _ & _ & _ & L6 & _).
    tauto.
  - cbn [fst snd]. split; [reflexivity|]. split; [reflexivity|]. split; [reflexivity|].
    split; [reflexivity|]. intros e [=].
Qed.

(** X28.  POST /end: without a session id (absent or empty) it answers 400
    'Missing sessionId' and changes nothing; with one, the session named is
    not live afterwards whatever the answer, which is 200 with the final
    data exactly when [endGameSession] succeeds, 400 with its error when it
    fails, and 500 when it throws. *)
Theorem post_end_outcomes c sessionId st :
  let r := post_end c sessionId st in
  (str_or_none sessionId = None ->
     r = (st, {| status := 400; json := body_error "Missing sessionId" |})) /\
  (forall sid, str_or_none sessionId = Some sid ->
     let result := endGameSession c sid manual st in
     r.1 = result.1 /\ activeSessions r.1 !! sid = None /\
     (forall data, result.2 = EndSuccess data <->
        r.2 = {| status := 200; json := body_end data |}) /\
     (forall error, result.2 = EndFailure error <->
        r.2 = {| status := 400; json := body_error error |}) /\
     (result.2 = Threw <-> status r.2 = 500) /\
     (status r.2 = 200 -> exists data, json r.2 = body_end data /\ d_reason data = manual)).
Proof.
  intros r. subst r. unfold post_end.
  destruct (str_or_none sessionId) as [sid|]; [|split; [reflexivity|discriminate]].
  split; [discriminate|]. intros sid' E. injection E as <-.
  set (result := endGameSession c sid manual st). cbn [fst snd].
  split; [reflexivity|].
  split; [unfold result; rewrite end_activeSessions; apply lookup_delete_eq|].
  assert (R : forall data, result.2 = EndSuccess data -> d_reason data = manual).
  { intros data. unfold result, endGameSession.
    destruct (activeSessions st !! sid) as [gameEngine|]; [|discriminate].
    destruct (gameSession (prisma st) !! sid) as [row|]; [|discriminate].
    cbn [user userId]. destruct (user (prisma st) !! userId row); [|discriminate].
    cbn [snd]. intros [= <-]. reflexivity. }
  destruct (result.2) as [error|data|] eqn:E; cbn [status json].
  - split; [intros d; split; discriminate|].
    split; [intros err; split; [intros [= ->]; reflexivity|intros [= ->]; reflexivity]|].
    split; [split; discriminate|discriminate].
  - split; [intros d; split; [intros [= ->]; reflexivity|intros [= ->]; reflexivity]|].
    split; [intros err; split; discriminate|].
    split; [split; discriminate|]. intros _. exists data. split; [reflexivity|].
    apply R. reflexivity.
  - split; [intros d; split; discriminate|].
    split; [intros err; split; discriminate|].
    split; [split; reflexivity|discriminate].
Qed.

End Session.

Lemma finalize_twice_witness :
  let r1 := endGameSession (P := Ideal) demo_clock "s1" manual demo_state in
  endGameSession (P := Ideal) demo_clock "s1" timeout r1.1
    = (r1.1, EndFailure "Game session not found") /\
  length (journal (prisma r1.1)) = 4%nat.
Proof.
  intros r1.
  assert (H2 : r1.2 = EndSuccess {| d_finalScore := 12; d_totalPoints := 112;
                                    d_isNewHighScore := false; d_reason := manual |})
    by (vm_compute; reflexivity).
  assert (H1 : r1 = (r1.1, EndSuccess {| d_finalScore := 12; d_totalPoints := 112;
                                         d_isNewHighScore := false;
                                         d_reason := manual |}))
    by (rewrite <- H2; apply surjective_pairing).
  pose proof (finalize_twice (P := Ideal) demo_clock demo_clock "s1" manual timeout
                demo_state r1.1 _ H1) as (H & _ & _).
  split; [exact H|]. vm_compute. reflexivity.
Defined.

(** C1 as stated fails on the return value: the first call returns the final
    score 12, the second call with the same id returns the failure
    'Game session not found' instead of that score. *)
Lemma finalize_twice_second_fails :
  let r1 := endGameSession (P := Ideal) demo_clock "s1" manual demo_state in
  let r2 := endGameSession (P := Ideal) demo_clock "s1" manual r1.1 in
  (exists data, r1.2 = EndSuccess data /\ d_finalScore data = 12) /\
  r2.2 = EndFailure "Game session not found".
Proof.
  split; [eexists; split|]; vm_compute; reflexivity.
Qed.

(** X24.  The period keys.  For every time t: the day key is the midnight
    (UTC) at or before t, less than a day back; the week key is a Monday
    midnight, at or before the day key and less than seven days back; a
    Sunday belongs to the week of the Monday six days earlier.  Both maps
    are idempotent. *)
Theorem week_start_monday t :
  let today := utc_midnight t in
  let weekStart := monday_of today in
  today <= t < today + msPerDay /\ today mod msPerDay = 0 /\
  utc_midnight today = today /\
  getUTCDay weekStart = 1 /\ weekStart mod msPerDay = 0 /\
  weekStart <= today < weekStart + 7 * msPerDay /\
  (getUTCDay today = 0 -> weekStart = today - 6 * msPerDay) /\
  monday_of weekStart = weekStart.
Proof.
  intros today weekStart. subst weekStart today.
  unfold monday_of, getUTCDay, utc_midnight, msPerDay.
  set (d := t / 86400000).
  assert (Ht : 86400000 * d <= t < 86400000 * d + 86400000)
    by (unfold d; pose proof (Z.mod_pos_bound t 86400000);
        pose proof (Z.div_mod t 86400000); lia).
  rewrite !Z.div_mul by lia. rewrite Z.mod_mul by lia.
  set (w := (d + 4) mod 7).
  assert (Hw : 0 <= w < 7) by (apply Z.mod_pos_bound; lia).
  assert (Hd : d + 4 = 7 * ((d + 4) / 7) + w) by (apply Z.div_mod; lia).
  set (diff := if w =? 0 then -6 else 1 - w).
  assert (Hdiff : -6 <= diff <= 0 /\ (d + diff + 4) mod 7 = 1 /\ (w = 0 -> diff = -6)).
  { unfold diff. destruct (Z.eqb_spec w 0) as [E|E].
    - split; [lia|]. split; [|reflexivity].
      replace (d + -6 + 4) with (1 + ((d + 4) / 7 - 1) * 7) by lia.
      rewrite Z.mod_add by lia. reflexivity.
    - split; [lia|]. split; [|contradiction].
      replace (d + (1 - w) + 4) with (1 + ((d + 4) / 7) * 7) by lia.
      rewrite Z.mod_add by lia. reflexivity. }
  destruct Hdiff as (Hdiff & Hm & H0).
  replace (d * 86400000 + diff * 86400000) with ((d + diff) * 86400000) by lia.
  rewrite !Z.div_mul by lia. rewrite Z.mod_mul by lia. rewrite Hm.
  split; [lia|]. split; [reflexivity|]. split; [reflexivity|]. split; [reflexivity|].
  split; [reflexivity|]. split; [lia|]. split; [intros E; rewrite (H0 E); lia|].
  simpl. lia.
Qed.

Lemma demo_end_success :
  exists data,
    endGameSession (P := Ideal) demo_clock "s1" manual demo_state
      = ((endGameSession (P := Ideal) demo_clock "s1" manual demo_state).1,
         EndSuccess data) /\
    d_finalScore data = 12 /\ d_isNewHighScore data = false.
Proof.
  set (r := endGameSession (P := Ideal) demo_clock "s1" manual demo_state).
  assert (H : exists data, r.2 = EndSuccess data /\
                           d_finalScore data = 12 /\ d_isNewHighScore data = false)
    by (vm_compute; eexists; repeat split).
  destruct H as (data & H & H1 & H2). exists data.
  split; [rewrite <- H; apply surjective_pairing|]. split; assumption.
Defined.

(** The demo session, played to 12 points and ended alone: the total of
    its user grows by 12 and the number of games by one; 12 being no new
    high score, the high score stays.  Two sessions of a user whose high
    score is 40, ended with 100 and with 50 points, the two first awaits
    before the two second ones: the first call gets back a record with high
    score 100, the record left in the store has high score 50; both games
    and both scores are counted. *)
Lemma user_stats_updated_witness :
  (let st1 := (endGameSession (P := Ideal) demo_clock "s1" manual demo_state).1 in
   exists row u u',
     gameSession (prisma demo_state) !! "s1"%string = Some row /\
     user (prisma demo_state) !! userId row = Some u /\
     user (prisma st1) !! userId row = Some u' /\
     totalPoints u' = totalPoints u + 12 /\ gamesPlayed u' = gamesPlayed u + 1 /\
     highScore u' = highScore u) /\
  (let r := ends_interleaved (ending "a" 100) (ending "b" 50) two_ended_state in
   exists userA userB,
     r.2 = Some (userA, userB) /\
     user (prisma r.1) !! "u1"%string = Some userB /\
     highScore userA = 100 /\ highScore userB = 50 /\
     totalPoints userB = 250 /\ gamesPlayed userB = 5).
Proof.
  destruct (user_stats_updated (P := Ideal) demo_clock "s1" manual demo_state)
    as (_ & Ha & _ & _ & H).
  split.
  - intros st1. destruct demo_end_success as (data & Hd & Hf & Hn).
    destruct (Ha st1 data Hd)
      as (row & u & u' & Hr & Hu & Hu' & Ht & _ & Hg & _ & _ & _ & _ & Hh & _).
    exists row, u, u'. rewrite Hf in Ht.
    split; [exact Hr|]. split; [exact Hu|]. split; [exact Hu'|].
    split; [exact Ht|]. split; [exact Hg|exact (Hh Hn)].
  - intros r.
    assert (Hne : en_sessionId (ending "a" 100) <> en_sessionId (ending "b" 50))
      by discriminate.
    destruct (H (ending "a" 100) (ending "b" 50)
                {| userId := "u1"; walletAddress := "w1"; endTime := None;
                   finalScore := None; replayData := None; inputsHash := None |}
                {| userId := "u1"; walletAddress := "w1"; endTime := None;
                   finalScore := None; replayData := None; inputsHash := None |}
                {| totalPoints := 100; gamesPlayed := 3; highScore := 40 |}
                two_ended_state Hne)
      as (userA & userB & H1 & H2 & H3 & H4 & H5 & H6 & _);
      [reflexivity..|].
    exists userA, userB.
    split; [exact H1|]. split; [exact H2|]. split; [exact H3|]. split; [exact H4|].
    split; [exact H5|exact H6].
Defined.


Lemma played_end_success :
  exists data,
    endGameSession (P := Ideal) demo_clock "s1" manual played_state
      = ((endGameSession (P := Ideal) demo_clock "s1" manual played_state).1,
         EndSuccess data).
Proof.
  set (r := endGameSession (P := Ideal) demo_clock "s1" manual played_state).
  assert (H : exists data, r.2 = EndSuccess data) by (vm_compute; eexists; reflexivity).
  destruct H as (data & H). exists data. rewrite <- H. apply surjective_pairing.
Defined.

(** The session with one drop: the record stored at its end holds a blob
    and a digest that verify. *)
Lemma stored_replay_verifies_witness :
  let st1 := (endGameSession (P := Ideal) demo_clock "s1" manual played_state).1 in
  exists row d h,
    gameSession (prisma st1) !! "s1"%string = Some row /\
    replayData row = Some d /\ inputsHash row = Some h /\
    verifyReplayIntegrity d h = true.
Proof.
  intros st1. destruct played_end_success as (data & H).
  set (e := (processInput (demo_env 1000) demo_input
               (new_GameEngine (demo_env 0) "s1" None)).1).
  assert (He : activeSessions played_state !! "s1"%string = Some e)
    by apply lookup_singleton_eq.
  assert (Hfin : Forall (fun i => is_finite (gi_x i) = true) (inputHistory e))
    by (vm_compute; repeat constructor).
  destruct (stored_replay_verifies (P := Ideal) demo_clock "s1" manual played_state
              st1 data e H He Hfin) as (row & d & h & H1 & _ & _ & H2 & H3 & H4 & _).
  exists row, d, h. repeat split; assumption.
Defined.

Lemma no_input_after_end_witness :
  let st1 := (endGameSession (P := Ideal) demo_clock "s1" manual demo_state).1 in
  status (post_input (demo_env 7000) (demo_env 7000) (Some "s1"%string)
            (Some {| b_type := PStr "drop"; b_x := PNum 0.5; b_timestamp := 7000 |})
            st1).2 = 404 /\
  status (get_state (demo_env 7000) "s1" st1).2 = 404.
Proof.
  intros st1.
  assert (Hne : "s1"%string <> ""%string) by discriminate.
  destruct (no_input_after_end (P := Ideal) demo_clock "s1" manual demo_state
              (demo_env 7000) (demo_env 7000)
              {| b_type := PStr "drop"; b_x := PNum 0.5; b_timestamp := 7000 |}
              demo_clock Hne) as (H1 & H2 & _).
  fold st1 in H1, H2.
  split; [exact (f_equal (fun r => status r.2) H1)|exact (f_equal (fun r => status r.2) H2)].
Defined.

Lemma end_session_isolation_witness :
  let r := endGameSession (P := Ideal) demo_clock "s1" manual played_state in
  activeSessions r.1 !! "s1"%string = None /\
  activeSessions r.1 !! "s2"%string = activeSessions played_state !! "s2"%string.
Proof.
  intros r.
  assert (Hne : "s2"%string <> "s1"%string) by discriminate.
  destruct (end_session_isolation (P := Ideal) demo_clock "s1" manual played_state
              "s2" Hne) as (H1 & H2 & _).
  split; assumption.
Defined.

End HostFacts.
